(** * Treasury-SF basis: the calculator and the plotter, embedded and verified

    The development follows [src/calc_treasury_sf_basis.py] and
    [src/plot_figure.py], with the flattening of the Bloomberg frames of
    [src/pull_bbg_treasury_sf.py] and the term structure of
    [src/summary_treasury_sf_basis_ipynb.py].  The pandas objects the code
    works on are modelled as the code uses them:

    - a cell is a binary64 float ([PrimFloat.float]) with the arithmetic
      Python has on it; a missing value is a NaN, tested with [is_nan] as
      [isna], [dropna] and [ffill] do;
    - a label is a Python [str], kept as the bytes of its UTF-8 encoding;
      [str.split()] breaks it at the blanks of Unicode;
    - an index key is a date, as a day number;
    - a [DataFrame] is an index and a list of labelled columns, in column
      order; labels may repeat, as pandas allows, and a label that
      repeats selects a frame where a label of its own selects a series;
    - Python exceptions are the [Raise] results of the [result] monad: a
      subscript, a dict lookup, a label slice and a merge can raise;
    - [compute_treasury_sf_basis] assigns columns of the frame it is given,
      so frames live in a store of objects and the function takes and
      returns a reference.

    The pandas operations are those of pandas 2: an inner merge keeps the
    order of the left keys and refuses suffixes that duplicate a label; a
    label slice is by value on a monotonic index and by position
    otherwise. *)

From Stdlib Require Import PrimFloat ZArith Ascii String Lia.
From Stdlib Require FloatAxioms.
From stdpp Require Import base option list strings gmap sorting pretty.

Local Open Scope Z_scope.

(* Decimal rates are read as Python reads them: the nearest binary64. *)
#[local] Set Warnings "-inexact-float".

(** ** Exceptions *)

Inductive exn : Set :=
  | KeyError        (* a label or dict key that is not there *)
  | IndexError      (* a list position that is not there *)
  | ValueError      (* a frame where a series was needed *)
  | MergeError      (* suffixes that make duplicate columns *)
  | DanglingRef.    (* a reference outside the store: no Python counterpart *)

Inductive result (A : Type) : Type :=
  | Ok (a : A)
  | Raise (e : exn).
Arguments Ok {A} a.
Arguments Raise {A} e.

#[global] Instance result_ret : MRet result := @Ok.
#[global] Instance result_bind : MBind result := λ A B f m,
  match m with Ok a => f a | Raise e => Raise e end.

(** A [for] loop that threads an accumulator and stops at the first raise. *)
Fixpoint foldM {A B : Type} (f : B → A → result B) (b : B) (l : list A) : result B :=
  match l with
  | [] => Ok b
  | a :: l' => b' ← f b a; foldM f b' l'
  end.

(** ** Strings, as the code uses them *)

(** A Python [str] is the string of the bytes of its UTF-8 encoding, the
    bytes a string literal of this file holds.  On these bytes two strings
    are equal, one is a part of the other and one sorts before the other
    exactly when this is so of their code points. *)

(** The string of the bytes with the given codes. *)
Definition utf8 (codes : list nat) : string :=
  foldr (λ n s, String (ascii_of_nat n) s) EmptyString codes.

(** The blanks of [str.split()], the code points [str.isspace] holds of:
    U+0009 to U+000D, U+001C to U+0020, U+0085, U+00A0, U+1680, U+2000 to
    U+200A, U+2028, U+2029, U+202F, U+205F and U+3000, each as its
    encoding. *)
Definition whitespace : list string :=
  utf8 <$>
    [[9]; [10]; [11]; [12]; [13]; [28]; [29]; [30]; [31]; [32];
     [194; 133]; [194; 160]; [225; 154; 128];
     [226; 128; 128]; [226; 128; 129]; [226; 128; 130]; [226; 128; 131];
     [226; 128; 132]; [226; 128; 133]; [226; 128; 134]; [226; 128; 135];
     [226; 128; 136]; [226; 128; 137]; [226; 128; 138];
     [226; 128; 168]; [226; 128; 169]; [226; 128; 175]; [226; 129; 159];
     [227; 128; 128]]%nat.

(** The number of bytes of the blank a string starts with; 0 when it
    starts with none. *)
Definition blank_length (s : string) : nat :=
  match filter (λ w, String.prefix w s = true) whitespace with
  | w :: _ => String.length w
  | [] => 0
  end.

(** [s.split()]: the maximal runs without a blank, in order.  [cur] is
    the run being read, [skip] the number of bytes still to pass of the
    blank that was met. *)
Fixpoint split_from (skip : nat) (cur : string) (s : string) : list string :=
  match s with
  | EmptyString => if bool_decide (cur = "") then [] else [cur]
  | String c s' =>
      match skip with
      | S k => split_from k cur s'
      | O =>
          match blank_length s with
          | S k =>
              if bool_decide (cur = "") then split_from k "" s'
              else cur :: split_from k "" s'
          | O => split_from 0 (cur +:+ String c "") s'
          end
      end
  end.

Definition split (s : string) : list string := split_from 0 "" s.

(** The string holds no blank: none starts at any of its bytes. *)
Fixpoint no_blank (s : string) : bool :=
  match s with
  | EmptyString => true
  | String _ s' => bool_decide (blank_length s = 0%nat) && no_blank s'
  end.

(** A byte that continues a code point: 0x80 to 0xBF. *)
Definition continuation (c : ascii) : bool :=
  let n := nat_of_ascii c in (128 <=? n)%nat && (n <? 192)%nat.

(** Every byte of the string passes the test. *)
Fixpoint all_bytes (p : ascii → bool) (s : string) : bool :=
  match s with
  | EmptyString => true
  | String c s' => p c && all_bytes p s'
  end.

(** [l[i]] on a Python list. *)
Definition list_getitem {A : Type} (l : list A) (i : nat) : result A :=
  match l !! i with Some a => Ok a | None => Raise IndexError end.

(** [sub in s] on strings. *)
Fixpoint contains (sub s : string) : bool :=
  String.prefix sub s ||
  match s with
  | EmptyString => false
  | String _ s' => contains sub s'
  end.

(** [s.replace(old, new)] for a non-empty [old]: occurrences are replaced
    left to right; [skip] counts the characters of a match still to pass. *)
Fixpoint replace_from (old new : string) (skip : nat) (s : string) : string :=
  match s with
  | EmptyString => EmptyString
  | String c s' =>
      match skip with
      | S k => replace_from old new k s'
      | O =>
          if String.prefix old s
          then new +:+ replace_from old new (String.length old - 1) s'
          else String c (replace_from old new 0 s')
      end
  end.

Definition replace (old new s : string) : string := replace_from old new 0 s.

(** ** Dictionaries *)

(** [k in d] and [d[k]] on a dict used as a map. *)
Definition dict_contains (d : gmap string string) (k : string) : bool :=
  bool_decide (is_Some (d !! k)).

Definition dict_getitem (d : gmap string string) (k : string) : result string :=
  match d !! k with Some v => Ok v | None => Raise KeyError end.

(** A dict whose order is used ([.values()]): its items in insertion order. *)
Definition odict := list (string * string).

Fixpoint odict_getitem (d : odict) (k : string) : result string :=
  match d with
  | [] => Raise KeyError
  | (k', v) :: d' => if bool_decide (k' = k) then Ok v else odict_getitem d' k
  end.

Definition odict_values (d : odict) : list string := d.*2.

(** ** Frames and series *)

Record DataFrame : Type := mkDF {
  index : list Z;
  columns : list (string * list float)
}.

(** [df.columns] *)
Definition labels (df : DataFrame) : list string := (columns df).*1.

(** [label in df.columns] *)
Definition in_columns (label : string) (cols : list string) : bool :=
  bool_decide (label ∈ cols).

(** The columns carrying one label. *)
Definition named (label : string) (cols : list (string * list float))
  : list (string * list float) :=
  filter (λ c, c.1 = label) cols.

(** [df[label]] where the code needs a series.  A label that is absent
    raises [KeyError].  A label carried by several columns gives a frame
    and not a series: the assignment of the calculator refuses it, and the
    model follows the code no further than that, with [ValueError]. *)
Definition frame_getitem (df : DataFrame) (label : string) : result (list float) :=
  match named label (columns df) with
  | [] => Raise KeyError
  | [c] => Ok c.2
  | _ => Raise ValueError
  end.

(** [df[label] = values]: every column carrying the label takes the values
    where it stands; without one, a new column is appended. *)
Definition frame_setitem (df : DataFrame) (label : string) (values : list float)
  : DataFrame :=
  if in_columns label (labels df)
  then mkDF (index df)
            ((λ c, if bool_decide (c.1 = label) then (c.1, values) else c)
               <$> columns df)
  else mkDF (index df) (columns df ++ [(label, values)]).

(** [df[names]]: for each name in turn the columns carrying it; a name that
    is absent raises. *)
Definition frame_select (df : DataFrame) (names : list string) : result DataFrame :=
  if forallb (λ n, in_columns n (labels df)) names
  then Ok (mkDF (index df) (names ≫= λ n, named n (columns df)))
  else Raise KeyError.

(** [a - b] and [a * k] on two series of one frame: position by position. *)
Definition series_sub (a b : list float) : list float := zip_with PrimFloat.sub a b.
Definition series_mul (a : list float) (k : float) : list float :=
  (λ x, PrimFloat.mul x k) <$> a.

(** The frame is a rectangle: every column is as long as the index.  pandas
    keeps this for every frame it builds. *)
Definition rectangular (df : DataFrame) : Prop :=
  Forall (λ c, length c.2 = length (index df)) (columns df).

(** The unique column of a label, for statements. *)
Definition column (df : DataFrame) (label : string) : option (list float) :=
  match named label (columns df) with
  | [c] => Some c.2
  | _ => None
  end.

(** ** Forward fill *)

(** [ffill] on one column: a missing cell takes the last value seen above
    it, when there is one; [last] is that value. *)
Fixpoint ffill_from (last : option float) (l : list float) : list float :=
  match l with
  | [] => []
  | x :: l' =>
      if is_nan x
      then default x last :: ffill_from last l'
      else x :: ffill_from (Some x) l'
  end.

Definition ffill_column (l : list float) : list float := ffill_from None l.

(** [df.ffill()] *)
Definition ffill (df : DataFrame) : DataFrame :=
  mkDF (index df) ((λ c, (c.1, ffill_column c.2)) <$> columns df).

(** ** Label slices: [.loc[start:stop]] *)

Inductive side : Set := side_left | side_right.

Definition other_side (s : side) : side :=
  match s with side_left => side_right | side_right => side_left end.

Fixpoint find_first (label : Z) (idx : list Z) : option nat :=
  match idx with
  | [] => None
  | k :: idx' => if bool_decide (k = label) then Some 0%nat else S <$> find_first label idx'
  end.

Fixpoint find_last (label : Z) (idx : list Z) : option nat :=
  match idx with
  | [] => None
  | k :: idx' =>
      match find_last label idx' with
      | Some p => Some (S p)
      | None => if bool_decide (k = label) then Some 0%nat else None
      end
  end.

Definition occurrences (label : Z) (idx : list Z) : nat :=
  length (filter (λ k, k = label) idx).

Fixpoint is_monotonic_increasing (idx : list Z) : bool :=
  match idx with
  | [] => true
  | k :: idx' =>
      match idx' with
      | [] => true
      | k' :: _ => bool_decide (k ≤ k') && is_monotonic_increasing idx'
      end
  end.

Definition is_monotonic_decreasing (idx : list Z) : bool :=
  is_monotonic_increasing (reverse idx).

(** [searchsorted] on an ascending index: how many keys lie before the
    label (left), or before or at it (right). *)
Definition searchsorted (idx : list Z) (label : Z) (s : side) : nat :=
  match s with
  | side_left => length (filter (λ k, k < label) idx)
  | side_right => length (filter (λ k, k ≤ label) idx)
  end.

(** [Index.get_slice_bound]: a label that occurs bounds the slice at its
    first (left) or past its last (right) occurrence, provided its
    occurrences are adjacent; a label that does not occur is placed by
    [searchsorted] when the index is monotonic; anything else is a
    [KeyError]. *)
Definition get_slice_bound (idx : list Z) (label : Z) (s : side) : result nat :=
  match find_first label idx, find_last label idx with
  | Some p, Some q =>
      if bool_decide ((S q - p)%nat = occurrences label idx)
      then Ok (match s with side_left => p | side_right => S q end)
      else Raise KeyError
  | _, _ =>
      if is_monotonic_increasing idx then Ok (searchsorted idx label s)
      else if is_monotonic_decreasing idx
      then Ok (length idx - searchsorted (reverse idx) label (other_side s))%nat
      else Raise KeyError
  end.

(** [Index.slice_locs]: a bound left out is the end of the index. *)
Definition slice_locs (idx : list Z) (start stop : option Z) : result (nat * nat) :=
  lo ← match start with
       | Some a => get_slice_bound idx a side_left
       | None => Ok 0%nat
       end;
  hi ← match stop with
       | Some b => get_slice_bound idx b side_right
       | None => Ok (length idx)
       end;
  Ok (lo, hi).

(** The key is inside the bounds that are given. *)
Definition in_window (start stop : option Z) (k : Z) : bool :=
  match start with Some a => bool_decide (a ≤ k) | None => true end &&
  match stop with Some b => bool_decide (k ≤ b) | None => true end.

(** The positions [slice_locs] returns on an ascending index. *)
Definition sorted_bounds (idx : list Z) (start stop : option Z) : nat * nat :=
  (match start with Some a => searchsorted idx a side_left | None => 0%nat end,
   match stop with Some b => searchsorted idx b side_right | None => length idx end).

(** [l[lo:hi]] *)
Definition slice {A : Type} (lo hi : nat) (l : list A) : list A :=
  take (hi - lo) (drop lo l).

(** [df.loc[start:stop]] *)
Definition frame_loc (df : DataFrame) (start stop : option Z) : result DataFrame :=
  b ← slice_locs (index df) start stop;
  Ok (mkDF (slice b.1 b.2 (index df))
           ((λ c, (c.1, slice b.1 b.2 c.2)) <$> columns df)).

(** A series: its (key, value) pairs in order. *)
Definition Series : Type := list (Z * float).

(** [.loc[start:stop]] on rows that go by their keys: those of a series,
    or of a frame. *)
Definition series_loc {V : Type} (s : list (Z * V)) (start stop : option Z)
  : result (list (Z * V)) :=
  b ← slice_locs s.*1 start stop;
  Ok (slice b.1 b.2 s).

(** [series.dropna()] *)
Definition dropna (s : Series) : Series :=
  filter (λ p, is_nan p.2 = false) s.

(** ** What a label selects *)

(** The values the columns hold in the row at position [i]. *)
Definition row_at (cols : list (string * list float)) (i : nat) : list float :=
  omap (λ c : string * list float, c.2 !! i) cols.

(** The rows of some columns of a frame: the key of each row and the
    values of that row, a value for each column. *)
Definition frame_rows (idx : list Z) (cols : list (string * list float))
  : list (Z * list float) :=
  imap (λ i k, (k, row_at cols i)) idx.

(** [df[label]] as pandas has it: a series when one column carries the
    label; when several do, the frame of these columns, kept here as its
    rows. *)
Inductive Selection : Type :=
  | OneColumn (s : Series)
  | SeveralColumns (rows : list (Z * list float)).

Definition frame_item (df : DataFrame) (label : string) : result Selection :=
  match named label (columns df) with
  | [] => Raise KeyError
  | [c] => Ok (OneColumn (zip (index df) c.2))
  | cs => Ok (SeveralColumns (frame_rows (index df) cs))
  end.

(** [.loc[start:stop]] on either. *)
Definition item_loc (item : Selection) (start stop : option Z) : result Selection :=
  match item with
  | OneColumn s => s' ← series_loc s start stop; Ok (OneColumn s')
  | SeveralColumns rows => rows' ← series_loc rows start stop; Ok (SeveralColumns rows')
  end.

(** [.dropna()] on either: a series drops its missing values, a frame the
    rows that hold one. *)
Definition item_dropna (item : Selection) : Selection :=
  match item with
  | OneColumn s => OneColumn (dropna s)
  | SeveralColumns rows =>
      SeveralColumns (filter (λ p, Forall (λ v, is_nan v = false) p.2) rows)
  end.

(** [.index] on either. *)
Definition item_index (item : Selection) : list Z :=
  match item with
  | OneColumn s => s.*1
  | SeveralColumns rows => rows.*1
  end.

(** A numpy array of one dimension, or of two, by rows. *)
Inductive ndarray : Type :=
  | Array1 (values : list float)
  | Array2 (rows : list (list float)).

(** [.values] on either: the values of a series, the rows of a frame. *)
Definition item_values (item : Selection) : ndarray :=
  match item with
  | OneColumn s => Array1 s.*2
  | SeveralColumns rows => Array2 rows.*2
  end.

(** ** Merging two frames on their indexes *)

(** The positions in [keys], counted from [j], that hold [k]. *)
Fixpoint find_all (k : Z) (keys : list Z) (j : nat) : list nat :=
  match keys with
  | [] => []
  | k' :: keys' =>
      if bool_decide (k' = k) then j :: find_all k keys' (S j)
      else find_all k keys' (S j)
  end.

(** The rows of an inner join, in the order of the left keys: the key, its
    position on the left and a position on the right that holds it. *)
Fixpoint join_rows (lkeys rkeys : list Z) (i : nat) : list (Z * (nat * nat)) :=
  match lkeys with
  | [] => []
  | k :: lkeys' =>
      ((λ j, (k, (i, j))) <$> find_all k rkeys 0) ++ join_rows lkeys' rkeys (S i)
  end.

(** [values.take(positions)] *)
Definition take_rows {A : Type} (positions : list nat) (values : list A) : list A :=
  omap (λ p, values !! p) positions.

(** [Index.duplicated()]: marks every occurrence of a label but its first. *)
Fixpoint duplicated (seen : list string) (l : list string) : list bool :=
  match l with
  | [] => []
  | x :: l' => bool_decide (x ∈ seen) :: duplicated (x :: seen) l'
  end.

(** The labels a suffix duplicated: duplicates after the renaming that were
    not duplicates before. *)
Definition suffix_duplicates (before after : list string) : bool :=
  existsb (λ p : bool * bool, p.1 && negb p.2)
          (zip (duplicated [] after) (duplicated [] before)).

Definition add_suffix (overlap : list string) (suffix : string) (x : string) : string :=
  if bool_decide (x ∈ overlap) then x +:+ suffix else x.

(** [left.merge(right, left_index=True, right_index=True, how="inner")]:
    a row for every pair of rows with one key; the left columns, then the
    right ones; a label on both sides takes the suffixes [_x] and [_y]. *)
Definition merge_inner (left right : DataFrame) : result DataFrame :=
  let overlap := filter (λ x, x ∈ labels right) (labels left) in
  let llabels := add_suffix overlap "_x" <$> labels left in
  let rlabels := add_suffix overlap "_y" <$> labels right in
  if suffix_duplicates (labels left) llabels || suffix_duplicates (labels right) rlabels
  then Raise MergeError
  else
    let rows := join_rows (index left) (index right) 0 in
    let lpos := (λ r : Z * (nat * nat), r.2.1) <$> rows in
    let rpos := (λ r : Z * (nat * nat), r.2.2) <$> rows in
    Ok (mkDF rows.*1
          (((λ c, (add_suffix overlap "_x" c.1, take_rows lpos c.2)) <$> columns left) ++
           ((λ c, (add_suffix overlap "_y" c.1, take_rows rpos c.2)) <$> columns right))).

(** [df.rename(columns=new_cols)] *)
Definition rename (new_cols : gmap string string) (df : DataFrame) : DataFrame :=
  mkDF (index df) ((λ c, (default c.1 (new_cols !! c.1), c.2)) <$> columns df).

(** ** Rows *)

(** The value a column holds at a date: the one in the first row of that
    date. *)
Definition value_at (keys : list Z) (values : list float) (d : Z) : option float :=
  p ← find_first d keys; values !! p.

(** [df.iloc[:n]]: the first [n] rows. *)
Definition head_rows (n : nat) (df : DataFrame) : DataFrame :=
  mkDF (take n (index df)) ((λ c, (c.1, take n c.2)) <$> columns df).

(** ** The store of frames *)

(** Frames are objects: a reference names one, and an assignment to a
    column changes the object every holder of the reference sees. *)
Definition ref : Set := nat.

Record store : Type := mkStore {
  objects : gmap nat DataFrame;
  next_ref : nat
}.

Definition empty_store : store := mkStore ∅ 0%nat.

Definition M (A : Type) : Type := store → result (A * store).

#[global] Instance M_ret : MRet M := λ A a σ, Ok (a, σ).
#[global] Instance M_bind : MBind M := λ A B f m σ,
  match m σ with Ok p => f p.1 p.2 | Raise e => Raise e end.

Definition lift {A : Type} (r : result A) : M A := λ σ,
  match r with Ok a => Ok (a, σ) | Raise e => Raise e end.

(** A new object. *)
Definition new_frame (df : DataFrame) : M ref := λ σ,
  Ok (next_ref σ, mkStore (<[next_ref σ := df]> (objects σ)) (S (next_ref σ))).

Definition read (r : ref) : M DataFrame := λ σ,
  match objects σ !! r with Some df => Ok (df, σ) | None => Raise DanglingRef end.

Definition write (r : ref) (df : DataFrame) : M unit := λ σ,
  Ok (tt, mkStore (<[r := df]> (objects σ)) (next_ref σ)).

(** The store after a step that only changes the frame behind [r]. *)
Definition update (r : ref) (df : DataFrame) (σ : store) : store :=
  mkStore (<[r := df]> (objects σ)) (next_ref σ).

(** [df.columns], [df[label]] and [df[label] = values] through a reference. *)
Definition df_columns (r : ref) : M (list string) :=
  df ← read r; mret (labels df).

Definition getitem (r : ref) (label : string) : M (list float) :=
  df ← read r; lift (frame_getitem df label).

Definition setitem (r : ref) (label : string) (values : list float) : M unit :=
  df ← read r; write r (frame_setitem df label values).

Fixpoint for_each {A : Type} (l : list A) (body : A → M unit) : M unit :=
  match l with
  | [] => mret tt
  | a :: l' => body a;; for_each l' body
  end.

(** What a call returns, from an empty store: the frame behind the
    reference it hands back. *)
Definition returned (m : M ref) : result DataFrame :=
  match m empty_store with
  | Ok p => match objects p.2 !! p.1 with Some df => Ok df | None => Raise DanglingRef end
  | Raise e => Raise e
  end.

(** ** [calc_treasury_sf_basis.py] *)

Module Calc.

(** A frame as [read_parquet] hands it over: its float columns with its
    index, and the one column that is not float, the dates that
    [reset_index] left under the label [index], when it is there.  The
    label [index] stands for that column only. *)
Record RawFrame : Type := mkRaw {
  date_column : option (list Z);
  frame : DataFrame
}.

(** The keys the frame is joined on: its dates. *)
Definition dates (raw : RawFrame) : list Z :=
  match date_column raw with
  | Some ds => ds
  | None => index (frame raw)
  end.

Definition TREASURY_MAPPING : gmap string string :=
  list_to_map
    [("USGG2YR", "2Y"); ("USGG5YR", "5Y"); ("USGG10YR", "10Y");
     ("USGG20YR", "20Y"); ("USGG30YR", "30Y")].

Definition SF_MAPPING : gmap string string :=
  list_to_map
    [("USOSFR2", "2Y"); ("USOSFR5", "5Y"); ("USOSFR10", "10Y");
     ("USOSFR20", "20Y"); ("USOSFR30", "30Y")].

Definition OUTPUT_COLUMNS : odict :=
  [("2Y", "Treasury_SF_2Y"); ("5Y", "Treasury_SF_5Y");
   ("10Y", "Treasury_SF_10Y"); ("20Y", "Treasury_SF_20Y");
   ("30Y", "Treasury_SF_30Y")].

(** [df.set_index("index") if "index" in df.columns else df] *)
Definition set_index_if_present (raw : RawFrame) : DataFrame :=
  match date_column raw with
  | Some ds => mkDF ds (columns (frame raw))
  | None => frame raw
  end.

(** One turn of the loop of [clean_columns]. *)
Definition clean_column (mapping : gmap string string) (suffix : string)
    (new_cols : gmap string string) (col : string) : result (gmap string string) :=
  if contains "_PX_LAST" col then
    ticker ← list_getitem (split col) 0;
    if dict_contains mapping ticker then
      tenor ← dict_getitem mapping ticker;
      Ok (<[col := tenor +:+ "_" +:+ suffix]> new_cols)
    else Ok new_cols
  else Ok new_cols.

(** The entry one turn of the loop of [clean_columns] puts in [new_cols]. *)
Definition new_name (mapping : gmap string string) (suffix col : string)
  : option string :=
  if contains "_PX_LAST" col then
    match split col with
    | ticker :: _ => (λ tenor, tenor +:+ "_" +:+ suffix) <$> mapping !! ticker
    | [] => None
    end
  else None.

(** What the renaming of [clean_columns] makes of one label. *)
Definition clean_label (mapping : gmap string string) (suffix : string)
    (col : string) : string :=
  if contains "_PX_LAST" col then
    match split col with
    | ticker :: _ =>
        match mapping !! ticker with
        | Some tenor => tenor +:+ "_" +:+ suffix
        | None => col
        end
    | [] => col
    end
  else col.

Definition clean_columns (df : DataFrame) (mapping : gmap string string)
    (suffix : string) : result DataFrame :=
  new_cols ← foldM (clean_column mapping suffix) ∅ (labels df);
  Ok (rename new_cols df).

(** The frame [clean_columns] returns for an input: the dates as index,
    the labels renamed. *)
Definition cleaned (raw : RawFrame) (mapping : gmap string string)
    (suffix : string) : DataFrame :=
  mkDF (dates raw)
       ((λ c, (clean_label mapping suffix c.1, c.2)) <$> columns (frame raw)).

(** The labels of the two inputs after the renaming, Treasury first. *)
Definition merged_labels (treasury_df sf_df : RawFrame) : list string :=
  (clean_label TREASURY_MAPPING "Treasury" <$> labels (frame treasury_df)) ++
  (clean_label SF_MAPPING "SF" <$> labels (frame sf_df)).

(** A ticker column the mapping has no tenor for: the label holds
    [_PX_LAST] and its first word is no key of the mapping. *)
Definition unmapped (mapping : gmap string string) (col : string) : Prop :=
  contains "_PX_LAST" col = true ∧
  ∀ ticker, head (split col) = Some ticker → mapping !! ticker = None.

Definition prepare_data (treasury_df sf_df : RawFrame) : result DataFrame :=
  let treasury_df := set_index_if_present treasury_df in
  let sf_df := set_index_if_present sf_df in
  treasury_df ← clean_columns treasury_df TREASURY_MAPPING "Treasury";
  sf_df ← clean_columns sf_df SF_MAPPING "SF";
  merge_inner treasury_df sf_df.

Definition tenors : list string := ["2Y"; "5Y"; "10Y"; "20Y"; "30Y"].

(** The body of the loop of [compute_treasury_sf_basis]. *)
Definition compute_tenor (df_merged : ref) (tenor : string) : M unit :=
  let treas_col := tenor +:+ "_Treasury" in
  let sf_col := tenor +:+ "_SF" in
  output_col ← lift (odict_getitem OUTPUT_COLUMNS tenor);
  cols ← df_columns df_merged;
  if in_columns treas_col cols && in_columns sf_col cols then
    treas ← getitem df_merged treas_col;
    sf ← getitem df_merged sf_col;
    setitem df_merged output_col (series_mul (series_sub treas sf) 100%float)
  else mret tt.

Definition compute_treasury_sf_basis (df_merged : ref) : M ref :=
  for_each tenors (compute_tenor df_merged);;
  mret df_merged.

(** The loop body and the loop, read on the frame behind the reference:
    what [compute_tenor_run] and [compute_run] below show them to do. *)
Definition tenor_step (df : DataFrame) (tenor : string) : result DataFrame :=
  let treas_col := tenor +:+ "_Treasury" in
  let sf_col := tenor +:+ "_SF" in
  output_col ← odict_getitem OUTPUT_COLUMNS tenor;
  if in_columns treas_col (labels df) && in_columns sf_col (labels df) then
    treas ← frame_getitem df treas_col;
    sf ← frame_getitem df sf_col;
    Ok (frame_setitem df output_col (series_mul (series_sub treas sf) 100%float))
  else Ok df.

Definition compute_frame (df : DataFrame) : result DataFrame :=
  foldM tenor_step df tenors.

(** Both columns of a tenor are there. *)
Definition both (df : DataFrame) (tenor : string) : bool :=
  in_columns (tenor +:+ "_Treasury") (labels df) &&
  in_columns (tenor +:+ "_SF") (labels df).

(** The basis of a tenor, from its two columns: (Treasury - SF) * 100. *)
Definition basis (df : DataFrame) (tenor : string) : option (list float) :=
  treas ← column df (tenor +:+ "_Treasury");
  sf ← column df (tenor +:+ "_SF");
  Some (series_mul (series_sub treas sf) 100%float).

(** The label of the basis column of a tenor. *)
Definition output_label (tenor : string) : string := "Treasury_SF_" +:+ tenor.

(** The tenors, among [ts], that the loop assigns a column for. *)
Definition assigned (df : DataFrame) (ts : list string) : list string :=
  filter (λ t, both df t = true) ts.

(** What the loop over the tenors [ts] makes of a frame [df]: the index
    stays; the labels stay where they are, followed by the basis labels
    that were not there; a column whose label is not an assigned basis
    label stays as it was; an assigned basis label holds the basis. *)
Record loop_result (ts : list string) (df df' : DataFrame) : Prop := {
  loop_index : index df' = index df;
  loop_labels :
    labels df' =
      labels df ++ filter (λ l, l ∉ labels df) (output_label <$> assigned df ts);
  loop_others : ∀ l,
    l ∉ output_label <$> assigned df ts →
    named l (columns df') = named l (columns df);
  loop_basis : ∀ t,
    t ∈ assigned df ts → column df' (output_label t) = basis df t;
  loop_NoDup : NoDup (labels df')
}.

(** [calculate_treasury_sf_basis] up to its forward fill.  The two frames
    are the ones the loaders read from [data_dir]; [end_date] is the date
    of the argument when it is given and not empty. *)
Definition basis_before_ffill (end_date : option Z) (treasury_df sf_df : RawFrame)
  : M ref :=
  merged ← lift (prepare_data treasury_df sf_df);
  df_merged ← new_frame merged;
  df_merged ← match end_date with
              | Some date =>
                  df ← read df_merged;
                  cut ← lift (frame_loc df None (Some date));
                  new_frame cut
              | None => mret df_merged
              end;
  df_merged ← compute_treasury_sf_basis df_merged;
  cols ← df_columns df_merged;
  let basis_cols := filter (λ col, col ∈ cols) (odict_values OUTPUT_COLUMNS) in
  df ← read df_merged;
  picked ← lift (frame_select df basis_cols);
  new_frame picked.

(** [basis_before_ffill] read on frames: what [basis_before_ffill_run]
    below shows it to return. *)
Definition basis_frame (end_date : option Z) (treasury_df sf_df : RawFrame)
  : result DataFrame :=
  merged ← prepare_data treasury_df sf_df;
  cut ← match end_date with
        | Some date => frame_loc merged None (Some date)
        | None => Ok merged
        end;
  df ← compute_frame cut;
  frame_select df (filter (λ col, col ∈ labels df) (odict_values OUTPUT_COLUMNS)).

Definition calculate_treasury_sf_basis (end_date : option Z)
    (treasury_df sf_df : RawFrame) : M ref :=
  basis_df ← basis_before_ffill end_date treasury_df sf_df;
  df ← read basis_df;
  new_frame (ffill df).

(** Every column of an input is as long as its dates. *)
Definition well_formed (raw : RawFrame) : Prop :=
  Forall (λ c, length c.2 = length (dates raw)) (columns (frame raw)).

End Calc.

(** ** [pull_bbg_treasury_sf.py] *)

Module Pull.

Definition treasury_tickers : list string :=
  ["USGG2YR Index"; "USGG5YR Index"; "USGG10YR Index"; "USGG20YR Index";
   "USGG30YR Index"].

Definition sf_tickers : list string :=
  ["USOSFR2 Curncy"; "USOSFR5 Curncy"; "USOSFR10 Curncy"; "USOSFR20 Curncy";
   "USOSFR30 Curncy"].

Definition fields : list string := ["PX_LAST"].

(** A frame as [blp.bdh] hands it over, and as [process_bloomberg_df]
    leaves it.  Its index holds the dates and has no name.  Its columns
    are under a two-level header, a (ticker, field) pair for each, or
    under plain labels; the second kind is a [Calc.RawFrame]. *)
Inductive BloombergFrame : Type :=
  | MultiColumns (dates : list Z) (cols : list ((string * string) * list float))
  | PlainColumns (raw : Calc.RawFrame).

(** [df.empty]: no row, or no column. *)
Definition empty (df : BloombergFrame) : bool :=
  match df with
  | MultiColumns dates cols =>
      bool_decide (length dates = 0)%nat || bool_decide (length cols = 0)%nat
  | PlainColumns raw =>
      bool_decide (length (index (Calc.frame raw)) = 0)%nat ||
      bool_decide (length (columns (Calc.frame raw)) +
                   length (option_list (Calc.date_column raw)) = 0)%nat
  end.

(** [isinstance(df.columns, pd.MultiIndex)] *)
Definition is_MultiIndex (df : BloombergFrame) : bool :=
  match df with MultiColumns _ _ => true | PlainColumns _ => false end.

(** The label [f"{t[0]}_{t[1]}"] of a header pair. *)
Definition flat_label (t : string * string) : string := t.1 +:+ "_" +:+ t.2.

(** [df.columns = [...]] and [df.reset_index(inplace=True)]: the pairs
    give way to their flat labels; the dates go to a column [index], and
    the rows are numbered from 0. *)
Definition flatten (dates : list Z) (cols : list ((string * string) * list float))
  : Calc.RawFrame :=
  Calc.mkRaw (Some dates)
    (mkDF (seqZ 0 (Z.of_nat (length dates))) ((λ c, (flat_label c.1, c.2)) <$> cols)).

Definition process_bloomberg_df (df : BloombergFrame) : BloombergFrame :=
  if negb (empty df) && is_MultiIndex df then
    match df with
    | MultiColumns dates cols => PlainColumns (flatten dates cols)
    | PlainColumns _ => df
    end
  else df.

(** [pull_treasury_sf_data], given what [blp.bdh] answers to a request
    for tickers, fields and two dates. *)
Definition pull_treasury_sf_data
    (bdh : list string → list string → string → string → BloombergFrame)
    (start_date end_date : string) : list (string * BloombergFrame) :=
  let treasury_df :=
    process_bloomberg_df (bdh treasury_tickers fields start_date end_date) in
  let sf_df :=
    process_bloomberg_df (bdh sf_tickers fields start_date end_date) in
  [("treasury_yields", treasury_df); ("sf_rates", sf_df)].

(** The header [blp.bdh] gives the columns of a request: a pair for each
    ticker it has data for, each once and among those asked, under the
    one field asked. *)
Definition header_of (asked : list string) (cols : list ((string * string) * list float))
  : Prop :=
  ∃ tickers,
    NoDup tickers ∧ tickers ⊆ asked ∧ cols.*1 = (λ t, (t, "PX_LAST")) <$> tickers.

End Pull.

(** ** The end-to-end scenario of the specification *)

Module Scenario.

(** Treasury: 2Y at 4.50 on day 1 and 4.60 on day 2, as the puller stores
    it: the dates in the column [index], the rates under the ticker. *)
Definition treasury : Calc.RawFrame :=
  Calc.mkRaw (Some [1; 2])
    (mkDF [0; 1] [("USGG2YR Index_PX_LAST", [4.50; 4.60]%float)]).

(** SF: 2Y at 4.30 on day 1; on day 2 the row is there and the rate is
    missing. *)
Definition sf : Calc.RawFrame :=
  Calc.mkRaw (Some [1; 2])
    (mkDF [0; 1] [("USOSFR2 Curncy_PX_LAST", [4.30; nan]%float)]).

(** SF again, with no row at all for day 2. *)
Definition sf_without_day_2 : Calc.RawFrame :=
  Calc.mkRaw (Some [1])
    (mkDF [0] [("USOSFR2 Curncy_PX_LAST", [4.30]%float)]).

(** (4.50 - 4.30) * 100 in binary64: 20 and five units in the last place,
    printed 20.000000000000018. *)
Definition basis_day_1 : float := 0x1.4000000000005p+4%float.

End Scenario.

(** ** Inputs on which the calculator raises *)

Module Raising.



(** A Treasury frame with the column of an unmapped ticker and dates that
    are not in order, and SF rates on the same dates. *)
Definition unordered : Calc.RawFrame :=
  Calc.mkRaw (Some [3; 1; 2])
    (mkDF [0; 1; 2] [("USGG2YR Index_PX_LAST", [4.5; 4.75; 4.5]%float);
                     ("USGG3YR Index_PX_LAST", [4.25; 4.5; 4.25]%float)]).

Definition sf_unordered : Calc.RawFrame :=
  Calc.mkRaw (Some [3; 1; 2])
    (mkDF [0; 1; 2] [("USOSFR2 Curncy_PX_LAST", [4.25; 4; 4.25]%float)]).

(** The column of an unmapped ticker on both sides, and on the left a
    column under the label the merge gives the left one. *)
Definition suffixed : Calc.RawFrame :=
  Calc.mkRaw (Some [1; 2])
    (mkDF [0; 1] [("USGG3YR Index_PX_LAST", [4.25; 4.5]%float);
                  ("USGG3YR Index_PX_LAST_x", [4.25; 4.5]%float)]).

Definition sf_shared : Calc.RawFrame :=
  Calc.mkRaw (Some [1; 2])
    (mkDF [0; 1] [("USGG3YR Index_PX_LAST", [4.25; 4]%float)]).

End Raising.

(** ** Long tables *)

Module Long.

(** A row of the long table: the series it belongs to, its date and its
    value, in the columns [unique_id], [ds] and [y]. *)
Record Row : Type := mkRow {
  unique_id : string;
  ds : Z;
  y : float
}.

Definition Table : Type := list Row.

(** The (date, series) pair a row is filed under. *)
Definition key (r : Row) : Z * string := (ds r, unique_id r).

(** The values of an axis of the wide table: each value once, in
    ascending order; strings in the order of their characters' codes. *)
Definition dates (df : Table) : list Z := merge_sort (≤) (remove_dups (ds <$> df)).

Definition series (df : Table) : list string :=
  merge_sort (λ a b : string, String.leb a b) (remove_dups (unique_id <$> df)).

(** The value of the wide table at a date and a series: that of the row
    filed there, a missing value without one. *)
Definition cell (df : Table) (d : Z) (id : string) : float :=
  match filter (λ r, key r = (d, id)) df with
  | r :: _ => y r
  | [] => nan
  end.

(** [df.pivot(index="ds", columns="unique_id", values="y")]: two rows
    under one pair raise [ValueError]. *)
Definition pivot (df : Table) : result DataFrame :=
  if bool_decide (NoDup (key <$> df))
  then Ok (mkDF (dates df)
             ((λ id, (id, (λ d, cell df d id) <$> dates df)) <$> series df))
  else Raise ValueError.

End Long.

(** ** [plot_figure.py] *)

Module Plot.

(** A [go.Scatter] trace and the figure that holds the traces. *)
Record Trace : Type := mkTrace {
  x : list Z;
  y : ndarray;
  mode : string;
  name : string
}.

Record Figure : Type := mkFigure {
  traces : list Trace;
  title : string;
  xaxis_title : string;
  yaxis_title : string
}.

(** The files written so far: a path and the chart stored there. *)
Definition files : Type := gmap string Figure.

Definition tenors : list string :=
  ["Treasury_SF_2Y"; "Treasury_SF_5Y"; "Treasury_SF_10Y";
   "Treasury_SF_20Y"; "Treasury_SF_30Y"].

(** The body of the loop of [plot_figure]: [fig] is the list of traces
    added so far.  [series] is a series, or a frame when the frame has
    several columns under the label of the tenor. *)
Definition plot_tenor (basis_df : DataFrame) (start_dt end_dt : option Z)
    (fig : list Trace) (tenor : string) : result (list Trace) :=
  if negb (in_columns tenor (labels basis_df)) then Ok fig
  else
    let label := replace "Treasury_SF_" "" tenor in
    series ← frame_item basis_df tenor;
    series ← match start_dt, end_dt with
             | Some a, Some b => s ← item_loc series (Some a) (Some b); Ok (item_dropna s)
             | Some a, None => s ← item_loc series (Some a) None; Ok (item_dropna s)
             | None, _ => Ok (item_dropna series)
             end;
    Ok (fig ++ [mkTrace (item_index series) (item_values series) "lines" label]).

(** The keys [plot_tenor] keeps of a series: with a start date the keys
    from it to the end date, when there is one; without a start date all
    of them, whatever the end date. *)
Definition window (start_dt end_dt : option Z) (k : Z) : bool :=
  match start_dt with
  | Some a => in_window (Some a) end_dt k
  | None => true
  end.

(** The trace of a tenor that has one column, with [values] in it: the
    points of the column inside the window that are not missing. *)
Definition trace_of (basis_df : DataFrame) (start_dt end_dt : option Z)
    (tenor : string) (values : list float) : Trace :=
  let points :=
    filter (λ p, window start_dt end_dt p.1 = true ∧ is_nan p.2 = false)
           (zip (index basis_df) values) in
  mkTrace points.*1 (Array1 points.*2) "lines" (replace "Treasury_SF_" "" tenor).


(** [plot_figure]: the figure it returns and the files after
    [write_html]. *)
Definition plot_figure (basis_df : DataFrame) (save_path : string)
    (start_date end_date : option Z) (fs : files) : result (Figure * files) :=
  let start_dt := start_date in
  let end_dt := end_date in
  added ← foldM (plot_tenor basis_df start_dt end_dt) [] tenors;
  let fig := mkFigure added "Treasury-SF Basis" "Date" "Basis Spread (bps)" in
  Ok (fig, <[save_path := fig]> fs).

(** [pd.Timestamp("2018-01-01").date()]: dates are counted in days from
    1970-01-01. *)
Definition DEFAULT_START_DATE : Z := 17532.
Definition DEFAULT_END_DATE : option Z := None.

(** [load_treasury_sf_data], given the table [read_parquet] returns for
    [file_path].  [pd.to_datetime] leaves the dates what they are. *)
Definition load_treasury_sf_data (df : Long.Table) : result DataFrame :=
  df_wide ← Long.pivot df;
  Ok df_wide.

(** [plot_main], given the table in [ftsfr_treasury_sf_basis.parquet];
    [html] is the path [out_dir / "treasury_sf_basis.html"], in the
    directory the call makes when it is not there. *)
Definition plot_main (html : string) (df : Long.Table) (fs : files) : result files :=
  basis_df ← load_treasury_sf_data df;
  drawn ← plot_figure basis_df html (Some DEFAULT_START_DATE) DEFAULT_END_DATE fs;
  Ok drawn.2.

End Plot.

(** ** [summary_treasury_sf_basis_ipynb.py]: the term structure *)

Module Summary.

Definition tenors : list Z := [2; 5; 10; 20; 30].

(** [df.iloc[-1]]: the last row, as a series over the labels; a frame
    with no row raises [IndexError]. *)
Definition iloc_last (df : DataFrame) : result (list (string * float)) :=
  match length (index df) with
  | O => Raise IndexError
  | S n => Ok (omap (λ c, pair c.1 <$> c.2 !! n) (columns df))
  end.

(** What [series.get(key, None)] finds under a label: a value when the
    label is there once, a series of values when it is there several
    times. *)
Inductive Found : Type :=
  | Scalar (value : float)
  | Several (values : list float).

(** [series.get(key, None)]: [None] when the label is not there. *)
Definition series_get (s : list (string * float)) (key : string) : option Found :=
  match filter (λ p, p.1 = key) s with
  | [] => None
  | [p] => Some (Scalar p.2)
  | ps => Some (Several ps.*2)
  end.

(** The values the term-structure cell plots against the tenors, lines
    106 to 108, from the frame [basis_wide] the statistics cell has
    left. *)
Definition term_structure (basis_wide : DataFrame) : result (list (option Found)) :=
  latest ← iloc_last basis_wide;
  Ok ((λ t, series_get latest ("Treasury_SF_" +:+ pretty t +:+ "Y")) <$> tenors).

End Summary.

(** * Properties *)

(** Closes a goal whose premise says that a raise returned. *)
Ltac raised := let H := fresh in intros H; discriminate H.

(** ** The monads *)

Lemma store_eta (σ : store) : mkStore (objects σ) (next_ref σ) = σ.
Proof. by destruct σ. Qed.

Lemma update_same r df σ : objects σ !! r = Some df → update r df σ = σ.
Proof.
  intros Hr. unfold update. rewrite insert_id by done. apply store_eta.
Qed.

Lemma update_update r df df' σ : update r df' (update r df σ) = update r df' σ.
Proof. unfold update; simpl. by rewrite insert_insert_eq. Qed.

Lemma update_lookup r df σ : objects (update r df σ) !! r = Some df.
Proof. unfold update; simpl. apply lookup_insert_eq. Qed.

Lemma update_lookup_ne r r' df σ :
  r ≠ r' → objects (update r df σ) !! r' = objects σ !! r'.
Proof. intros. unfold update; simpl. by apply lookup_insert_ne. Qed.

(** The equations of the store monad. *)
Lemma bind_run {A B : Type} (m : M A) (f : A → M B) σ :
  (m ≫= f) σ = match m σ with Ok p => f p.1 p.2 | Raise e => Raise e end.
Proof. done. Qed.

Lemma bind_lift {A B : Type} (v : result A) (f : A → M B) σ :
  (lift v ≫= f) σ = match v with Ok a => f a σ | Raise e => Raise e end.
Proof. rewrite bind_run. unfold lift. by destruct v. Qed.

Lemma bind_read {B : Type} r df (f : DataFrame → M B) σ :
  objects σ !! r = Some df → (read r ≫= f) σ = f df σ.
Proof. intros Hr. rewrite bind_run. unfold read. by rewrite Hr. Qed.

Lemma bind_ret {A B : Type} (a : A) (f : A → M B) σ : (mret a ≫= f) σ = f a σ.
Proof. done. Qed.

Lemma bind_new_frame {B : Type} df (f : ref → M B) σ :
  (new_frame df ≫= f) σ =
    f (next_ref σ) (mkStore (<[next_ref σ := df]> (objects σ)) (S (next_ref σ))).
Proof. done. Qed.

Lemma bind_df_columns {B : Type} r df (f : list string → M B) σ :
  objects σ !! r = Some df → (df_columns r ≫= f) σ = f (labels df) σ.
Proof.
  intros Hr. unfold df_columns. rewrite bind_run, (bind_read _ df) by done. done.
Qed.

Lemma bind_getitem {B : Type} r df label (f : list float → M B) σ :
  objects σ !! r = Some df →
  (getitem r label ≫= f) σ =
    match frame_getitem df label with Ok v => f v σ | Raise e => Raise e end.
Proof.
  intros Hr. unfold getitem. rewrite bind_run, (bind_read _ df) by done.
  unfold lift. by destruct (frame_getitem df label).
Qed.

Lemma setitem_run r df label values σ :
  objects σ !! r = Some df →
  setitem r label values σ = Ok (tt, update r (frame_setitem df label values) σ).
Proof. intros Hr. unfold setitem. by rewrite (bind_read _ df). Qed.

(** ** [compute_treasury_sf_basis] on the store and on the frame *)

Lemma compute_tenor_run r tenor σ df :
  objects σ !! r = Some df →
  Calc.compute_tenor r tenor σ =
    match Calc.tenor_step df tenor with
    | Ok df' => Ok (tt, update r df' σ)
    | Raise e => Raise e
    end.
Proof.
  intros Hr. unfold Calc.compute_tenor, Calc.tenor_step.
  rewrite bind_lift.
  destruct (odict_getitem Calc.OUTPUT_COLUMNS tenor) as [out|e]; [|done].
  rewrite (bind_df_columns _ df) by done.
  change (Ok out ≫= ?f) with (f out). cbv beta.
  destruct (in_columns _ _ && in_columns _ _).
  - rewrite (bind_getitem _ df) by done.
    destruct (frame_getitem df (tenor +:+ "_Treasury")) as [t|e]; [|done].
    rewrite (bind_getitem _ df) by done.
    destruct (frame_getitem df (tenor +:+ "_SF")) as [s|e]; [|done].
    by rewrite (setitem_run _ df).
  - by rewrite update_same.
Qed.

Lemma for_each_run r ts σ df :
  objects σ !! r = Some df →
  for_each ts (Calc.compute_tenor r) σ =
    match foldM Calc.tenor_step df ts with
    | Ok df' => Ok (tt, update r df' σ)
    | Raise e => Raise e
    end.
Proof.
  revert σ df. induction ts as [|t ts IH]; intros σ df Hr.
  - cbn. by rewrite update_same.
  - cbn [for_each foldM]. rewrite bind_run, (compute_tenor_run _ _ _ df) by done.
    destruct (Calc.tenor_step df t) as [df1|e]; [|done].
    change (Ok df1 ≫= ?f) with (f df1). cbn [fst snd].
    rewrite (IH _ df1) by apply update_lookup.
    destruct (foldM Calc.tenor_step df1 ts); [|done].
    by rewrite update_update.
Qed.

(** The call changes the frame behind its argument, nothing else in the
    store, and hands the same reference back. *)
Lemma compute_run r σ df :
  objects σ !! r = Some df →
  Calc.compute_treasury_sf_basis r σ =
    match Calc.compute_frame df with
    | Ok df' => Ok (r, update r df' σ)
    | Raise e => Raise e
    end.
Proof.
  intros Hr. unfold Calc.compute_treasury_sf_basis, Calc.compute_frame.
  rewrite bind_run, (for_each_run _ _ _ df) by done.
  by destruct (foldM Calc.tenor_step df Calc.tenors).
Qed.

(** ** Columns and labels *)

Lemma labels_setitem df l v :
  labels (frame_setitem df l v) =
    labels df ++ (if in_columns l (labels df) then [] else [l]).
Proof.
  unfold frame_setitem, labels. destruct (in_columns l _); simpl.
  - rewrite app_nil_r, <- list_fmap_compose. apply list_fmap_ext.
    intros i c _. simpl. by case_bool_decide.
  - by rewrite fmap_app.
Qed.

Lemma index_setitem df l v : index (frame_setitem df l v) = index df.
Proof. unfold frame_setitem. by destruct (in_columns l _). Qed.

Lemma named_not_in l cols : l ∉ cols.*1 → named l cols = [].
Proof.
  induction cols as [|c cols IH]; [done|]. intros Hl.
  apply not_elem_of_cons in Hl as [Hne Hl]. unfold named.
  rewrite filter_cons_False by (simpl in *; congruence). by apply IH.
Qed.

Lemma named_unique l cols :
  NoDup cols.*1 → l ∈ cols.*1 → ∃ v, named l cols = [(l, v)].
Proof.
  induction cols as [|[l' v'] cols IH]; intros Hnd Hl.
  - by apply elem_of_nil in Hl.
  - simpl in Hnd. apply NoDup_cons in Hnd as [Hfresh Hnd]. unfold named.
    destruct (decide (l' = l)) as [->|Hne].
    + exists v'. rewrite filter_cons_True by done. f_equal. by apply named_not_in.
    + rewrite filter_cons_False by done. apply IH; [done|].
      simpl in Hl. apply elem_of_cons in Hl as [?|?]; [congruence|done].
Qed.

Lemma named_setitem_ne df l l' v :
  l' ≠ l → named l' (columns (frame_setitem df l v)) = named l' (columns df).
Proof.
  intros Hne. unfold frame_setitem. destruct (in_columns l _); simpl.
  - unfold named. induction (columns df) as [|c cols IH]; [done|].
    rewrite fmap_cons. case_bool_decide as Hc.
    + rewrite !filter_cons_False by (simpl; congruence). exact IH.
    + rewrite !filter_cons. destruct (decide (c.1 = l')); by rewrite IH.
  - unfold named. rewrite filter_app, filter_cons_False, filter_nil by (simpl; congruence).
    by rewrite app_nil_r.
Qed.

Lemma named_setitem_eq df l v :
  NoDup (labels df) → named l (columns (frame_setitem df l v)) = [(l, v)].
Proof.
  intros Hnd. unfold frame_setitem, in_columns. case_bool_decide as Hin; simpl.
  - unfold labels in *. induction (columns df) as [|[l' v'] cols IH].
    + by apply elem_of_nil in Hin.
    + simpl in Hnd. apply NoDup_cons in Hnd as [Hfresh Hnd].
      rewrite fmap_cons. simpl. unfold named. case_bool_decide as Hc.
      * subst l'. rewrite filter_cons_True by done. f_equal.
        apply named_not_in. rewrite <- list_fmap_compose.
        erewrite list_fmap_ext; [exact Hfresh|]. intros i c _. simpl. by case_bool_decide.
      * rewrite filter_cons_False by done. apply IH; [done|].
        simpl in Hin. apply elem_of_cons in Hin as [?|?]; [congruence|done].
  - unfold named. rewrite filter_app. fold (named l (columns df)).
    rewrite named_not_in by done. by rewrite filter_cons_True.
Qed.

Lemma column_named df df' l :
  named l (columns df') = named l (columns df) → column df' l = column df l.
Proof. unfold column. by intros ->. Qed.

Lemma NoDup_labels_setitem df l v :
  NoDup (labels df) → NoDup (labels (frame_setitem df l v)).
Proof.
  intros Hnd. rewrite labels_setitem. unfold in_columns. case_bool_decide.
  - by rewrite app_nil_r.
  - apply NoDup_app. split_and!; [done| |apply NoDup_singleton].
    intros x Hx ->%list_elem_of_singleton. done.
Qed.

Lemma getitem_column df l :
  NoDup (labels df) → in_columns l (labels df) = true →
  ∃ v, frame_getitem df l = Ok v ∧ column df l = Some v.
Proof.
  intros Hnd Hin. apply bool_decide_eq_true in Hin.
  destruct (named_unique l (columns df) Hnd Hin) as [v Hv].
  exists v. unfold frame_getitem, column. by rewrite Hv.
Qed.

Lemma column_in df l v : column df l = Some v → in_columns l (labels df) = true.
Proof.
  unfold column. intros Hc. apply bool_decide_eq_true.
  destruct (decide (l ∈ labels df)) as [|Hn]; [done|].
  rewrite named_not_in in Hc by done. done.
Qed.

Lemma column_elem df l v : column df l = Some v → (l, v) ∈ columns df.
Proof.
  unfold column. destruct (named l (columns df)) as [|c [|]] eqn:Hn; [done| |done].
  intros [= <-]. assert (c ∈ named l (columns df)) as Hc by (rewrite Hn; left).
  apply list_elem_of_filter in Hc as [<- Hc]. by destruct c.
Qed.

(** ** The tenors and their labels *)

Lemma tenor_cases (P : string → Prop) :
  P "2Y" → P "5Y" → P "10Y" → P "20Y" → P "30Y" →
  ∀ t, t ∈ Calc.tenors → P t.
Proof.
  intros H2 H5 H10 H20 H30 t Ht. unfold Calc.tenors in Ht.
  repeat (apply elem_of_cons in Ht as [->|Ht]; [assumption|]).
  by apply elem_of_nil in Ht.
Qed.

Lemma output_of_tenor t :
  t ∈ Calc.tenors → odict_getitem Calc.OUTPUT_COLUMNS t = Ok (Calc.output_label t).
Proof. revert t. by apply tenor_cases. Qed.

Lemma output_label_inj t t' : Calc.output_label t = Calc.output_label t' → t = t'.
Proof. unfold Calc.output_label. simpl. by intros [= ?]. Qed.

(** No basis label is the label of an input column of the loop. *)
Lemma output_not_input t t' :
  t ∈ Calc.tenors → t' ∈ Calc.tenors →
  Calc.output_label t ≠ t' +:+ "_Treasury" ∧ Calc.output_label t ≠ t' +:+ "_SF".
Proof.
  intros Ht. revert t'.
  apply tenor_cases; revert t Ht; apply tenor_cases; by split.
Qed.

Lemma NoDup_tenors : NoDup Calc.tenors.
Proof. apply (bool_decide_unpack _). by vm_compute. Qed.

(** ** The loop of [compute_treasury_sf_basis] *)

Lemma in_columns_setitem_ne df l l' v :
  l' ≠ l →
  in_columns l' (labels (frame_setitem df l v)) = in_columns l' (labels df).
Proof.
  intros Hne. unfold in_columns. apply bool_decide_ext.
  rewrite labels_setitem, elem_of_app.
  destruct (in_columns l (labels df)); [rewrite elem_of_nil|rewrite list_elem_of_singleton];
    tauto.
Qed.

Lemma both_setitem df t t' v :
  t ∈ Calc.tenors → t' ∈ Calc.tenors →
  Calc.both (frame_setitem df (Calc.output_label t) v) t' = Calc.both df t'.
Proof.
  intros Ht Ht'. destruct (output_not_input t t' Ht Ht') as [H1 H2].
  unfold Calc.both. by rewrite !in_columns_setitem_ne.
Qed.

Lemma basis_setitem df t t' v :
  t ∈ Calc.tenors → t' ∈ Calc.tenors →
  Calc.basis (frame_setitem df (Calc.output_label t) v) t' = Calc.basis df t'.
Proof.
  intros Ht Ht'. destruct (output_not_input t t' Ht Ht') as [H1 H2].
  unfold Calc.basis.
  rewrite (column_named df (frame_setitem _ _ _) (t' +:+ "_Treasury"))
    by (by apply named_setitem_ne).
  by rewrite (column_named df (frame_setitem _ _ _) (t' +:+ "_SF"))
    by (by apply named_setitem_ne).
Qed.

Lemma filter_ext_in {A : Type} (P1 P2 : A → Prop)
    `{!∀ x, Decision (P1 x), !∀ x, Decision (P2 x)} (l : list A) :
  (∀ x, x ∈ l → P1 x ↔ P2 x) → filter P1 l = filter P2 l.
Proof.
  induction l as [|a l IH]; intros Hiff; [done|].
  rewrite !filter_cons.
  destruct (decide (P1 a)) as [H1|H1], (decide (P2 a)) as [H2|H2].
  - f_equal. apply IH. intros x Hx. apply Hiff. by right.
  - exfalso. apply H2, Hiff; [left|done].
  - exfalso. apply H1, Hiff; [left|done].
  - apply IH. intros x Hx. apply Hiff. by right.
Qed.

Lemma assigned_setitem df t ts v :
  t ∈ Calc.tenors → ts ⊆ Calc.tenors →
  Calc.assigned (frame_setitem df (Calc.output_label t) v) ts = Calc.assigned df ts.
Proof.
  intros Ht Hts. unfold Calc.assigned. apply filter_ext_in.
  intros t' Ht'. by rewrite both_setitem by auto.
Qed.

(** With labels that do not repeat, a tenor that has both columns has a
    basis. *)
Lemma basis_both df t :
  NoDup (labels df) → Calc.both df t = true →
  ∃ treas sf,
    frame_getitem df (t +:+ "_Treasury") = Ok treas ∧
    frame_getitem df (t +:+ "_SF") = Ok sf ∧
    column df (t +:+ "_Treasury") = Some treas ∧
    column df (t +:+ "_SF") = Some sf ∧
    Calc.basis df t = Some (series_mul (series_sub treas sf) 100%float).
Proof.
  intros Hnd [H1 H2]%andb_true_iff.
  destruct (getitem_column df _ Hnd H1) as (treas & Hg1 & Hc1).
  destruct (getitem_column df _ Hnd H2) as (sf & Hg2 & Hc2).
  exists treas, sf. unfold Calc.basis. rewrite Hc1, Hc2. done.
Qed.

(** One turn of the loop. *)
Lemma tenor_step_both df t :
  t ∈ Calc.tenors → NoDup (labels df) → Calc.both df t = true →
  ∃ b, Calc.basis df t = Some b ∧
       Calc.tenor_step df t = Ok (frame_setitem df (Calc.output_label t) b).
Proof.
  intros Ht Hnd Hb.
  destruct (basis_both df t Hnd Hb) as (treas & sf & Hg1 & Hg2 & _ & _ & Hbasis).
  eexists; split; [exact Hbasis|].
  unfold Calc.tenor_step. rewrite output_of_tenor by done.
  change (Ok ?a ≫= ?f) with (f a). cbv beta.
  unfold Calc.both in Hb. rewrite Hb, Hg1, Hg2. done.
Qed.

Lemma tenor_step_skip df t :
  t ∈ Calc.tenors → Calc.both df t = false → Calc.tenor_step df t = Ok df.
Proof.
  intros Ht Hb. unfold Calc.tenor_step. rewrite output_of_tenor by done.
  change (Ok ?a ≫= ?f) with (f a). cbv beta.
  unfold Calc.both in Hb. by rewrite Hb.
Qed.

(** The loop returns, and [Calc.loop_result] says what. *)
Lemma loop_spec ts df :
  ts ⊆ Calc.tenors → NoDup ts → NoDup (labels df) →
  ∃ df', foldM Calc.tenor_step df ts = Ok df' ∧ Calc.loop_result ts df df'.
Proof.
  revert df. induction ts as [|t ts IH]; intros df Hts Hndts Hnd.
  - exists df. split; [done|]. split; try done.
    + unfold Calc.assigned. rewrite filter_nil. simpl. by rewrite app_nil_r.
    + intros t Ht. by apply elem_of_nil in Ht.
  - apply NoDup_cons in Hndts as [Ht_fresh Hndts].
    assert (t ∈ Calc.tenors) as Ht by (apply Hts; left).
    assert (ts ⊆ Calc.tenors) as Hts' by (intros x Hx; apply Hts; by right).
    cbn [foldM]. destruct (Calc.both df t) eqn:Hb.
    + destruct (tenor_step_both df t Ht Hnd Hb) as (b & Hbasis & ->).
      change (Ok ?a ≫= ?f) with (f a). cbv beta.
      set (df1 := frame_setitem df (Calc.output_label t) b).
      destruct (IH df1 Hts' Hndts) as (df' & Hrun & [Hi Hl Ho Hc Hn]).
      { by apply NoDup_labels_setitem. }
      exists df'. split; [exact Hrun|].
      unfold df1 in Hl, Ho, Hc. rewrite assigned_setitem in Hl, Ho, Hc by done.
      assert (Calc.assigned df (t :: ts) = t :: Calc.assigned df ts) as Hassigned.
      { unfold Calc.assigned. by rewrite filter_cons_True. }
      assert (Calc.output_label t ∉ Calc.output_label <$> Calc.assigned df ts) as Hout_fresh.
      { intros (t' & Heq & Ht')%list_elem_of_fmap.
        apply output_label_inj in Heq as <-.
        apply list_elem_of_filter in Ht' as [_ Ht']. done. }
      split.
      * rewrite Hi. apply index_setitem.
      * rewrite Hl, labels_setitem, Hassigned, fmap_cons, filter_cons, <- app_assoc.
        f_equal. unfold in_columns.
        assert (filter (λ l, l ∉ labels df ++
                   (if bool_decide (Calc.output_label t ∈ labels df) then []
                    else [Calc.output_label t]))
                  (Calc.output_label <$> Calc.assigned df ts)
                = filter (λ l, l ∉ labels df) (Calc.output_label <$> Calc.assigned df ts)) as ->.
        { apply filter_ext_in. intros l Hl'. rewrite elem_of_app.
          case_bool_decide; [rewrite elem_of_nil; tauto|].
          rewrite list_elem_of_singleton. split; [tauto|].
          intros Hnl [?| ->]; done. }
        case_bool_decide; by destruct (decide (Calc.output_label t ∉ labels df)).
      * intros l Hl'. rewrite Hassigned, fmap_cons in Hl'.
        apply not_elem_of_cons in Hl' as [Hne Hl'].
        rewrite Ho by done. by apply named_setitem_ne.
      * intros t' Ht'. rewrite Hassigned in Ht'.
        apply elem_of_cons in Ht' as [->|Ht'].
        -- rewrite Hbasis. unfold column. rewrite Ho by done.
           by rewrite named_setitem_eq.
        -- rewrite Hc by done. apply basis_setitem; [done|].
           apply Hts'. by apply list_elem_of_filter in Ht' as [_ ?].
      * done.
    + rewrite tenor_step_skip by done.
      change (Ok ?a ≫= ?f) with (f a). cbv beta.
      destruct (IH df Hts' Hndts Hnd) as (df' & Hrun & [Hi Hl Ho Hc Hn]).
      exists df'. split; [exact Hrun|].
      assert (Calc.assigned df (t :: ts) = Calc.assigned df ts) as Hassigned.
      { unfold Calc.assigned. rewrite filter_cons_False; [done|]. by rewrite Hb. }
      split; rewrite ?Hassigned; done.
Qed.

(** The loop never changes the index, whatever it returns. *)
Lemma tenor_step_index df t df' :
  Calc.tenor_step df t = Ok df' → index df' = index df.
Proof.
  unfold Calc.tenor_step.
  destruct (odict_getitem _ _); cbn [mbind result_bind]; [|raised].
  destruct (_ && _).
  - destruct (frame_getitem df (t +:+ "_Treasury")); cbn [mbind result_bind]; [|raised].
    destruct (frame_getitem df (t +:+ "_SF")); cbn [mbind result_bind]; [|raised].
    intros [= <-]. apply index_setitem.
  - intros [= <-]. done.
Qed.

Lemma foldM_tenor_step_index ts df df' :
  foldM Calc.tenor_step df ts = Ok df' → index df' = index df.
Proof.
  revert df. induction ts as [|t ts IH]; intros df; cbn [foldM].
  - intros [= ->]. done.
  - destruct (Calc.tenor_step df t) as [df1|e] eqn:Hs; cbn [mbind result_bind]; [|raised].
    intros Hrun. rewrite (IH _ Hrun). by apply tenor_step_index in Hs.
Qed.

(** ** The basis column: its values, and the tenors that get none *)

Lemma compute_frame_spec df :
  NoDup (labels df) →
  ∃ df', Calc.compute_frame df = Ok df' ∧ Calc.loop_result Calc.tenors df df'.
Proof. intros Hnd. by apply loop_spec; [|apply NoDup_tenors|]. Qed.

Lemma assigned_iff df t :
  t ∈ Calc.assigned df Calc.tenors ↔ t ∈ Calc.tenors ∧ Calc.both df t = true.
Proof. unfold Calc.assigned. rewrite list_elem_of_filter. tauto. Qed.

Lemma column_length df l v :
  rectangular df → column df l = Some v → length v = length (index df).
Proof.
  intros Hrect Hc%column_elem. unfold rectangular in Hrect.
  rewrite Forall_forall in Hrect. by apply (Hrect _ Hc).
Qed.

(** C1: for a merged table whose columns each carry a label of their own and
    a tenor of the loop whose Treasury column and SF column are both
    there, [compute_treasury_sf_basis] returns, the frame behind its
    argument then has the tenor's basis column, as long as the index, and
    at each date its value is the Treasury value minus the SF value, times
    100, as binary64 arithmetic computes it. *)
Theorem C1_basis_at_every_date (r : ref) (σ : store) (df : DataFrame)
    (tenor : string) (treas sf : list float) :
  objects σ !! r = Some df →
  rectangular df →
  NoDup (labels df) →
  tenor ∈ Calc.tenors →
  column df (tenor +:+ "_Treasury") = Some treas →
  column df (tenor +:+ "_SF") = Some sf →
  ∃ df' b,
    Calc.compute_treasury_sf_basis r σ = Ok (r, update r df' σ) ∧
    index df' = index df ∧
    column df' (Calc.output_label tenor) = Some b ∧
    length b = length (index df) ∧
    ∀ i d, index df !! i = Some d →
      ∃ t s, treas !! i = Some t ∧ sf !! i = Some s ∧
             b !! i = Some ((t - s) * 100)%float.
Proof.
  intros Hr Hrect Hnd Ht Htreas Hsf.
  destruct (compute_frame_spec df Hnd) as (df' & Hrun & [Hi _ _ Hb _]).
  assert (Calc.both df tenor = true) as Hboth.
  { unfold Calc.both. by rewrite (column_in _ _ _ Htreas), (column_in _ _ _ Hsf). }
  pose proof (column_length _ _ _ Hrect Htreas) as Hlt.
  pose proof (column_length _ _ _ Hrect Hsf) as Hls.
  exists df', (series_mul (series_sub treas sf) 100%float).
  split_and!.
  - by rewrite (compute_run _ _ df), Hrun.
  - done.
  - rewrite Hb by (by apply assigned_iff). unfold Calc.basis.
    by rewrite Htreas, Hsf.
  - unfold series_mul, series_sub.
    rewrite length_fmap, length_zip_with. lia.
  - intros i d Hd. apply lookup_lt_Some in Hd.
    destruct (lookup_lt_is_Some_2 treas i) as [t Hti]; [lia|].
    destruct (lookup_lt_is_Some_2 sf i) as [s Hsi]; [lia|].
    exists t, s. split_and!; [done..|].
    unfold series_mul, series_sub.
    by rewrite list_lookup_fmap, lookup_zip_with, Hti, Hsi.
Qed.

Lemma C1_witness :
  ∃ df' b,
    Calc.compute_treasury_sf_basis 0%nat
      (mkStore {[ 0%nat := mkDF [1; 2] [("5Y_Treasury", [4.25; 4.5]%float);
                                        ("5Y_SF", [4; 3.75]%float)] ]} 1%nat)
    = Ok (0%nat, update 0%nat df'
      (mkStore {[ 0%nat := mkDF [1; 2] [("5Y_Treasury", [4.25; 4.5]%float);
                                        ("5Y_SF", [4; 3.75]%float)] ]} 1%nat)) ∧
    index df' = [1; 2] ∧
    column df' (Calc.output_label "5Y") = Some b ∧
    length b = 2%nat ∧
    ∀ i d, [1; 2] !! i = Some d →
      ∃ t s, [4.25; 4.5]%float !! i = Some t ∧ [4; 3.75]%float !! i = Some s ∧
             b !! i = Some ((t - s) * 100)%float.
Proof.
  apply (C1_basis_at_every_date 0%nat _
           (mkDF [1; 2] [("5Y_Treasury", [4.25; 4.5]%float);
                         ("5Y_SF", [4; 3.75]%float)]) "5Y").
  - reflexivity.
  - repeat constructor.
  - apply (bool_decide_unpack _). vm_compute. exact I.
  - apply (bool_decide_unpack _). vm_compute. exact I.
  - reflexivity.
  - reflexivity.
Defined.

(** C4: for a merged table whose columns each carry a label of their own and
    a tenor of the loop whose Treasury column or SF column is missing,
    [compute_treasury_sf_basis] returns without raising and makes no
    column for the tenor: the columns under the tenor's basis label are
    the ones the table had, so a table that had none still has none. *)
Theorem C4_no_column_for_missing_side (r : ref) (σ : store) (df : DataFrame)
    (tenor : string) :
  objects σ !! r = Some df →
  NoDup (labels df) →
  tenor ∈ Calc.tenors →
  tenor +:+ "_Treasury" ∉ labels df ∨ tenor +:+ "_SF" ∉ labels df →
  ∃ df',
    Calc.compute_treasury_sf_basis r σ = Ok (r, update r df' σ) ∧
    named (Calc.output_label tenor) (columns df') =
      named (Calc.output_label tenor) (columns df) ∧
    (Calc.output_label tenor ∉ labels df → Calc.output_label tenor ∉ labels df').
Proof.
  intros Hr Hnd Ht Hmiss.
  destruct (compute_frame_spec df Hnd) as (df' & Hrun & [_ Hl Ho _ _]).
  assert (Calc.both df tenor = false) as Hboth.
  { unfold Calc.both, in_columns. apply andb_false_iff.
    destruct Hmiss; [left|right]; by apply bool_decide_eq_false. }
  assert (Calc.output_label tenor ∉
            Calc.output_label <$> Calc.assigned df Calc.tenors) as Hout.
  { intros (t' & Heq & Ht')%list_elem_of_fmap.
    apply output_label_inj in Heq as <-.
    apply assigned_iff in Ht' as [_ Ht']. congruence. }
  exists df'. split_and!.
  - by rewrite (compute_run _ _ df), Hrun.
  - by apply Ho.
  - intros Hfresh. rewrite Hl, elem_of_app, list_elem_of_filter. tauto.
Qed.

Lemma C4_witness :
  ∃ df',
    Calc.compute_treasury_sf_basis 0%nat
      (mkStore {[ 0%nat := mkDF [1; 2] [("5Y_Treasury", [4.25; 4.5]%float);
                                        ("10Y_SF", [4; 3.75]%float)] ]} 1%nat)
    = Ok (0%nat, update 0%nat df'
      (mkStore {[ 0%nat := mkDF [1; 2] [("5Y_Treasury", [4.25; 4.5]%float);
                                        ("10Y_SF", [4; 3.75]%float)] ]} 1%nat)) ∧
    named (Calc.output_label "5Y") (columns df') =
      named (Calc.output_label "5Y")
        [("5Y_Treasury", [4.25; 4.5]%float); ("10Y_SF", [4; 3.75]%float)] ∧
    (Calc.output_label "5Y" ∉ ["5Y_Treasury"; "10Y_SF"] →
     Calc.output_label "5Y" ∉ labels df').
Proof.
  apply (C4_no_column_for_missing_side 0%nat _
           (mkDF [1; 2] [("5Y_Treasury", [4.25; 4.5]%float);
                         ("10Y_SF", [4; 3.75]%float)]) "5Y").
  - reflexivity.
  - apply (bool_decide_unpack _). vm_compute. exact I.
  - apply (bool_decide_unpack _). vm_compute. exact I.
  - right. apply (bool_decide_unpack _). vm_compute. exact I.
Defined.

(** ** The frame effect of [compute_treasury_sf_basis] *)

Lemma named_elem cols l v :
  NoDup cols.*1 → (l, v) ∈ cols → named l cols = [(l, v)].
Proof.
  intros Hnd Hin.
  destruct (named_unique l cols Hnd) as [v0 Hv0].
  { apply list_elem_of_fmap. by exists (l, v). }
  assert ((l, v) ∈ named l cols) as Hn by (by apply list_elem_of_filter).
  rewrite Hv0 in Hn. apply list_elem_of_singleton in Hn. by rewrite Hv0, Hn.
Qed.

Lemma filter_all {A : Type} (P : A → Prop) `{!∀ x, Decision (P x)} (l : list A) :
  (∀ x, x ∈ l → P x) → filter P l = l.
Proof.
  induction l as [|a l IH]; intros Hall; [done|].
  rewrite filter_cons_True by (apply Hall; left).
  f_equal. apply IH. intros x Hx. apply Hall. by right.
Qed.

(** Two column lists with the same labels at the same places, none
    repeated, that agree label by label are one list. *)
Lemma columns_agree (cols cols' : list (string * list float)) :
  cols.*1 = cols'.*1 → NoDup cols.*1 →
  (∀ l, l ∈ cols.*1 → named l cols' = named l cols) →
  cols' = cols.
Proof.
  intros Hl Hnd Hn. apply list_eq. intros i.
  assert (NoDup cols'.*1) as Hnd' by (by rewrite <- Hl).
  destruct (cols !! i) as [[l v]|] eqn:Hi.
  - assert (cols'.*1 !! i = Some l) as Hi'.
    { rewrite <- Hl, list_lookup_fmap, Hi. done. }
    rewrite list_lookup_fmap in Hi'.
    destruct (cols' !! i) as [[l' v']|] eqn:Hc'; [|done].
    simpl in Hi'. injection Hi' as ->.
    assert (named l cols' = named l cols) as Heq.
    { apply Hn, list_elem_of_fmap. exists (l, v). split; [done|].
      by eapply list_elem_of_lookup_2. }
    rewrite (named_elem cols l v), (named_elem cols' l v') in Heq;
      [congruence|done|by eapply list_elem_of_lookup_2|done|by eapply list_elem_of_lookup_2].
  - apply lookup_ge_None in Hi. apply lookup_ge_None.
    rewrite <- (length_fmap fst), <- Hl, length_fmap. done.
Qed.

(** C9, as amended: [compute_treasury_sf_basis] hands back the reference
    it was given and changes the frame behind it, nothing else in the
    store.  The index stays.  Every label stays where it was, and the
    basis labels of the tenors with both columns that were not there
    follow, in the order of the loop.  A column whose label is not such a
    basis label keeps its values; the basis label of a tenor with both
    columns holds that tenor's basis, whether the column was there before
    or not.  When no such basis label was there, the columns are the old
    ones followed by the new ones. *)
Theorem C9_assigns_columns_in_place (r : ref) (σ : store) (df : DataFrame) :
  objects σ !! r = Some df →
  NoDup (labels df) →
  ∃ df',
    Calc.compute_treasury_sf_basis r σ = Ok (r, update r df' σ) ∧
    (∀ r', r' ≠ r → objects (update r df' σ) !! r' = objects σ !! r') ∧
    index df' = index df ∧
    labels df' =
      labels df ++
      filter (λ l, l ∉ labels df)
             (Calc.output_label <$> Calc.assigned df Calc.tenors) ∧
    (∀ l, l ∉ Calc.output_label <$> Calc.assigned df Calc.tenors →
          named l (columns df') = named l (columns df)) ∧
    (∀ t, t ∈ Calc.tenors → Calc.both df t = true →
          ∃ b, Calc.basis df t = Some b ∧
               column df' (Calc.output_label t) = Some b) ∧
    ((∀ t, t ∈ Calc.tenors → Calc.both df t = true →
           Calc.output_label t ∉ labels df) →
     ∃ added,
       columns df' = columns df ++ added ∧
       added.*1 = Calc.output_label <$> Calc.assigned df Calc.tenors).
Proof.
  intros Hr Hnd.
  destruct (compute_frame_spec df Hnd) as (df' & Hrun & [Hi Hl Ho Hb Hnd']).
  exists df'. split_and!.
  - by rewrite (compute_run _ _ df), Hrun.
  - intros r' Hne. by apply update_lookup_ne.
  - done.
  - done.
  - done.
  - intros t Ht Hboth.
    destruct (basis_both df t Hnd Hboth) as (treas & sf & _ & _ & _ & _ & Hbasis).
    eexists. split; [exact Hbasis|]. rewrite <- Hbasis. apply Hb.
    by apply assigned_iff.
  - intros Hfresh.
    assert (filter (λ l, l ∉ labels df)
              (Calc.output_label <$> Calc.assigned df Calc.tenors)
            = Calc.output_label <$> Calc.assigned df Calc.tenors) as Hall.
    { apply filter_all. intros l (t & -> & Ht)%list_elem_of_fmap.
      apply assigned_iff in Ht as [Ht Hboth]. by apply Hfresh. }
    rewrite Hall in Hl.
    exists (drop (length (columns df)) (columns df')).
    assert (take (length (columns df)) (columns df') = columns df) as Htake.
    { apply columns_agree.
      - rewrite fmap_take. fold (labels df'). rewrite Hl.
        rewrite take_app_length'; [done|]. unfold labels. by rewrite length_fmap.
      - exact Hnd.
      - intros l Hlin.
        assert (named l (columns df') = named l (columns df)) as Hsame.
        { apply Ho. intros (t & -> & Ht)%list_elem_of_fmap.
          apply assigned_iff in Ht as [Ht Hboth]. by apply (Hfresh t). }
        rewrite <- Hsame.
        rewrite <- (take_drop (length (columns df)) (columns df')) at 2.
        unfold named. rewrite filter_app.
        fold (named l (drop (length (columns df)) (columns df'))).
        rewrite (named_not_in l (drop _ _)); [by rewrite app_nil_r|].
        rewrite fmap_drop. fold (labels df'). rewrite Hl.
        rewrite drop_app_length'; [|unfold labels; by rewrite length_fmap].
        intros (t & -> & Ht)%list_elem_of_fmap.
        apply assigned_iff in Ht as [Ht Hboth]. by apply (Hfresh t). }
    split.
    + rewrite <- Htake at 1. by rewrite take_drop.
    + rewrite fmap_drop. fold (labels df'). rewrite Hl.
      rewrite drop_app_length'; [done|]. unfold labels. by rewrite length_fmap.
Qed.

Lemma C9_witness :
  ∃ df',
    Calc.compute_treasury_sf_basis 0%nat
      (mkStore {[ 0%nat := mkDF [1; 2] [("5Y_Treasury", [4.25; 4.5]%float);
                                        ("5Y_SF", [4; 3.75]%float)] ]} 1%nat)
    = Ok (0%nat, update 0%nat df'
      (mkStore {[ 0%nat := mkDF [1; 2] [("5Y_Treasury", [4.25; 4.5]%float);
                                        ("5Y_SF", [4; 3.75]%float)] ]} 1%nat)) ∧
    columns df' =
      [("5Y_Treasury", [4.25; 4.5]%float); ("5Y_SF", [4; 3.75]%float);
       ("Treasury_SF_5Y", [25; 75]%float)].
Proof.
  destruct (C9_assigns_columns_in_place 0%nat
              (mkStore {[ 0%nat := mkDF [1; 2] [("5Y_Treasury", [4.25; 4.5]%float);
                                                ("5Y_SF", [4; 3.75]%float)] ]} 1%nat)
              (mkDF [1; 2] [("5Y_Treasury", [4.25; 4.5]%float);
                            ("5Y_SF", [4; 3.75]%float)]))
    as (df' & Hrun & _).
  - reflexivity.
  - apply (bool_decide_unpack _). vm_compute. exact I.
  - exists df'. split; [exact Hrun|].
    vm_compute in Hrun. injection Hrun as <-. reflexivity.
Defined.

(** C9, as stated, fails: a frame that already has the basis column of a
    tenor with both columns comes back with that column overwritten, so a
    column that was there before the call did not keep its values. *)
Lemma C9_counterexample :
  ∃ df',
    Calc.compute_treasury_sf_basis 0%nat
      (mkStore {[ 0%nat := mkDF [1] [("2Y_Treasury", [1]%float);
                                     ("2Y_SF", [0.5]%float);
                                     ("Treasury_SF_2Y", [7]%float)] ]} 1%nat)
    = Ok (0%nat, mkStore {[ 0%nat := df' ]} 1%nat) ∧
    columns df' = [("2Y_Treasury", [1]%float); ("2Y_SF", [0.5]%float);
                   ("Treasury_SF_2Y", [50]%float)] ∧
    ¬ (∀ c, c ∈ [("2Y_Treasury", [1]%float); ("2Y_SF", [0.5]%float);
                 ("Treasury_SF_2Y", [7]%float)] → c ∈ columns df').
Proof.
  exists (mkDF [1] [("2Y_Treasury", [1]%float); ("2Y_SF", [0.5]%float);
                    ("Treasury_SF_2Y", [50]%float)]).
  split_and!.
  - vm_compute. reflexivity.
  - reflexivity.
  - intros Hkeep.
    specialize (Hkeep ("Treasury_SF_2Y", [7]%float)).
    simpl in Hkeep.
    assert (("Treasury_SF_2Y", [7%float]) ∈
            [("2Y_Treasury", [1%float]); ("2Y_SF", [0.5%float]);
             ("Treasury_SF_2Y", [50%float])]) as Hin.
    { apply Hkeep. do 2 right. left. }
    clear Hkeep.
    apply elem_of_cons in Hin as [Hin|Hin]; [discriminate Hin|].
    apply elem_of_cons in Hin as [Hin|Hin]; [discriminate Hin|].
    apply elem_of_cons in Hin as [Hin|Hin]; [|by apply elem_of_nil in Hin].
    apply (f_equal (λ c : string * list float,
                      match c.2 with [v] => PrimFloat.eqb v 7 | _ => false end)) in Hin.
    vm_compute in Hin. discriminate Hin.
Qed.

(** ** Forward fill *)

Lemma length_ffill_from last l : length (ffill_from last l) = length l.
Proof.
  revert last. induction l as [|x l IH]; intros last; [done|].
  simpl. destruct (is_nan x); simpl; by rewrite IH.
Qed.

(** A value that is there is never changed. *)
Lemma ffill_from_valid last l i x :
  l !! i = Some x → is_nan x = false → ffill_from last l !! i = Some x.
Proof.
  revert last i. induction l as [|y l IH]; intros last i Hi Hx; [done|].
  destruct i as [|i]; simpl in *.
  - injection Hi as ->. by rewrite Hx.
  - destruct (is_nan y); simpl; by apply IH.
Qed.

(** Before the first value nothing is filled. *)
Lemma ffill_leading l i :
  (∀ j x, (j < i)%nat → l !! j = Some x → is_nan x = true) →
  ffill_from None l !! i = l !! i.
Proof.
  revert i. induction l as [|y l IH]; intros i Hlead; [done|].
  destruct i as [|i]; simpl.
  - by destruct (is_nan y).
  - rewrite (Hlead 0%nat y) by (done || lia). simpl.
    apply IH. intros j x Hj Hx. apply (Hlead (S j)); [lia|done].
Qed.

(** A run of missing cells below a value [v] takes [v], however long. *)
Lemma ffill_from_run v l i :
  (∀ k, (k ≤ i)%nat → ∃ y, l !! k = Some y ∧ is_nan y = true) →
  ffill_from (Some v) l !! i = Some v.
Proof.
  revert i. induction l as [|y l IH]; intros i Hrun.
  - destruct (Hrun 0%nat) as (y & Hy & _); [lia|done].
  - destruct (Hrun 0%nat) as (y' & Hy' & Hnan); [lia|].
    simpl in Hy'. injection Hy' as <-. simpl. rewrite Hnan.
    destruct i as [|i]; [done|]. simpl.
    apply IH. intros k Hk. apply (Hrun (S k)). lia.
Qed.

Lemma ffill_from_gap last l j i v :
  (j < i)%nat → l !! j = Some v → is_nan v = false →
  (∀ k, (j < k ≤ i)%nat → ∃ y, l !! k = Some y ∧ is_nan y = true) →
  ffill_from last l !! i = Some v.
Proof.
  revert last j i. induction l as [|y l IH]; intros last j i Hji Hj Hv Hgap; [done|].
  destruct i as [|i]; [lia|].
  destruct j as [|j]; simpl in Hj.
  - injection Hj as ->. simpl. rewrite Hv. simpl.
    apply ffill_from_run. intros k Hk. apply (Hgap (S k)). lia.
  - simpl. destruct (is_nan y); simpl.
    + apply (IH _ j); [lia|done..|]. intros k Hk. apply (Hgap (S k)). lia.
    + apply (IH _ j); [lia|done..|]. intros k Hk. apply (Hgap (S k)). lia.
Qed.

(** ** Blanks and words *)

Lemma append_cons (c : ascii) (a b : string) : String c a +:+ b = String c (a +:+ b).
Proof. reflexivity. Qed.

Lemma append_assoc (a b c : string) : (a +:+ b) +:+ c = a +:+ (b +:+ c).
Proof. induction a as [|x a IH]; [done|]. rewrite !append_cons. by f_equal. Qed.

Lemma append_nil_r (a : string) : a +:+ "" = a.
Proof. induction a as [|x a IH]; [done|]. rewrite append_cons. by f_equal. Qed.

Lemma prefix_cons a s1 b s2 :
  String.prefix (String a s1) (String b s2) = true ↔ a = b ∧ String.prefix s1 s2 = true.
Proof.
  simpl. destruct (ascii_dec a b) as [->|Hne]; [tauto|].
  split; [done|]. by intros [? _].
Qed.

Lemma prefix_refl (s : string) : String.prefix s s = true.
Proof. induction s as [|c s IH]; [done|]. by apply prefix_cons. Qed.

(** A prefix of a concatenation is a prefix of its first part, or goes on
    into the second. *)
Lemma prefix_app (v x y : string) :
  String.prefix v (x +:+ y) = true →
  String.prefix v x = true ∨ ∃ v2, v = x +:+ v2 ∧ String.prefix v2 y = true.
Proof.
  revert v. induction x as [|c x IH]; intros v Hv.
  - right. by exists v.
  - destruct v as [|a v]; [by left|].
    rewrite append_cons in Hv. apply prefix_cons in Hv as [-> Hv].
    destruct (IH v Hv) as [Hx|(v2 & -> & Hy)].
    + left. by apply prefix_cons.
    + right. by exists v2.
Qed.

Lemma all_bytes_app p (a b : string) :
  all_bytes p (a +:+ b) = all_bytes p a && all_bytes p b.
Proof.
  induction a as [|c a IH]; [done|].
  rewrite append_cons. cbn [all_bytes]. by rewrite IH, andb_assoc.
Qed.

(** A blank starts with a byte that continues no code point, and the
    bytes after it all do. *)
Lemma whitespace_shape w :
  w ∈ whitespace →
  ∃ c t, w = String c t ∧ continuation c = false ∧ all_bytes continuation t = true.
Proof.
  intros Hw.
  repeat (apply elem_of_cons in Hw as [->|Hw]; [by eexists _, _|]).
  by apply elem_of_nil in Hw.
Qed.

Lemma blank_length_0 s :
  blank_length s = 0%nat ↔ ∀ w, w ∈ whitespace → String.prefix w s = false.
Proof.
  unfold blank_length.
  destruct (filter _ whitespace) as [|w ws] eqn:Hf.
  - split; [|done]. intros _ w Hw.
    destruct (String.prefix w s) eqn:Hp; [|done].
    assert (w ∈ filter (λ w, String.prefix w s = true) whitespace) as Hin
      by (by apply list_elem_of_filter).
    rewrite Hf in Hin. by apply elem_of_nil in Hin.
  - assert (w ∈ filter (λ w, String.prefix w s = true) whitespace) as Hin
      by (rewrite Hf; left).
    apply list_elem_of_filter in Hin as [Hp Hw].
    split.
    + destruct (whitespace_shape w Hw) as (c & t & -> & _). done.
    + intros Hall. rewrite Hall in Hp; done.
Qed.

Lemma blank_length_S s k :
  blank_length s = S k →
  ∃ c t, String c t ∈ whitespace ∧ String.prefix (String c t) s = true ∧
         String.length t = k.
Proof.
  unfold blank_length.
  destruct (filter _ whitespace) as [|w ws] eqn:Hf; [done|].
  assert (w ∈ filter (λ w, String.prefix w s = true) whitespace) as Hin
    by (rewrite Hf; left).
  apply list_elem_of_filter in Hin as [Hp Hw].
  destruct (whitespace_shape w Hw) as (c & t & -> & _).
  cbn. intros [= <-]. by exists c, t.
Qed.

Lemma prefix_append (a b : string) : String.prefix a (a +:+ b) = true.
Proof.
  induction a as [|x a IH]; [by destruct b|].
  rewrite append_cons. by apply prefix_cons.
Qed.

(** No blank is the start of another. *)
Lemma whitespace_prefix_free w b :
  w ∈ whitespace → b ∈ whitespace → String.prefix w b = true → w = b.
Proof.
  assert (Forall (λ w, Forall (λ b, String.prefix w b = true → w = b) whitespace)
                 whitespace) as Hall.
  { apply (bool_decide_unpack _). vm_compute. exact I. }
  rewrite Forall_forall in Hall. intros Hw Hb.
  specialize (Hall w Hw). rewrite Forall_forall in Hall. by apply Hall.
Qed.

(** A string that starts with a blank starts with that one only. *)
Lemma blank_length_blank b s :
  b ∈ whitespace → blank_length (b +:+ s) = String.length b.
Proof.
  intros Hb. unfold blank_length.
  destruct (filter _ whitespace) as [|w ws] eqn:Hf.
  - assert (b ∈ filter (λ w, String.prefix w (b +:+ s) = true) whitespace) as Hin
      by (apply list_elem_of_filter; split; [apply prefix_append|done]).
    rewrite Hf in Hin. by apply elem_of_nil in Hin.
  - assert (w ∈ filter (λ w, String.prefix w (b +:+ s) = true) whitespace) as Hin
      by (rewrite Hf; left).
    apply list_elem_of_filter in Hin as [Hp Hw].
    apply prefix_app in Hp as [Hp|(v2 & -> & _)].
    + by rewrite (whitespace_prefix_free w b).
    + by rewrite (whitespace_prefix_free b (b +:+ v2) Hb Hw (prefix_append _ _)) at 2.
Qed.

Lemma split_from_cur skip cur s : cur ≠ "" → split_from skip cur s ≠ [].
Proof.
  revert skip cur. induction s as [|c s IH]; intros skip cur Hcur; cbn [split_from].
  - by rewrite bool_decide_eq_false_2.
  - destruct skip as [|k]; [|by apply IH].
    destruct (blank_length _).
    + apply IH. by destruct cur.
    + by rewrite bool_decide_eq_false_2.
Qed.

Lemma split_skip x cur s :
  split_from (String.length x) cur (x +:+ s) = split_from 0 cur s.
Proof. induction x as [|c x IH]; [done|]. rewrite append_cons. exact IH. Qed.

(** At a blank the run being read ends. *)
Lemma split_blank b cur s :
  b ∈ whitespace →
  split_from 0 cur (b +:+ s) =
    (if bool_decide (cur = "") then [] else [cur]) ++ split_from 0 "" s.
Proof.
  intros Hb. pose proof (blank_length_blank b s Hb) as Hlen.
  destruct (whitespace_shape b Hb) as (c & t & -> & _).
  rewrite append_cons in *. cbn [split_from]. rewrite Hlen. cbn [String.length].
  rewrite split_skip. by case_bool_decide.
Qed.

(** A blank does not start inside a word that holds none, even when a
    blank follows the word. *)
Lemma no_straddle c w b s :
  blank_length (String c w) = 0%nat → b ∈ whitespace →
  blank_length (String c (w +:+ b +:+ s)) = 0%nat.
Proof.
  rewrite !blank_length_0. intros Hw Hb v Hv.
  destruct (String.prefix v (String c (w +:+ b +:+ s))) eqn:Hp; [|done].
  rewrite <- append_cons in Hp.
  apply prefix_app in Hp as [Hp|(v2 & -> & Hp)]; [by rewrite Hw in Hp|].
  destruct v2 as [|a v2].
  { rewrite append_nil_r in Hv. apply Hw in Hv. by rewrite prefix_refl in Hv. }
  destruct (whitespace_shape b Hb) as (a' & b' & -> & Ha' & _).
  rewrite append_cons in Hp. apply prefix_cons in Hp as [-> _].
  destruct (whitespace_shape _ Hv) as (c' & t & Heq & _ & Ht).
  rewrite append_cons in Heq. injection Heq as <- <-.
  rewrite all_bytes_app in Ht. cbn [all_bytes] in Ht.
  rewrite Ha' in Ht. by rewrite andb_false_r in Ht.
Qed.

(** A word without a blank is read in one go. *)
Lemma split_from_word cur w b s :
  no_blank w = true → b ∈ whitespace →
  split_from 0 cur (w +:+ b +:+ s) = split_from 0 (cur +:+ w) (b +:+ s).
Proof.
  intros Hw Hb. revert cur. induction w as [|c w IH]; intros cur.
  - by rewrite append_nil_r.
  - cbn [no_blank] in Hw. apply andb_true_iff in Hw as [Hc Hw].
    apply bool_decide_eq_true in Hc.
    rewrite append_cons. cbn [split_from].
    rewrite (no_straddle c w b s Hc Hb), IH by done.
    by rewrite append_assoc.
Qed.

Lemma split_from_end cur w :
  no_blank w = true →
  split_from 0 cur w = if bool_decide (cur +:+ w = "") then [] else [cur +:+ w].
Proof.
  revert cur. induction w as [|c w IH]; intros cur Hw.
  - by rewrite append_nil_r.
  - cbn [no_blank] in Hw. apply andb_true_iff in Hw as [Hc Hw].
    apply bool_decide_eq_true in Hc. cbn [split_from].
    rewrite Hc, IH by done. by rewrite append_assoc.
Qed.

Lemma split_first_word w b rest :
  w ≠ "" → no_blank w = true → b ∈ whitespace →
  split (w +:+ b +:+ rest) = w :: split rest.
Proof.
  intros Hne Hw Hb. unfold split. rewrite split_from_word, split_blank by done.
  by rewrite bool_decide_eq_false_2.
Qed.

Lemma split_one_word w : w ≠ "" → no_blank w = true → split w = [w].
Proof.
  intros Hne Hw. unfold split. rewrite split_from_end by done.
  by rewrite bool_decide_eq_false_2.
Qed.

(** ** [clean_columns] never raises *)

(** A string that holds a word starting with a byte that is no part of a
    blank splits into at least one piece.  [x] is what is left to pass of
    the blank that was met. *)
Lemma split_from_contains c0 sub s skip cur x :
  continuation c0 = false →
  (∀ t, String c0 t ∉ whitespace) →
  all_bytes continuation x = true → String.length x = skip →
  String.prefix x s = true →
  contains (String c0 sub) s = true → split_from skip cur s ≠ [].
Proof.
  intros Hc0 Hhead. revert skip cur x.
  induction s as [|c s IH]; intros skip cur x Hx Hlen Hpre Hin; [done|].
  cbn [contains] in Hin. cbn [split_from]. destruct skip as [|k].
  - destruct (blank_length (String c s)) as [|k] eqn:Hb.
    { apply split_from_cur. by destruct cur. }
    apply blank_length_S in Hb as (c1 & t & Hw & Hp & Ht).
    apply prefix_cons in Hp as [-> Hp].
    destruct (whitespace_shape _ Hw) as (? & ? & [= <- <-] & _ & Hcont).
    case_bool_decide; [|done]. apply (IH k "" t); [done..|].
    apply orb_true_iff in Hin as [Hin|Hin]; [|done].
    apply prefix_cons in Hin as [-> _]. by apply Hhead in Hw.
  - destruct x as [|a x]; [done|]. apply prefix_cons in Hpre as [-> Hpre].
    cbn [all_bytes] in Hx. apply andb_true_iff in Hx as [Hc Hx].
    apply (IH k cur x); [done|by injection Hlen|done|].
    apply orb_true_iff in Hin as [Hin|Hin]; [|done].
    apply prefix_cons in Hin as [-> _]. congruence.
Qed.

Lemma underscore_no_blank t : String "_" t ∉ whitespace.
Proof.
  intros Hw.
  repeat (apply elem_of_cons in Hw as [Hw|Hw]; [discriminate Hw|]).
  by apply elem_of_nil in Hw.
Qed.

Lemma split_PX_LAST col :
  contains "_PX_LAST" col = true → ∃ ticker rest, split col = ticker :: rest.
Proof.
  intros Hin. unfold split.
  destruct (split_from 0 "" col) as [|ticker rest] eqn:Hs; [|by eauto].
  destruct (split_from_contains "_" "PX_LAST" col 0 "" "" eq_refl underscore_no_blank
              eq_refl eq_refl) with (2 := Hin) (3 := Hs).
  by destruct col.
Qed.

Lemma clean_column_spec mapping suffix new_cols col :
  Calc.clean_column mapping suffix new_cols col =
    Ok (match Calc.new_name mapping suffix col with
        | Some v => <[col := v]> new_cols
        | None => new_cols
        end).
Proof.
  unfold Calc.clean_column, Calc.new_name.
  destruct (contains "_PX_LAST" col) eqn:Hin; [|done].
  destruct (split_PX_LAST col Hin) as (ticker & rest & ->).
  unfold list_getitem. cbn [lookup list_lookup mbind result_bind].
  unfold dict_contains, dict_getitem.
  destruct (mapping !! ticker) as [tenor|] eqn:Hm.
  - by rewrite bool_decide_eq_true_2.
  - by rewrite bool_decide_eq_false_2 by (by intros [? [=]]).
Qed.

Lemma clean_label_new_name mapping suffix col :
  Calc.clean_label mapping suffix col = default col (Calc.new_name mapping suffix col).
Proof.
  unfold Calc.clean_label, Calc.new_name.
  destruct (contains _ _); [|done]. destruct (split col); [done|].
  by destruct (mapping !! _).
Qed.

Lemma clean_loop_spec mapping suffix ls new_cols :
  ∃ new_cols',
    foldM (Calc.clean_column mapping suffix) new_cols ls = Ok new_cols' ∧
    ∀ l, new_cols' !! l =
         match (if bool_decide (l ∈ ls) then Calc.new_name mapping suffix l else None) with
         | Some v => Some v
         | None => new_cols !! l
         end.
Proof.
  revert new_cols. induction ls as [|col ls IH]; intros new_cols.
  - exists new_cols. split; [done|]. intros l.
    by rewrite bool_decide_eq_false_2 by apply not_elem_of_nil.
  - cbn [foldM]. rewrite clean_column_spec. cbn [mbind result_bind].
    destruct (IH (match Calc.new_name mapping suffix col with
                  | Some v => <[col := v]> new_cols
                  | None => new_cols
                  end)) as (nc & Hrun & Hnc).
    exists nc. split; [exact Hrun|]. intros l. rewrite Hnc.
    destruct (decide (l ∈ ls)) as [Hin|Hnin].
    + rewrite !bool_decide_eq_true_2 by (done || by right).
      destruct (Calc.new_name mapping suffix l) as [v|] eqn:Hl; [done|].
      destruct (Calc.new_name mapping suffix col) as [v|] eqn:Hcol; [|done].
      rewrite lookup_insert_ne; [done|]. intros <-. congruence.
    + rewrite (bool_decide_eq_false_2 (l ∈ ls)) by done.
      destruct (decide (l = col)) as [->|Hne].
      * rewrite bool_decide_eq_true_2 by left.
        destruct (Calc.new_name mapping suffix col) as [v|]; [|done].
        by rewrite lookup_insert_eq.
      * rewrite bool_decide_eq_false_2
          by (intros [?|?]%elem_of_cons; done).
        destruct (Calc.new_name mapping suffix col) as [v|]; [|done].
        by rewrite lookup_insert_ne.
Qed.

(** [clean_columns] returns for every frame, with each label renamed by
    [Calc.clean_label]: an unmapped ticker is no [KeyError], and a label
    with no ticker in it no [IndexError]. *)
Lemma clean_columns_spec df mapping suffix :
  Calc.clean_columns df mapping suffix =
    Ok (mkDF (index df)
          ((λ c, (Calc.clean_label mapping suffix c.1, c.2)) <$> columns df)).
Proof.
  unfold Calc.clean_columns.
  destruct (clean_loop_spec mapping suffix (labels df) ∅) as (nc & -> & Hnc).
  cbn [mbind result_bind]. unfold rename. do 2 f_equal.
  apply list_fmap_ext. intros i c Hc. f_equal.
  rewrite clean_label_new_name, Hnc, lookup_empty.
  rewrite bool_decide_eq_true_2.
  - by destruct (Calc.new_name mapping suffix c.1).
  - apply list_elem_of_fmap. exists c. split; [done|].
    by eapply list_elem_of_lookup_2.
Qed.

Lemma prepare_data_spec t s :
  Calc.prepare_data t s =
    merge_inner (Calc.cleaned t Calc.TREASURY_MAPPING "Treasury")
                (Calc.cleaned s Calc.SF_MAPPING "SF").
Proof.
  unfold Calc.prepare_data. rewrite !clean_columns_spec.
  cbn [mbind result_bind]. unfold Calc.cleaned, Calc.set_index_if_present, Calc.dates.
  by destruct (Calc.date_column t), (Calc.date_column s).
Qed.

(** ** The inner join *)

Lemma find_all_elem k keys j p : p ∈ find_all k keys j → k ∈ keys.
Proof.
  revert j. induction keys as [|k' keys IH]; intros j; simpl.
  - by intros ?%elem_of_nil.
  - case_bool_decide as Hk.
    + intros _. subst. left.
    + intros Hp. right. by eapply IH.
Qed.


Lemma find_all_not_nil k keys j : k ∈ keys → find_all k keys j ≠ [].
Proof.
  revert j. induction keys as [|k' keys IH]; intros j Hk.
  - by apply elem_of_nil in Hk.
  - simpl. case_bool_decide as Hk'; [done|].
    apply IH. apply elem_of_cons in Hk as [->|Hk]; done.
Qed.

(** The keys of the joined rows are the keys found on both sides. *)
Lemma join_rows_keys lkeys rkeys i k :
  k ∈ (join_rows lkeys rkeys i).*1 ↔ k ∈ lkeys ∧ k ∈ rkeys.
Proof.
  revert i. induction lkeys as [|k0 lkeys IH]; intros i; simpl.
  - rewrite !elem_of_nil. tauto.
  - rewrite fmap_app, elem_of_app, IH, elem_of_cons, <- list_fmap_compose.
    split.
    + intros [Hk|[Hl Hr]]; [|tauto].
      apply list_elem_of_fmap in Hk as (j & -> & Hj). simpl.
      split; [by left|]. by eapply find_all_elem.
    + intros [[->|Hl] Hr]; [|tauto]. left.
      destruct (find_all k0 rkeys 0) as [|j js] eqn:Hf.
      * by apply find_all_not_nil in Hf.
      * simpl. left.
Qed.


Lemma merge_inner_index left right m :
  merge_inner left right = Ok m →
  index m = (join_rows (index left) (index right) 0).*1.
Proof.
  unfold merge_inner. destruct (_ || _); [raised|]. by intros [= <-].
Qed.

(** ** [calculate_treasury_sf_basis] on the store and on frames *)

(** The part of [basis_before_ffill] after the cut at the end date. *)
Lemma basis_after_cut_run r σ df :
  objects σ !! r = Some df →
  match (df' ← Calc.compute_frame df;
         frame_select df' (filter (λ col, col ∈ labels df')
                                  (odict_values Calc.OUTPUT_COLUMNS))) with
  | Ok picked =>
      ∃ r' σ',
        (df_merged ← Calc.compute_treasury_sf_basis r;
         cols ← df_columns df_merged;
         let basis_cols := filter (λ col, col ∈ cols)
                                  (odict_values Calc.OUTPUT_COLUMNS) in
         df ← read df_merged;
         picked ← lift (frame_select df basis_cols);
         new_frame picked) σ = Ok (r', σ') ∧
        objects σ' !! r' = Some picked
  | Raise x =>
        (df_merged ← Calc.compute_treasury_sf_basis r;
         cols ← df_columns df_merged;
         let basis_cols := filter (λ col, col ∈ cols)
                                  (odict_values Calc.OUTPUT_COLUMNS) in
         df ← read df_merged;
         picked ← lift (frame_select df basis_cols);
         new_frame picked) σ = Raise x
  end.
Proof.
  intros Hr. rewrite bind_run, (compute_run _ _ df) by done.
  destruct (Calc.compute_frame df) as [df'|x]; cbn [mbind result_bind]; [|done].
  cbn [fst snd].
  assert (objects (update r df' σ) !! r = Some df') as Hr' by apply update_lookup.
  rewrite (bind_df_columns _ df') by done. cbv zeta.
  rewrite (bind_read _ df'), bind_lift by done.
  destruct (frame_select df' _) as [picked|x]; [|done].
  eexists _, _. split; [reflexivity|]. apply lookup_insert_eq.
Qed.

Lemma basis_before_ffill_run e t s σ :
  match Calc.basis_frame e t s with
  | Ok df => ∃ r σ', Calc.basis_before_ffill e t s σ = Ok (r, σ') ∧
                     objects σ' !! r = Some df
  | Raise x => Calc.basis_before_ffill e t s σ = Raise x
  end.
Proof.
  unfold Calc.basis_frame, Calc.basis_before_ffill. rewrite bind_lift.
  destruct (Calc.prepare_data t s) as [merged|x]; cbn [mbind result_bind]; [|done].
  rewrite bind_new_frame.
  set (σ1 := mkStore (<[next_ref σ := merged]> (objects σ)) (S (next_ref σ))).
  assert (objects σ1 !! next_ref σ = Some merged) as H1 by apply lookup_insert_eq.
  destruct e as [date|].
  - rewrite bind_run, (bind_read _ merged), bind_lift by done.
    destruct (frame_loc merged None (Some date)) as [cut|x];
      cbn [mbind result_bind]; [|done].
    unfold new_frame at 1. cbn [fst snd].
    apply basis_after_cut_run. apply lookup_insert_eq.
  - rewrite bind_ret. by apply basis_after_cut_run.
Qed.

Lemma basis_before_ffill_returned e t s :
  returned (Calc.basis_before_ffill e t s) = Calc.basis_frame e t s.
Proof.
  unfold returned.
  pose proof (basis_before_ffill_run e t s empty_store) as Hrun.
  destruct (Calc.basis_frame e t s) as [df|x].
  - destruct Hrun as (r & σ' & -> & Hr). cbn [fst snd]. by rewrite Hr.
  - by rewrite Hrun.
Qed.

(** The call returns the forward fill of the frame it built. *)
Lemma calculate_returned e t s :
  returned (Calc.calculate_treasury_sf_basis e t s) =
    (df ← Calc.basis_frame e t s; Ok (ffill df)).
Proof.
  unfold returned, Calc.calculate_treasury_sf_basis. rewrite bind_run.
  pose proof (basis_before_ffill_run e t s empty_store) as Hrun.
  destruct (Calc.basis_frame e t s) as [df|x]; cbn [mbind result_bind].
  - destruct Hrun as (r & σ' & -> & Hr). cbn [fst snd].
    rewrite (bind_read _ df) by done. unfold new_frame. cbn [fst snd objects].
    by rewrite lookup_insert_eq.
  - by rewrite Hrun.
Qed.

(** ** The dates of the merged table and of the result *)

Lemma prepare_data_index t s merged :
  Calc.prepare_data t s = Ok merged →
  index merged = (join_rows (Calc.dates t) (Calc.dates s) 0).*1.
Proof. rewrite prepare_data_spec. apply merge_inner_index. Qed.

Lemma slice_subseteq {A : Type} lo hi (l : list A) : slice lo hi l ⊆ l.
Proof.
  unfold slice. intros x Hx. apply subseteq_take in Hx.
  by eapply subseteq_drop.
Qed.

Lemma frame_loc_index df start stop cut :
  frame_loc df start stop = Ok cut → index cut ⊆ index df.
Proof.
  unfold frame_loc. destruct (slice_locs _ _ _) as [b|x];
    cbn [mbind result_bind]; [|raised].
  intros [= <-]. apply slice_subseteq.
Qed.

Lemma frame_select_index df names picked :
  frame_select df names = Ok picked → index picked = index df.
Proof. unfold frame_select. destruct (forallb _ _); [|raised]. by intros [= <-]. Qed.

(** The dates of the frame built before the forward fill are dates of the
    merged table. *)
Lemma basis_frame_index e t s out :
  Calc.basis_frame e t s = Ok out →
  ∃ merged, Calc.prepare_data t s = Ok merged ∧ index out ⊆ index merged.
Proof.
  unfold Calc.basis_frame.
  destruct (Calc.prepare_data t s) as [merged|x]; cbn [mbind result_bind]; [|raised].
  destruct (match e with Some _ => _ | None => _ end) as [cut|x] eqn:Hcut;
    cbn [mbind result_bind]; [|raised].
  destruct (Calc.compute_frame cut) as [df|x] eqn:Hdf;
    cbn [mbind result_bind]; [|raised].
  intros Hsel. exists merged. split; [done|].
  rewrite (frame_select_index _ _ _ Hsel), (foldM_tenor_step_index _ _ _ Hdf).
  destruct e as [date|].
  - by eapply frame_loc_index.
  - by injection Hcut as <-.
Qed.

(** C2: [prepare_data] joins on the date, strictly: the merged table has a
    row for a date exactly when both inputs have that date, so a date that
    one input lacks is in no row of the merged table; and it is in no row
    of what [calculate_treasury_sf_basis] builds, before its forward fill
    and after. *)
Theorem C2_inner_join_on_date (t s : Calc.RawFrame) (d : Z) :
  d ∉ Calc.dates t ∨ d ∉ Calc.dates s →
  (∀ merged, Calc.prepare_data t s = Ok merged →
     (d ∉ index merged) ∧
     (∀ k, k ∈ index merged ↔ k ∈ Calc.dates t ∧ k ∈ Calc.dates s)) ∧
  (∀ e out, returned (Calc.basis_before_ffill e t s) = Ok out → d ∉ index out) ∧
  (∀ e out, returned (Calc.calculate_treasury_sf_basis e t s) = Ok out →
     d ∉ index out).
Proof.
  intros Hd.
  assert (∀ merged, Calc.prepare_data t s = Ok merged →
          ∀ k, k ∈ index merged ↔ k ∈ Calc.dates t ∧ k ∈ Calc.dates s) as Hjoin.
  { intros merged Hm k. rewrite (prepare_data_index _ _ _ Hm).
    apply join_rows_keys. }
  assert (∀ e out, Calc.basis_frame e t s = Ok out → d ∉ index out) as Hbasis.
  { intros e out Hout Hin.
    destruct (basis_frame_index _ _ _ _ Hout) as (merged & Hm & Hsub).
    apply Hsub, (Hjoin merged Hm) in Hin. tauto. }
  split_and!.
  - intros merged Hm. split; [|by apply Hjoin].
    intros Hin. apply (Hjoin merged Hm) in Hin. tauto.
  - intros e out. rewrite basis_before_ffill_returned. apply Hbasis.
  - intros e out. rewrite calculate_returned.
    destruct (Calc.basis_frame e t s) as [df|x] eqn:Hdf;
      cbn [mbind result_bind]; [|raised].
    intros [= <-]. change (d ∉ index df). by apply (Hbasis e).
Qed.

Lemma C2_witness :
  (∀ merged,
     Calc.prepare_data
       (Calc.mkRaw (Some [1; 2])
          (mkDF [0; 1] [("USGG2YR Index_PX_LAST", [4.5; 4.75]%float)]))
       (Calc.mkRaw (Some [1; 3])
          (mkDF [0; 1] [("USOSFR2 Curncy_PX_LAST", [4.25; 4]%float)]))
     = Ok merged → 2 ∉ index merged) ∧
  Calc.prepare_data
    (Calc.mkRaw (Some [1; 2])
       (mkDF [0; 1] [("USGG2YR Index_PX_LAST", [4.5; 4.75]%float)]))
    (Calc.mkRaw (Some [1; 3])
       (mkDF [0; 1] [("USOSFR2 Curncy_PX_LAST", [4.25; 4]%float)]))
  = Ok (mkDF [1] [("2Y_Treasury", [4.5]%float); ("2Y_SF", [4.25]%float)]).
Proof.
  split; [|by vm_compute].
  intros merged Hm.
  refine (proj1 (proj1 (C2_inner_join_on_date _ _ 2 _) merged Hm)).
  right. apply (bool_decide_unpack _). vm_compute. exact I.
Defined.

(** ** The forward fill of the result *)

(** C3: [ffill] keeps the index and the labels, and fills each column
    forward only.  In every column: an entry with nothing but missing
    cells above it, so any entry up to and including the first value, is
    unchanged; a value that is there is never changed; and a missing cell
    below a value, with only missing cells in between, takes that value,
    whatever the length of the gap.  It is the last step of
    [calculate_treasury_sf_basis]: the call returns the [ffill] of the
    frame it built. *)
Theorem C3_ffill_forward_only (df : DataFrame) :
  (∀ e t s,
     returned (Calc.calculate_treasury_sf_basis e t s) =
       (before ← returned (Calc.basis_before_ffill e t s); Ok (ffill before))) ∧
  index (ffill df) = index df ∧
  labels (ffill df) = labels df ∧
  ∀ n label vals,
    columns df !! n = Some (label, vals) →
    columns (ffill df) !! n = Some (label, ffill_column vals) ∧
    length (ffill_column vals) = length vals ∧
    (∀ i, (∀ j x, (j < i)%nat → vals !! j = Some x → is_nan x = true) →
          ffill_column vals !! i = vals !! i) ∧
    (∀ i x, vals !! i = Some x → is_nan x = false →
            ffill_column vals !! i = Some x) ∧
    (∀ j i v, (j < i)%nat → vals !! j = Some v → is_nan v = false →
       (∀ k, (j < k ≤ i)%nat → ∃ y, vals !! k = Some y ∧ is_nan y = true) →
       ffill_column vals !! i = Some v).
Proof.
  split_and!.
  - intros e t s. by rewrite calculate_returned, basis_before_ffill_returned.
  - done.
  - unfold ffill, labels. simpl. rewrite <- list_fmap_compose.
    by apply list_fmap_ext.
  - intros n label vals Hn. unfold ffill_column. split_and!.
    + unfold ffill. simpl. by rewrite list_lookup_fmap, Hn.
    + apply length_ffill_from.
    + apply ffill_leading.
    + apply ffill_from_valid.
    + apply ffill_from_gap.
Qed.

Lemma C3_witness :
  columns (ffill (mkDF [1; 2; 3; 4; 5; 6]
                    [("Treasury_SF_2Y", [nan; 20; nan; nan; 25; nan]%float)])) !! 0%nat =
    Some ("Treasury_SF_2Y", ffill_column [nan; 20; nan; nan; 25; nan]%float) ∧
  ffill_column [nan; 20; nan; nan; 25; nan]%float = [nan; 20; 20; 20; 25; 25]%float.
Proof.
  split; [|by vm_compute].
  refine (proj1 (proj2 (proj2 (proj2 (C3_ffill_forward_only
            (mkDF [1; 2; 3; 4; 5; 6]
               [("Treasury_SF_2Y", [nan; 20; nan; nan; 25; nan]%float)]))))
          0%nat "Treasury_SF_2Y" [nan; 20; nan; nan; 25; nan]%float _)).
  reflexivity.
Defined.

(** ** Label slices of an index in ascending order *)

Lemma monotonic_cons k idx :
  is_monotonic_increasing (k :: idx) = true ↔
  Forall (λ x, k ≤ x) idx ∧ is_monotonic_increasing idx = true.
Proof.
  revert k. induction idx as [|k' idx IH]; intros k.
  - simpl. split; [by split|done].
  - change (is_monotonic_increasing (k :: k' :: idx))
      with (bool_decide (k ≤ k') && is_monotonic_increasing (k' :: idx)).
    rewrite andb_true_iff, bool_decide_eq_true, Forall_cons. split.
    + intros [Hk Hm]. split_and!; [done| |done].
      apply IH in Hm as [Hall _].
      eapply Forall_impl; [exact Hall|]. intros x Hx. simpl in Hx. lia.
    + tauto.
Qed.

Lemma filter_none {A : Type} (P : A → Prop) `{!∀ x, Decision (P x)} (l : list A) :
  Forall (λ x, ¬ P x) l → filter P l = [].
Proof.
  induction 1 as [|x l Hx _ IH]; [done|]. by rewrite filter_cons_False.
Qed.

Lemma searchsorted_right idx label :
  searchsorted idx label side_right =
    (searchsorted idx label side_left + occurrences label idx)%nat.
Proof.
  unfold searchsorted, occurrences. induction idx as [|k idx IH]; [done|].
  rewrite !filter_cons.
  destruct (decide (k ≤ label)), (decide (k < label)), (decide (k = label));
    simpl; lia.
Qed.

(** Where an ascending index holds a label: from the count of the keys
    before it, without a gap. *)
Lemma find_sorted idx label :
  is_monotonic_increasing idx = true →
  find_first label idx =
    (if bool_decide (occurrences label idx = 0%nat) then None
     else Some (searchsorted idx label side_left)) ∧
  find_last label idx =
    (if bool_decide (occurrences label idx = 0%nat) then None
     else Some (searchsorted idx label side_left + occurrences label idx - 1)%nat).
Proof.
  unfold occurrences, searchsorted.
  induction idx as [|k idx IH]; intros Hm; [done|].
  apply monotonic_cons in Hm as [Hall Hm]. destruct (IH Hm) as [IH1 IH2].
  cbn [find_first find_last]. rewrite IH1, IH2. clear IH IH1 IH2.
  destruct (Z.lt_trichotomy k label) as [Hlt|[->|Hgt]].
  - rewrite (filter_cons_True (λ x, x < label)) by done.
    rewrite (filter_cons_False (λ x, x = label)) by lia.
    rewrite (bool_decide_eq_false_2 (k = label)) by lia.
    case_bool_decide as Hocc; [done|]. simpl. split; [done|]. f_equal. lia.
  - rewrite (filter_cons_False (λ x, x < label)) by lia.
    rewrite (filter_cons_True (λ x, x = label)) by done.
    rewrite (filter_none (λ x, x < label) idx)
      by (eapply Forall_impl; [exact Hall|]; intros x Hx; simpl in *; lia).
    rewrite (bool_decide_eq_true_2 (label = label)) by done.
    rewrite (bool_decide_eq_false_2 (length (label :: _) = 0%nat)) by done.
    split; [done|]. case_bool_decide as Hocc; simpl.
    + by rewrite Hocc.
    + f_equal. lia.
  - rewrite (filter_cons_False (λ x, x < label)) by lia.
    rewrite (filter_cons_False (λ x, x = label)) by lia.
    rewrite (filter_none (λ x, x = label) idx)
      by (eapply Forall_impl; [exact Hall|]; intros x Hx; simpl in *; lia).
    rewrite (bool_decide_eq_false_2 (k = label)) by lia. done.
Qed.

(** On an ascending index a slice bound is where [searchsorted] puts the
    label, and no label raises. *)
Lemma get_slice_bound_sorted idx label s :
  is_monotonic_increasing idx = true →
  get_slice_bound idx label s = Ok (searchsorted idx label s).
Proof.
  intros Hm. unfold get_slice_bound.
  destruct (find_sorted idx label Hm) as [-> ->].
  case_bool_decide as Hocc.
  - by rewrite Hm.
  - rewrite bool_decide_eq_true_2 by lia. f_equal.
    destruct s; [done|]. rewrite searchsorted_right. lia.
Qed.

Lemma slice_locs_sorted idx start stop :
  is_monotonic_increasing idx = true →
  slice_locs idx start stop = Ok (sorted_bounds idx start stop).
Proof.
  intros Hm. unfold slice_locs, sorted_bounds.
  destruct start as [a|], stop as [b|];
    rewrite ?get_slice_bound_sorted by done; done.
Qed.

(** A slice between these positions keeps the rows inside the bounds. *)
Lemma slice_sorted {A : Type} (f : A → Z) (l : list A) start stop :
  is_monotonic_increasing (f <$> l) = true →
  slice (sorted_bounds (f <$> l) start stop).1
        (sorted_bounds (f <$> l) start stop).2 l =
    filter (λ x, in_window start stop (f x) = true) l.
Proof.
  induction l as [|x l IH]; intros Hm.
  - unfold slice. by rewrite drop_nil, take_nil.
  - rewrite fmap_cons in Hm. apply monotonic_cons in Hm as [Hall Hm].
    specialize (IH Hm). rewrite Forall_fmap in Hall.
    assert (∀ b, f x > b → filter (λ k, k ≤ b) (f <$> l) = []) as Hle.
    { intros b Hb. apply filter_none. rewrite Forall_fmap.
      eapply Forall_impl; [exact Hall|]. intros y Hy. simpl in *. lia. }
    assert (∀ a, a ≤ f x → filter (λ k, k < a) (f <$> l) = []) as Hlt.
    { intros a Ha. apply filter_none. rewrite Forall_fmap.
      eapply Forall_impl; [exact Hall|]. intros y Hy. simpl in *. lia. }
    assert (∀ b, f x > b →
            filter (λ y, in_window start (Some b) (f y) = true) l = []) as Hout.
    { intros b Hb. apply filter_none.
      apply (Forall_impl _ _ _ Hall). intros y Hy. simpl in Hy.
      unfold in_window. rewrite (bool_decide_eq_false_2 (f y ≤ b)) by lia.
      by rewrite andb_false_r. }
    unfold sorted_bounds, slice in *. cbn [fst snd] in *.
    rewrite fmap_cons. unfold searchsorted in *. cbn [length].
    rewrite filter_cons. unfold in_window at 1.
    destruct start as [a|], stop as [b|]; rewrite ?filter_cons;
      repeat case_decide; repeat case_bool_decide; cbn [andb length drop take] in *;
      try done; try lia.
    all: rewrite ?Nat.sub_0_r in *.
    all: try (rewrite (Hlt a) in * by lia); cbn [length drop take] in *;
      rewrite ?Nat.sub_0_r in *.
    all: try (rewrite (Hle b), (Hout b) by lia); cbn [length drop take].
    all: rewrite ?take_0; try done; try (by rewrite IH).
    all: change (drop 0 l) with l in IH; by rewrite IH.
Qed.

(** Why the index has to ascend: on another index the slice goes by the
    positions of the two labels, and a label that is not there raises. *)
Example series_loc_not_ascending :
  series_loc [(3, 10%float); (1, 20%float); (2, 30%float)] (Some 2) (Some 3) = Ok [] ∧
  series_loc [(3, 10%float); (1, 20%float); (2, 30%float)] (Some 3) (Some 2) =
    Ok [(3, 10%float); (1, 20%float); (2, 30%float)] ∧
  series_loc [(3, 10%float); (1, 20%float); (2, 30%float)] (Some 0) (Some 5) =
    Raise KeyError.
Proof. split_and!; vm_compute; reflexivity. Qed.

(** ** [plot_figure] *)

Lemma column_None df l : in_columns l (labels df) = false → column df l = None.
Proof.
  intros Hl. apply bool_decide_eq_false in Hl.
  unfold column. by rewrite named_not_in.
Qed.

Lemma dropna_filter (start_dt end_dt : option Z) (s : Series) :
  dropna (filter (λ p, Plot.window start_dt end_dt p.1 = true) s) =
    filter (λ p, Plot.window start_dt end_dt p.1 = true ∧ is_nan p.2 = false) s.
Proof.
  unfold dropna. etrans; [apply list_filter_filter|].
  apply list_filter_iff. tauto.
Qed.

Lemma frame_item_column df l values :
  frame_getitem df l = Ok values →
  frame_item df l = Ok (OneColumn (zip (index df) values)).
Proof.
  unfold frame_getitem, frame_item.
  destruct (named l (columns df)) as [|c [|]]; [raised| |raised]. by intros [= <-].
Qed.

(** The series [plot_tenor] makes the trace of. *)
Lemma plotted_series (start_dt end_dt : option Z) (s : Series) :
  start_dt = None ∨ is_monotonic_increasing s.*1 = true →
  match start_dt, end_dt with
  | Some a, Some b => s' ← item_loc (OneColumn s) (Some a) (Some b); Ok (item_dropna s')
  | Some a, None => s' ← item_loc (OneColumn s) (Some a) None; Ok (item_dropna s')
  | None, _ => Ok (item_dropna (OneColumn s))
  end = Ok (OneColumn (filter (λ p, Plot.window start_dt end_dt p.1 = true ∧
                                    is_nan p.2 = false) s)).
Proof.
  intros Hs. destruct start_dt as [a|].
  - destruct Hs as [|Hm]; [done|].
    assert (∀ stop, (s' ← item_loc (OneColumn s) (Some a) stop; Ok (item_dropna s')) =
                    Ok (OneColumn (filter (λ p, Plot.window (Some a) stop p.1 = true ∧
                                                is_nan p.2 = false) s))) as Hloc.
    { intros stop. unfold item_loc, series_loc. rewrite slice_locs_sorted by done.
      cbn [mbind result_bind]. rewrite (slice_sorted fst) by done.
      cbn [item_dropna]. do 2 f_equal. apply (dropna_filter (Some a) stop). }
    destruct end_dt; apply Hloc.
  - cbn [item_dropna]. do 2 f_equal. unfold dropna, Plot.window.
    apply list_filter_iff. tauto.
Qed.

(** One turn of the loop: a tenor with a column adds its trace, a tenor
    without one adds nothing. *)
Lemma plot_tenor_spec df start_dt end_dt fig tenor :
  NoDup (labels df) →
  start_dt = None ∨ (rectangular df ∧ is_monotonic_increasing (index df) = true) →
  Plot.plot_tenor df start_dt end_dt fig tenor =
    Ok (fig ++ match column df tenor with
               | Some values => [Plot.trace_of df start_dt end_dt tenor values]
               | None => []
               end).
Proof.
  intros Hnd Hs. unfold Plot.plot_tenor.
  destruct (in_columns tenor (labels df)) eqn:Hin; cbn [negb].
  - destruct (getitem_column df tenor Hnd Hin) as (values & Hg & Hc).
    rewrite Hc, (frame_item_column _ _ _ Hg). cbn [mbind result_bind].
    rewrite plotted_series; [done|].
    destruct Hs as [?|[Hrect Hm]]; [by left|right].
    rewrite fst_zip; [done|]. by rewrite (column_length df tenor values).
  - rewrite column_None by done. by rewrite app_nil_r.
Qed.

Lemma plot_loop_spec df start_dt end_dt ts fig :
  NoDup (labels df) →
  start_dt = None ∨ (rectangular df ∧ is_monotonic_increasing (index df) = true) →
  foldM (Plot.plot_tenor df start_dt end_dt) fig ts =
    Ok (fig ++ omap (λ tenor, Plot.trace_of df start_dt end_dt tenor
                                <$> column df tenor) ts).
Proof.
  intros Hnd Hs. revert fig. induction ts as [|tenor ts IH]; intros fig.
  - by rewrite app_nil_r.
  - cbn [foldM]. rewrite plot_tenor_spec by done. cbn [mbind result_bind].
    rewrite IH, <- app_assoc. cbn [omap list_omap].
    by destruct (column df tenor).
Qed.

Lemma plot_figure_spec df save_path start_date end_date fs :
  NoDup (labels df) →
  start_date = None ∨
    (rectangular df ∧ is_monotonic_increasing (index df) = true) →
  ∃ fig,
    Plot.plot_figure df save_path start_date end_date fs =
      Ok (fig, <[save_path := fig]> fs) ∧
    Plot.traces fig =
      omap (λ tenor, Plot.trace_of df start_date end_date tenor
                       <$> column df tenor) Plot.tenors.
Proof.
  intros Hnd Hs. unfold Plot.plot_figure.
  rewrite plot_loop_spec by done. cbn [mbind result_bind app].
  eexists. split; reflexivity.
Qed.

(** The names of the traces are those of the tenors that have a column. *)
Lemma trace_names df start_dt end_dt (ts : list string) :
  NoDup (labels df) →
  Plot.name <$> omap (λ tenor, Plot.trace_of df start_dt end_dt tenor
                                 <$> column df tenor) ts =
    replace "Treasury_SF_" "" <$> filter (λ tenor, tenor ∈ labels df) ts.
Proof.
  intros Hnd. induction ts as [|tenor ts IH]; [done|].
  cbn [omap list_omap]. rewrite filter_cons.
  destruct (decide (tenor ∈ labels df)) as [Hin|Hnin].
  - destruct (getitem_column df tenor Hnd) as (values & _ & ->).
    { by apply bool_decide_eq_true. }
    cbn [fmap option_fmap option_map]. rewrite !fmap_cons, <- IH. done.
  - rewrite column_None by (by apply bool_decide_eq_false). exact IH.
Qed.




(** C10: without a start date the end date changes nothing: for every
    frame, path and end date the call returns what it returns without an
    end date, figure, file and raises alike.  When no label is there
    twice it returns a figure, with one trace for each tenor column that
    is in the frame; and such a trace holds all the points of the column
    that are not missing, whatever their date and whatever the end
    date. *)
Theorem C10_end_date_needs_start_date (df : DataFrame) (save_path : string)
    (end_date : Z) (fs : Plot.files) :
  Plot.plot_figure df save_path None (Some end_date) fs =
    Plot.plot_figure df save_path None None fs ∧
  (NoDup (labels df) →
   ∃ fig,
     Plot.plot_figure df save_path None (Some end_date) fs =
       Ok (fig, <[save_path := fig]> fs) ∧
     Plot.traces fig =
       omap (λ tenor, Plot.trace_of df None (Some end_date) tenor
                        <$> column df tenor) Plot.tenors) ∧
  (∀ tenor values,
     Plot.x (Plot.trace_of df None (Some end_date) tenor values) =
       (filter (λ p, is_nan p.2 = false) (zip (index df) values)).*1 ∧
     Plot.y (Plot.trace_of df None (Some end_date) tenor values) =
       Array1 (filter (λ p, is_nan p.2 = false) (zip (index df) values)).*2).
Proof.
  split_and!.
  - unfold Plot.plot_figure.
    assert (∀ fig tenor,
              Plot.plot_tenor df None (Some end_date) fig tenor =
              Plot.plot_tenor df None None fig tenor) as Hturn.
    { intros fig tenor. unfold Plot.plot_tenor.
      destruct (negb _); [done|]. by destruct (frame_item df tenor). }
    assert (∀ ts fig,
              foldM (Plot.plot_tenor df None (Some end_date)) fig ts =
              foldM (Plot.plot_tenor df None None) fig ts) as Hloop.
    { induction ts as [|tenor ts IH]; intros fig; [done|].
      cbn [foldM]. rewrite Hturn.
      destruct (Plot.plot_tenor df None None fig tenor); cbn [mbind result_bind];
        [apply IH|done]. }
    by rewrite Hloop.
  - intros Hnd.
    destruct (plot_figure_spec df save_path None (Some end_date) fs Hnd)
      as (fig & Hrun & Htr); [by left|].
    by exists fig.
  - intros tenor values.
    assert (filter (λ p : Z * float,
                      Plot.window None (Some end_date) p.1 = true ∧
                      is_nan p.2 = false)
                   (zip (index df) values)
            = filter (λ p, is_nan p.2 = false) (zip (index df) values)) as Hw.
    { apply list_filter_iff. intros p. unfold Plot.window. tauto. }
    unfold Plot.trace_of. cbn [Plot.x Plot.y]. by rewrite Hw.
Qed.

Lemma C10_witness :
  Plot.plot_figure
    (mkDF [1; 2; 3; 4]
       [("Treasury_SF_5Y", [1; nan; 3; 4]%float);
        ("Treasury_SF_2Y", [nan; 5; 6; 7]%float)])
    "out.html" None (Some 2) ∅ =
  Plot.plot_figure
    (mkDF [1; 2; 3; 4]
       [("Treasury_SF_5Y", [1; nan; 3; 4]%float);
        ("Treasury_SF_2Y", [nan; 5; 6; 7]%float)])
    "out.html" None None ∅ ∧
  ∃ fig,
    Plot.plot_figure
      (mkDF [1; 2; 3; 4]
         [("Treasury_SF_5Y", [1; nan; 3; 4]%float);
          ("Treasury_SF_2Y", [nan; 5; 6; 7]%float)])
      "out.html" None (Some 2) ∅ = Ok (fig, <["out.html" := fig]> ∅) ∧
    Plot.traces fig =
      [Plot.mkTrace [2; 3; 4] (Array1 [5; 6; 7]%float) "lines" "2Y";
       Plot.mkTrace [1; 3; 4] (Array1 [1; 3; 4]%float) "lines" "5Y"].
Proof.
  destruct (C10_end_date_needs_start_date
              (mkDF [1; 2; 3; 4]
                 [("Treasury_SF_5Y", [1; nan; 3; 4]%float);
                  ("Treasury_SF_2Y", [nan; 5; 6; 7]%float)])
              "out.html" 2 ∅) as (Hsame & Hfig & _).
  split; [exact Hsame|].
  destruct Hfig as (fig & Hrun & Htraces).
  - apply (bool_decide_unpack _). vm_compute. exact I.
  - exists fig. split; [exact Hrun|]. rewrite Htraces. vm_compute. reflexivity.
Defined.

(** ** The merge of inputs with labels of their own *)

Lemma suffix_duplicates_same l : suffix_duplicates l l = false.
Proof.
  unfold suffix_duplicates. induction (duplicated [] l) as [|b d IH]; [done|].
  simpl. by rewrite andb_negb_r.
Qed.

Lemma add_suffix_nil suffix (l : list string) : add_suffix [] suffix <$> l = l.
Proof.
  rewrite <- (list_fmap_id l) at 2. apply list_fmap_ext. intros i x _.
  unfold add_suffix. by rewrite bool_decide_eq_false_2 by apply not_elem_of_nil.
Qed.

Lemma labels_cleaned raw mapping suffix :
  labels (Calc.cleaned raw mapping suffix) =
    Calc.clean_label mapping suffix <$> labels (Calc.frame raw).
Proof.
  unfold labels, Calc.cleaned. simpl. rewrite <- !list_fmap_compose.
  by apply list_fmap_ext.
Qed.

(** When no label is on both sides, and none twice, the merge returns, the
    columns of the left then those of the right, each under its label. *)
Lemma merge_inner_distinct left right :
  NoDup (labels left ++ labels right) →
  ∃ merged,
    merge_inner left right = Ok merged ∧
    index merged = (join_rows (index left) (index right) 0).*1 ∧
    labels merged = labels left ++ labels right ∧
    (join_rows (index left) (index right) 0 = [] →
     Forall (λ c, c.2 = []) (columns merged)).
Proof.
  intros Hnd. apply NoDup_app in Hnd as (_ & Hdis & _).
  unfold merge_inner.
  assert (filter (λ x, x ∈ labels right) (labels left) = []) as ->.
  { apply filter_none, Forall_forall. exact Hdis. }
  rewrite !add_suffix_nil, !suffix_duplicates_same. cbn [orb].
  eexists. split; [reflexivity|]. cbn [index columns]. split_and!.
  - done.
  - unfold labels. cbn [columns]. rewrite fmap_app, <- !list_fmap_compose.
    f_equal; rewrite <- (list_fmap_id (_ <$> _)), <- list_fmap_compose;
      apply list_fmap_ext; intros i c _; cbn;
      unfold add_suffix; by rewrite bool_decide_eq_false_2 by apply not_elem_of_nil.
  - intros ->. apply Forall_app. split; apply Forall_fmap, Forall_true; done.
Qed.

Lemma prepare_data_distinct t s :
  NoDup (Calc.merged_labels t s) →
  ∃ merged,
    Calc.prepare_data t s = Ok merged ∧
    index merged = (join_rows (Calc.dates t) (Calc.dates s) 0).*1 ∧
    labels merged = Calc.merged_labels t s ∧
    (join_rows (Calc.dates t) (Calc.dates s) 0 = [] →
     Forall (λ c, c.2 = []) (columns merged)).
Proof.
  intros Hnd. rewrite prepare_data_spec.
  unfold Calc.merged_labels in *. rewrite <- !labels_cleaned in *.
  by apply merge_inner_distinct.
Qed.

(** ** Frames with no row *)

Lemma getitem_elem df l v : frame_getitem df l = Ok v → (l, v) ∈ columns df.
Proof.
  unfold frame_getitem.
  destruct (named l (columns df)) as [|c [|]] eqn:Hn; [raised| |raised].
  intros [= <-]. assert (c ∈ named l (columns df)) as Hc by (rewrite Hn; left).
  apply list_elem_of_filter in Hc as [<- Hc]. by destruct c.
Qed.

Lemma setitem_no_row df l :
  Forall (λ c, c.2 = []) (columns df) →
  Forall (λ c, c.2 = []) (columns (frame_setitem df l [])).
Proof.
  intros Hall. unfold frame_setitem. destruct (in_columns l _); cbn [columns].
  - apply Forall_fmap. eapply Forall_impl; [exact Hall|].
    intros c Hc. cbn. by case_bool_decide.
  - apply Forall_app. split; [done|]. by repeat constructor.
Qed.

Lemma tenor_step_no_row df t df' :
  Forall (λ c, c.2 = []) (columns df) →
  Calc.tenor_step df t = Ok df' → Forall (λ c, c.2 = []) (columns df').
Proof.
  intros Hall. unfold Calc.tenor_step.
  destruct (odict_getitem _ _); cbn [mbind result_bind]; [|raised].
  destruct (_ && _); [|by intros [= <-]].
  destruct (frame_getitem df (t +:+ "_Treasury")) as [treas|] eqn:Ht;
    cbn [mbind result_bind]; [|raised].
  destruct (frame_getitem df (t +:+ "_SF")); cbn [mbind result_bind]; [|raised].
  intros [= <-].
  apply getitem_elem in Ht. rewrite Forall_forall in Hall.
  rewrite (Hall _ Ht : treas = []). by apply setitem_no_row, Forall_forall.
Qed.

Lemma foldM_tenor_step_no_row ts df df' :
  Forall (λ c, c.2 = []) (columns df) →
  foldM Calc.tenor_step df ts = Ok df' → Forall (λ c, c.2 = []) (columns df').
Proof.
  revert df. induction ts as [|t ts IH]; intros df Hall; cbn [foldM].
  - by intros [= <-].
  - destruct (Calc.tenor_step df t) as [df1|] eqn:Hs; cbn [mbind result_bind]; [|raised].
    apply IH. by eapply tenor_step_no_row.
Qed.

(** ** The choice of the basis columns *)

Lemma frame_select_present df names :
  ∃ picked,
    frame_select df (filter (λ col, col ∈ labels df) names) = Ok picked ∧
    index picked = index df ∧
    (∀ c, c ∈ columns picked → c ∈ columns df ∧ c.1 ∈ names).
Proof.
  unfold frame_select.
  assert (forallb (λ n, in_columns n (labels df))
                  (filter (λ col, col ∈ labels df) names) = true) as ->.
  { apply forallb_forall. intros n Hn. apply list_elem_of_In, list_elem_of_filter in Hn.
    apply bool_decide_eq_true. tauto. }
  eexists. split; [reflexivity|]. split; [done|]. cbn [columns].
  intros c (n & Hc & Hn)%list_elem_of_bind.
  apply list_elem_of_filter in Hc as [<- Hc], Hn as [_ Hn]. done.
Qed.

Lemma labels_ffill df : labels (ffill df) = labels df.
Proof.
  unfold ffill, labels. cbn [columns]. rewrite <- list_fmap_compose.
  by apply list_fmap_ext.
Qed.

(** ** The cut at the end date *)

Lemma monotonic_prepend k (js : list nat) (l : list Z) :
  Forall (λ x, k ≤ x) l → is_monotonic_increasing l = true →
  is_monotonic_increasing (((λ _, k) <$> js) ++ l) = true.
Proof.
  intros Hall Hm. induction js as [|j js IH]; [done|].
  rewrite fmap_cons. cbn [app]. apply monotonic_cons. split; [|done].
  apply Forall_app. split; [|done]. apply Forall_fmap, Forall_true. cbn. lia.
Qed.

(** A join on ascending left keys has ascending keys. *)
Lemma join_rows_monotonic lkeys rkeys i :
  is_monotonic_increasing lkeys = true →
  is_monotonic_increasing (join_rows lkeys rkeys i).*1 = true.
Proof.
  revert i. induction lkeys as [|k lkeys IH]; intros i Hm; [done|].
  apply monotonic_cons in Hm as [Hall Hm].
  cbn [join_rows]. rewrite fmap_app, <- list_fmap_compose.
  apply (monotonic_prepend k); [|by apply IH].
  apply Forall_forall. intros x Hx. apply join_rows_keys in Hx as [Hx _].
  rewrite Forall_forall in Hall. by apply Hall.
Qed.

(** On an ascending index the cut returns and keeps the labels. *)
Lemma frame_loc_sorted df start stop :
  is_monotonic_increasing (index df) = true →
  ∃ cut, frame_loc df start stop = Ok cut ∧ labels cut = labels df.
Proof.
  intros Hm. unfold frame_loc. rewrite slice_locs_sorted by done.
  cbn [mbind result_bind]. eexists. split; [reflexivity|].
  unfold labels. cbn [columns]. rewrite <- list_fmap_compose.
  by apply list_fmap_ext.
Qed.


(** ** The result of [calculate_treasury_sf_basis] *)

(** From a merged table on, with labels of its own and a cut that
    returns: the call returns a frame whose columns are basis columns. *)
Lemma basis_of_cut cut :
  NoDup (labels cut) →
  ∃ df out,
    Calc.compute_frame cut = Ok df ∧
    frame_select df (filter (λ col, col ∈ labels df)
                            (odict_values Calc.OUTPUT_COLUMNS)) = Ok out ∧
    index out = index cut ∧
    (∀ c, c ∈ columns out → c.1 ∈ odict_values Calc.OUTPUT_COLUMNS) ∧
    (Forall (λ c, c.2 = []) (columns cut) → Forall (λ c, c.2 = []) (columns out)).
Proof.
  intros Hnd.
  destruct (compute_frame_spec cut Hnd) as (df & Hrun & [Hi _ _ _ _]).
  destruct (frame_select_present df (odict_values Calc.OUTPUT_COLUMNS))
    as (out & Hsel & Hio & Hcols).
  exists df, out. split_and!; [done|done|congruence| |].
  - intros c Hc. by apply Hcols.
  - intros Hall. apply Forall_forall. intros c Hc.
    apply Hcols in Hc as [Hc _].
    pose proof (foldM_tenor_step_no_row _ _ _ Hall Hrun) as Hall'.
    rewrite Forall_forall in Hall'. by apply Hall'.
Qed.






(** ** Unmapped tickers *)

Lemma clean_label_unmapped mapping suffix col :
  Calc.unmapped mapping col → Calc.clean_label mapping suffix col = col.
Proof.
  intros [Hin Hun]. unfold Calc.clean_label. rewrite Hin.
  destruct (split col) as [|ticker rest]; [done|].
  by rewrite (Hun ticker).
Qed.

Lemma output_labels_no_PX_LAST l :
  l ∈ odict_values Calc.OUTPUT_COLUMNS → contains "_PX_LAST" l = false.
Proof.
  cbn. intros Hl.
  repeat (apply elem_of_cons in Hl as [->|Hl]; [reflexivity|]).
  by apply elem_of_nil in Hl.
Qed.

Lemma merge_inner_all_labels left right m :
  merge_inner left right = Ok m →
  labels m =
    (add_suffix (filter (λ x, x ∈ labels right) (labels left)) "_x" <$> labels left) ++
    (add_suffix (filter (λ x, x ∈ labels right) (labels left)) "_y" <$> labels right).
Proof.
  unfold merge_inner. destruct (_ || _); [raised|]. intros [= <-].
  unfold labels. cbn [columns]. rewrite fmap_app, <- !list_fmap_compose.
  f_equal; by apply list_fmap_ext.
Qed.

(** A label of an input is in the merged table, as it is or with the
    suffix of its side. *)
Lemma merge_inner_labels left right m :
  merge_inner left right = Ok m →
  ∀ l, l ∈ labels left ∨ l ∈ labels right →
       l ∈ labels m ∨ (l +:+ "_x") ∈ labels m ∨ (l +:+ "_y") ∈ labels m.
Proof.
  intros Hm l Hl. rewrite (merge_inner_all_labels _ _ _ Hm).
  set (overlap := filter _ _). rewrite !elem_of_app.
  destruct Hl as [Hl|Hl].
  - apply (list_elem_of_fmap_2 (add_suffix overlap "_x")) in Hl.
    unfold add_suffix in Hl at 1. case_bool_decide; tauto.
  - apply (list_elem_of_fmap_2 (add_suffix overlap "_y")) in Hl.
    unfold add_suffix in Hl at 1. case_bool_decide; tauto.
Qed.

(** Whenever the call returns, its frame has basis columns only. *)
Lemma basis_frame_labels e t s out :
  Calc.basis_frame e t s = Ok out →
  ∀ l, l ∈ labels out → l ∈ odict_values Calc.OUTPUT_COLUMNS.
Proof.
  unfold Calc.basis_frame.
  destruct (Calc.prepare_data t s) as [merged|]; cbn [mbind result_bind]; [|raised].
  destruct (match e with Some _ => _ | None => _ end) as [cut|];
    cbn [mbind result_bind]; [|raised].
  destruct (Calc.compute_frame cut) as [df|]; cbn [mbind result_bind]; [|raised].
  destruct (frame_select_present df (odict_values Calc.OUTPUT_COLUMNS))
    as (picked & -> & _ & Hcols).
  intros [= <-] l (c & -> & Hc)%list_elem_of_fmap. by apply Hcols.
Qed.

(** C6, as amended: an input column of an unmapped ticker is dropped
    without a word.  [clean_columns] returns for both inputs and leaves
    the column under its own label; [prepare_data], when it returns, has
    it in the merged table, under its label or under that label with the
    suffix of the merge; whenever [calculate_treasury_sf_basis] returns,
    its result has basis columns only, the unmapped column not among
    them; and it does return when the merged table carries no label
    twice and, with an end date, the Treasury dates are in ascending
    order. *)
Theorem C6_unmapped_ticker_not_in_result (e : option Z) (t s : Calc.RawFrame)
    (c : string) :
  (c ∈ labels (Calc.frame t) ∧ Calc.unmapped Calc.TREASURY_MAPPING c) ∨
  (c ∈ labels (Calc.frame s) ∧ Calc.unmapped Calc.SF_MAPPING c) →
  Calc.clean_columns (Calc.set_index_if_present t)
                     Calc.TREASURY_MAPPING "Treasury"
    = Ok (Calc.cleaned t Calc.TREASURY_MAPPING "Treasury") ∧
  Calc.clean_columns (Calc.set_index_if_present s) Calc.SF_MAPPING "SF"
    = Ok (Calc.cleaned s Calc.SF_MAPPING "SF") ∧
  (c ∈ labels (Calc.cleaned t Calc.TREASURY_MAPPING "Treasury") ∨
   c ∈ labels (Calc.cleaned s Calc.SF_MAPPING "SF")) ∧
  (∀ merged,
     Calc.prepare_data t s = Ok merged →
     c ∈ labels merged ∨ (c +:+ "_x") ∈ labels merged ∨
     (c +:+ "_y") ∈ labels merged) ∧
  (∀ out,
     returned (Calc.calculate_treasury_sf_basis e t s) = Ok out →
     (c ∉ labels out) ∧
     ∀ l, l ∈ labels out → l ∈ odict_values Calc.OUTPUT_COLUMNS) ∧
  (∀ merged,
     Calc.prepare_data t s = Ok merged →
     NoDup (labels merged) →
     e = None ∨ is_monotonic_increasing (Calc.dates t) = true →
     ∃ out, returned (Calc.calculate_treasury_sf_basis e t s) = Ok out).
Proof.
  intros Hc.
  assert (contains "_PX_LAST" c = true) as HPX by (by destruct Hc as [[_ []]|[_ []]]).
  assert (c ∈ labels (Calc.cleaned t Calc.TREASURY_MAPPING "Treasury") ∨
          c ∈ labels (Calc.cleaned s Calc.SF_MAPPING "SF")) as Hkept.
  { rewrite !labels_cleaned.
    destruct Hc as [[Hin Hun]|[Hin Hun]]; [left|right];
      apply list_elem_of_fmap; exists c;
      by rewrite clean_label_unmapped. }
  split_and!.
  - rewrite clean_columns_spec. unfold Calc.cleaned, Calc.set_index_if_present, Calc.dates.
    by destruct (Calc.date_column t).
  - rewrite clean_columns_spec. unfold Calc.cleaned, Calc.set_index_if_present, Calc.dates.
    by destruct (Calc.date_column s).
  - exact Hkept.
  - intros merged Hm. rewrite prepare_data_spec in Hm.
    by apply (merge_inner_labels _ _ _ Hm).
  - intros out Hout. rewrite calculate_returned in Hout.
    destruct (Calc.basis_frame e t s) as [b|] eqn:Hb; cbn [mbind result_bind] in Hout;
      [|discriminate Hout].
    injection Hout as <-.
    assert (∀ l, l ∈ labels (ffill b) → l ∈ odict_values Calc.OUTPUT_COLUMNS)
      as Hvalues.
    { intros l. rewrite labels_ffill. by apply (basis_frame_labels e t s). }
    split; [|exact Hvalues].
    intros Hin. apply Hvalues, output_labels_no_PX_LAST in Hin. congruence.
  - intros merged Hm Hnd Hsorted.
    pose proof (prepare_data_index t s merged Hm) as Hi.
    assert (∃ cut,
              match e with
              | Some date => frame_loc merged None (Some date)
              | None => Ok merged
              end = Ok cut ∧ labels cut = labels merged) as (cut & Hcut & Hlc).
    { destruct e as [date|]; [|by exists merged].
      destruct Hsorted as [|Hsorted]; [done|].
      apply frame_loc_sorted. rewrite Hi. by apply join_rows_monotonic. }
    destruct (basis_of_cut cut) as (df & out & Hdf & Hout & _).
    { by rewrite Hlc. }
    exists (ffill out).
    rewrite calculate_returned. unfold Calc.basis_frame.
    rewrite Hm. cbn [mbind result_bind]. rewrite Hcut. cbn [mbind result_bind].
    rewrite Hdf. cbn [mbind result_bind]. by rewrite Hout.
Qed.

Lemma C6_witness :
  ∃ merged out,
    Calc.prepare_data
      (Calc.mkRaw (Some [1; 2])
         (mkDF [0; 1] [("USGG2YR Index_PX_LAST", [4.5; 4.75]%float);
                       ("USGG3YR Index_PX_LAST", [4.25; 4.5]%float)]))
      (Calc.mkRaw (Some [1; 2])
         (mkDF [0; 1] [("USOSFR2 Curncy_PX_LAST", [4.25; 4]%float);
                       ("USGG3YR Index_PX_LAST", [4.25; 4.5]%float)]))
      = Ok merged ∧
    "USGG3YR Index_PX_LAST_x" ∈ labels merged ∧
    returned
      (Calc.calculate_treasury_sf_basis (Some 2)
         (Calc.mkRaw (Some [1; 2])
            (mkDF [0; 1] [("USGG2YR Index_PX_LAST", [4.5; 4.75]%float);
                          ("USGG3YR Index_PX_LAST", [4.25; 4.5]%float)]))
         (Calc.mkRaw (Some [1; 2])
            (mkDF [0; 1] [("USOSFR2 Curncy_PX_LAST", [4.25; 4]%float);
                          ("USGG3YR Index_PX_LAST", [4.25; 4.5]%float)])))
      = Ok out ∧
    "USGG3YR Index_PX_LAST" ∉ labels out.
Proof.
  destruct (C6_unmapped_ticker_not_in_result (Some 2)
      (Calc.mkRaw (Some [1; 2])
         (mkDF [0; 1] [("USGG2YR Index_PX_LAST", [4.5; 4.75]%float);
                       ("USGG3YR Index_PX_LAST", [4.25; 4.5]%float)]))
      (Calc.mkRaw (Some [1; 2])
         (mkDF [0; 1] [("USOSFR2 Curncy_PX_LAST", [4.25; 4]%float);
                       ("USGG3YR Index_PX_LAST", [4.25; 4.5]%float)]))
      "USGG3YR Index_PX_LAST")
    as (_ & _ & _ & _ & Hnot & Hreturns).
  - left. split.
    + apply (bool_decide_unpack _). vm_compute. exact I.
    + split; [vm_compute; reflexivity|]. intros ticker Hticker.
      vm_compute in Hticker. injection Hticker as <-. vm_compute. reflexivity.
  - destruct (Hreturns
                (mkDF [1; 2]
                   [("2Y_Treasury", [4.5; 4.75]%float);
                    ("USGG3YR Index_PX_LAST_x", [4.25; 4.5]%float);
                    ("2Y_SF", [4.25; 4]%float);
                    ("USGG3YR Index_PX_LAST_y", [4.25; 4.5]%float)]))
      as (out & Hout).
    + vm_compute. reflexivity.
    + apply (bool_decide_unpack _). vm_compute. exact I.
    + right. reflexivity.
    + eexists _, out. split_and!.
      * vm_compute. reflexivity.
      * apply (bool_decide_unpack _). vm_compute. exact I.
      * exact Hout.
      * by apply Hnot.
Defined.

(** C6, as stated, fails: an input with the column of an unmapped ticker
    can make the call raise.  With an end date that is none of the
    dates, on dates that are not in order, the slice raises [KeyError].
    And with the unmapped column on both sides, and on the left a column
    under the label the merge gives the left one, the merge raises
    [MergeError]. *)
Lemma C6_counterexample :
  ("USGG3YR Index_PX_LAST" ∈ labels (Calc.frame Raising.unordered) ∧
   Calc.unmapped Calc.TREASURY_MAPPING "USGG3YR Index_PX_LAST" ∧
   returned (Calc.calculate_treasury_sf_basis (Some 5) Raising.unordered
               Raising.sf_unordered) = Raise KeyError) ∧
  ("USGG3YR Index_PX_LAST" ∈ labels (Calc.frame Raising.suffixed) ∧
   Calc.unmapped Calc.TREASURY_MAPPING "USGG3YR Index_PX_LAST" ∧
   returned (Calc.calculate_treasury_sf_basis None Raising.suffixed
               Raising.sf_shared) = Raise MergeError).
Proof.
  assert (Calc.unmapped Calc.TREASURY_MAPPING "USGG3YR Index_PX_LAST") as Hun.
  { split; [vm_compute; reflexivity|]. intros ticker Hticker.
    vm_compute in Hticker. injection Hticker as <-. vm_compute. reflexivity. }
  split_and!.
  - apply (bool_decide_unpack _). vm_compute. exact I.
  - exact Hun.
  - vm_compute. reflexivity.
  - apply (bool_decide_unpack _). vm_compute. exact I.
  - exact Hun.
  - vm_compute. reflexivity.
Qed.

(** ** The end-to-end scenario *)

(** C5, as amended: with the SF rate of day 2 missing in a row that is
    there, the basis before the forward fill is the day-1 value and a
    missing cell, and the result carries the day-1 value to day 2.  That
    value is (4.50 - 4.30) * 100 as binary64 computes it,
    20.000000000000018: not 20, and within 2^-45 of it.  With no SF row
    for day 2, the join drops the day and the result has day 1 only. *)
Theorem C5_scenario :
  returned (Calc.basis_before_ffill None Scenario.treasury Scenario.sf) =
    Ok (mkDF [1; 2] [("Treasury_SF_2Y", [Scenario.basis_day_1; nan])]) ∧
  returned (Calc.calculate_treasury_sf_basis None Scenario.treasury Scenario.sf) =
    Ok (mkDF [1; 2]
          [("Treasury_SF_2Y", [Scenario.basis_day_1; Scenario.basis_day_1])]) ∧
  Scenario.basis_day_1 = ((4.50 - 4.30) * 100)%float ∧
  (Scenario.basis_day_1 =? 20)%float = false ∧
  (abs (Scenario.basis_day_1 - 20) <? 0x1p-45)%float = true ∧
  returned (Calc.calculate_treasury_sf_basis None Scenario.treasury
              Scenario.sf_without_day_2) =
    Ok (mkDF [1] [("Treasury_SF_2Y", [Scenario.basis_day_1])]).
Proof.
  split_and!; vm_compute; reflexivity.
Qed.

(** C5, as stated, fails: the result does not hold 20.0 on the two days,
    whether the day-2 SF rate is a missing cell or a missing row. *)
Lemma C5_counterexample :
  returned (Calc.calculate_treasury_sf_basis None Scenario.treasury Scenario.sf) ≠
    Ok (mkDF [1; 2] [("Treasury_SF_2Y", [20; 20]%float)]) ∧
  returned (Calc.calculate_treasury_sf_basis None Scenario.treasury
              Scenario.sf_without_day_2) ≠
    Ok (mkDF [1; 2] [("Treasury_SF_2Y", [20; 20]%float)]).
Proof.
  split; intros Hres.
  - apply (f_equal (λ r : result DataFrame,
                      match r with
                      | Ok df => match columns df with
                                 | [(_, v :: _)] => (v =? 20)%float
                                 | _ => false
                                 end
                      | Raise _ => false
                      end)) in Hres.
    vm_compute in Hres. discriminate Hres.
  - apply (f_equal (λ r : result DataFrame,
                      match r with
                      | Ok df => length (index df)
                      | Raise _ => 0%nat
                      end)) in Hres.
    vm_compute in Hres. discriminate Hres.
Qed.

(** * Further properties *)

(** ** Labels and their first word *)

Lemma contains_prefix sub s : String.prefix sub s = true → contains sub s = true.
Proof. intros H. destruct s; cbn [contains]; by rewrite H. Qed.

Lemma contains_append sub a b : contains sub (a +:+ sub +:+ b) = true.
Proof.
  induction a as [|x a IH].
  - change ("" +:+ sub +:+ b) with (sub +:+ b).
    apply contains_prefix, prefix_append.
  - rewrite append_cons. cbn [contains]. rewrite IH. apply orb_true_r.
Qed.

Lemma contains_nil sub : sub ≠ "" → contains sub "" = false.
Proof. by destruct sub. Qed.

(** The renaming of a label is that of its first word. *)
Lemma clean_label_first_word (mapping : gmap string string)
    (suffix ticker b rest : string) :
  ticker ≠ "" → no_blank ticker = true → b ∈ whitespace →
  contains "_PX_LAST" (ticker +:+ b +:+ rest) = true →
  Calc.clean_label mapping suffix (ticker +:+ b +:+ rest) =
    match mapping !! ticker with
    | Some tenor => tenor +:+ "_" +:+ suffix
    | None => ticker +:+ b +:+ rest
    end.
Proof.
  intros Hne Hw Hb Hin. unfold Calc.clean_label.
  by rewrite Hin, split_first_word.
Qed.

(** A no-break space ends the first word as a space does: the two
    Treasury columns below both go under the label of the 2Y tenor, and
    with that label twice in the merged table the calculator raises. *)
Example no_break_space :
  Calc.clean_label Calc.TREASURY_MAPPING "Treasury"
    ("USGG2YR" +:+ utf8 [194; 160]%nat +:+ "Index_PX_LAST") = "2Y_Treasury" ∧
  Calc.unmapped Calc.TREASURY_MAPPING
    ("USGG3YR" +:+ utf8 [226; 128; 131]%nat +:+ "Index_PX_LAST") ∧
  returned
    (Calc.calculate_treasury_sf_basis None
       (Calc.mkRaw (Some [1; 2])
          (mkDF [0; 1]
             [("USGG2YR Index_PX_LAST", [4.5; 4.75]%float);
              ("USGG2YR" +:+ utf8 [194; 160]%nat +:+ "Index_PX_LAST",
               [4.5; 4.75]%float)]))
       (Calc.mkRaw (Some [1; 2])
          (mkDF [0; 1] [("USOSFR2 Curncy_PX_LAST", [4.25; 4]%float)]))) =
    Raise ValueError.
Proof.
  split_and!.
  - vm_compute. reflexivity.
  - split; [vm_compute; reflexivity|]. intros ticker Hticker.
    vm_compute in Hticker. injection Hticker as <-. vm_compute. reflexivity.
  - vm_compute. reflexivity.
Qed.

Lemma clean_columns_lookup df mapping suffix n label values :
  columns df !! n = Some (label, values) →
  ∃ df',
    Calc.clean_columns df mapping suffix = Ok df' ∧
    index df' = index df ∧
    columns df' !! n = Some (Calc.clean_label mapping suffix label, values).
Proof.
  intros Hn. rewrite clean_columns_spec. eexists. split; [reflexivity|].
  cbn [index columns]. split; [done|]. by rewrite list_lookup_fmap, Hn.
Qed.

(** X1: the renaming of [clean_columns] goes by the first word of a
    label.  For a column whose label holds [_PX_LAST] and starts with a
    word without a blank, followed by a blank, one of those of
    [str.split()], the no-break space and the other blanks of Unicode
    among them, [clean_columns] returns a frame that has the column at
    its place, with its values: under the tenor of the word, an
    underscore and the suffix, when the word is a key of the mapping;
    under its own label when it is not.  What follows the first word
    plays no part. *)
Theorem clean_label_by_first_word (mapping : gmap string string)
    (suffix ticker b rest : string) (df : DataFrame)
    (n : nat) (values : list float) :
  ticker ≠ "" → no_blank ticker = true → b ∈ whitespace →
  contains "_PX_LAST" (ticker +:+ b +:+ rest) = true →
  columns df !! n = Some (ticker +:+ b +:+ rest, values) →
  ∃ df',
    Calc.clean_columns df mapping suffix = Ok df' ∧
    index df' = index df ∧
    columns df' !! n =
      Some (match mapping !! ticker with
            | Some tenor => tenor +:+ "_" +:+ suffix
            | None => ticker +:+ b +:+ rest
            end, values).
Proof.
  intros Hne Hw Hb Hin Hn.
  destruct (clean_columns_lookup df mapping suffix n _ _ Hn) as (df' & Hrun & Hi & Hcol).
  exists df'. split_and!; [done..|].
  by rewrite Hcol, clean_label_first_word.
Qed.

(** No key of the two mappings holds [_PX_LAST]. *)
Lemma mapping_keys_no_PX_LAST col :
  contains "_PX_LAST" col = true →
  Calc.TREASURY_MAPPING !! col = None ∧ Calc.SF_MAPPING !! col = None.
Proof.
  intros Hin. split.
  - destruct (Calc.TREASURY_MAPPING !! col) as [v|] eqn:Hm; [|done].
    apply elem_of_list_to_map_2 in Hm.
    repeat (apply elem_of_cons in Hm as [[= -> ->]|Hm]; [discriminate Hin|]).
    by apply elem_of_nil in Hm.
  - destruct (Calc.SF_MAPPING !! col) as [v|] eqn:Hm; [|done].
    apply elem_of_list_to_map_2 in Hm.
    repeat (apply elem_of_cons in Hm as [[= -> ->]|Hm]; [discriminate Hin|]).
    by apply elem_of_nil in Hm.
Qed.

Lemma clean_label_one_word (col : string) :
  no_blank col = true →
  Calc.clean_label Calc.TREASURY_MAPPING "Treasury" col = col ∧
  Calc.clean_label Calc.SF_MAPPING "SF" col = col.
Proof.
  intros Hw. unfold Calc.clean_label.
  destruct (contains "_PX_LAST" col) eqn:Hin; [|done].
  assert (col ≠ "") as Hne by (by intros ->).
  rewrite split_one_word by done.
  by destruct (mapping_keys_no_PX_LAST col Hin) as [-> ->].
Qed.

(** X2: a column whose label has no blank in it is never renamed by the
    two calls of [clean_columns] in [prepare_data]: the first word of the
    label is the whole label, and no key of the two mappings holds
    [_PX_LAST].  So a column named by the ticker word alone, as
    [USGG2YR_PX_LAST], comes back under its own label, from either call. *)
Theorem one_word_label_is_kept (df : DataFrame) (n : nat) (col : string)
    (values : list float) :
  no_blank col = true →
  columns df !! n = Some (col, values) →
  ∃ t s,
    Calc.clean_columns df Calc.TREASURY_MAPPING "Treasury" = Ok t ∧
    columns t !! n = Some (col, values) ∧
    Calc.clean_columns df Calc.SF_MAPPING "SF" = Ok s ∧
    columns s !! n = Some (col, values).
Proof.
  intros Hw Hn. destruct (clean_label_one_word col Hw) as [HT HS].
  destruct (clean_columns_lookup df Calc.TREASURY_MAPPING "Treasury" n _ _ Hn)
    as (t & Ht & _ & Hct).
  destruct (clean_columns_lookup df Calc.SF_MAPPING "SF" n _ _ Hn)
    as (s & Hs & _ & Hcs).
  exists t, s. rewrite HT in Hct. rewrite HS in Hcs. done.
Qed.

Lemma clean_label_by_first_word_witness :
  ∃ df',
    Calc.clean_columns
      (mkDF [1; 2]
         [("USOSFR10" +:+ utf8 [194; 160]%nat +:+ "Curncy_PX_LAST", [4.25; 4]%float);
          ("USOSFR3 Curncy_PX_LAST", [4; 4]%float)])
      Calc.SF_MAPPING "SF" = Ok df' ∧
    columns df' !! 0%nat = Some ("10Y_SF", [4.25; 4]%float).
Proof.
  destruct (clean_label_by_first_word Calc.SF_MAPPING "SF" "USOSFR10"
              (utf8 [194; 160]%nat) "Curncy_PX_LAST"
              (mkDF [1; 2]
                 [("USOSFR10" +:+ utf8 [194; 160]%nat +:+ "Curncy_PX_LAST",
                   [4.25; 4]%float);
                  ("USOSFR3 Curncy_PX_LAST", [4; 4]%float)])
              0%nat [4.25; 4]%float)
    as (df' & Hrun & _ & Hcol).
  - discriminate.
  - vm_compute. reflexivity.
  - apply (bool_decide_unpack _). vm_compute. exact I.
  - vm_compute. reflexivity.
  - reflexivity.
  - exists df'. split; [exact Hrun|]. rewrite Hcol. vm_compute. reflexivity.
Defined.

Lemma one_word_label_is_kept_witness :
  ∃ t s,
    Calc.clean_columns (mkDF [1] [("USGG2YR_PX_LAST", [4.5]%float)])
      Calc.TREASURY_MAPPING "Treasury" = Ok t ∧
    columns t !! 0%nat = Some ("USGG2YR_PX_LAST", [4.5]%float) ∧
    Calc.clean_columns (mkDF [1] [("USGG2YR_PX_LAST", [4.5]%float)])
      Calc.SF_MAPPING "SF" = Ok s ∧
    columns s !! 0%nat = Some ("USGG2YR_PX_LAST", [4.5]%float).
Proof.
  apply (one_word_label_is_kept (mkDF [1] [("USGG2YR_PX_LAST", [4.5]%float)]) 0%nat).
  - vm_compute. reflexivity.
  - reflexivity.
Defined.

(** ** The rows of the join *)

Lemma length_find_all k keys j : length (find_all k keys j) = occurrences k keys.
Proof.
  unfold occurrences. revert j. induction keys as [|k' keys IH]; intros j; [done|].
  cbn [find_all]. rewrite filter_cons. case_bool_decide; case_decide; try done.
  cbn [length]. by rewrite IH.
Qed.

Lemma find_all_lookup k keys j0 p :
  p ∈ find_all k keys j0 → (j0 ≤ p)%nat ∧ keys !! (p - j0)%nat = Some k.
Proof.
  revert j0. induction keys as [|k' keys IH]; intros j0; cbn [find_all].
  - by intros ?%elem_of_nil.
  - assert (p ∈ find_all k keys (S j0) → (j0 ≤ p)%nat ∧ (k' :: keys) !! (p - j0)%nat = Some k)
      as Hrest.
    { intros [Hle Hp]%IH. split; [lia|].
      replace (p - j0)%nat with (S (p - S j0)) by lia. done. }
    case_bool_decide as Hk; [|done].
    intros [->|Hp]%elem_of_cons; [|by apply Hrest].
    split; [done|]. rewrite Nat.sub_diag. by subst.
Qed.

Lemma occurrences_app d (l1 l2 : list Z) :
  occurrences d (l1 ++ l2) = (occurrences d l1 + occurrences d l2)%nat.
Proof. unfold occurrences. by rewrite filter_app, length_app. Qed.

Lemma occurrences_replicate d n k :
  occurrences d (replicate n k) = if bool_decide (k = d) then n else 0%nat.
Proof.
  unfold occurrences. destruct (decide (k = d)) as [Hk|Hk].
  - rewrite bool_decide_eq_true_2 by done.
    rewrite filter_all by (by intros x [-> _]%elem_of_replicate).
    apply length_replicate.
  - rewrite bool_decide_eq_false_2 by done.
    rewrite filter_none; [done|].
    apply Forall_forall. by intros x [-> _]%elem_of_replicate.
Qed.

Lemma occurrences_cons d k (l : list Z) :
  occurrences d (k :: l) =
    ((if bool_decide (k = d) then 1 else 0) + occurrences d l)%nat.
Proof.
  unfold occurrences. rewrite filter_cons. by case_decide; case_bool_decide.
Qed.

(** The keys of the joined rows: each left key, as often as the right side
    holds it, in the order of the left keys. *)
Lemma join_rows_index lkeys rkeys i :
  (join_rows lkeys rkeys i).*1 =
    lkeys ≫= λ k, replicate (occurrences k rkeys) k.
Proof.
  revert i. induction lkeys as [|k lkeys IH]; intros i; [done|].
  cbn [join_rows]. rewrite fmap_app, IH, <- list_fmap_compose.
  cbn [mbind list_bind]. f_equal.
  rewrite <- length_find_all with (j := 0%nat).
  induction (find_all k rkeys 0) as [|j js IHj]; [done|]. cbn. by f_equal.
Qed.

Lemma occurrences_join d lkeys rkeys :
  occurrences d (lkeys ≫= λ k, replicate (occurrences k rkeys) k) =
    (occurrences d lkeys * occurrences d rkeys)%nat.
Proof.
  induction lkeys as [|k lkeys IH]; [done|].
  cbn [mbind list_bind]. rewrite occurrences_app, occurrences_replicate, IH.
  rewrite occurrences_cons. case_bool_decide; subst; lia.
Qed.

Lemma occurrences_NoDup d (l : list Z) :
  NoDup l → occurrences d l = if bool_decide (d ∈ l) then 1%nat else 0%nat.
Proof.
  induction 1 as [|k l Hk Hnd IH]; [done|].
  rewrite occurrences_cons, IH.
  destruct (decide (k = d)) as [->|Hne].
  - rewrite bool_decide_eq_true_2 by done.
    rewrite (bool_decide_eq_false_2 (d ∈ l)) by done.
    by rewrite bool_decide_eq_true_2 by left.
  - rewrite (bool_decide_eq_false_2 (k = d)) by done.
    apply (f_equal (λ b : bool, if b then 1%nat else 0%nat)).
    apply bool_decide_ext. rewrite elem_of_cons.
    split; [tauto|]. intros [?|?]; [congruence|done].
Qed.

Lemma join_unique_right lkeys rkeys :
  NoDup rkeys →
  (lkeys ≫= λ k, replicate (occurrences k rkeys) k) = filter (λ k, k ∈ rkeys) lkeys.
Proof.
  intros Hnd. induction lkeys as [|k lkeys IH]; [done|].
  cbn [mbind list_bind]. rewrite IH, filter_cons, occurrences_NoDup by done.
  by case_bool_decide; case_decide.
Qed.

Lemma join_rows_elem lkeys rkeys i0 k i j :
  (k, (i, j)) ∈ join_rows lkeys rkeys i0 →
  (i0 ≤ i)%nat ∧ lkeys !! (i - i0)%nat = Some k ∧ rkeys !! j = Some k.
Proof.
  revert i0. induction lkeys as [|k0 lkeys IH]; intros i0; cbn [join_rows].
  - by intros ?%elem_of_nil.
  - intros [Hin|Hin]%elem_of_app.
    + apply list_elem_of_fmap in Hin as (j' & [= -> -> ->] & Hj).
      apply find_all_lookup in Hj as [_ Hj]. rewrite Nat.sub_0_r in Hj.
      split; [done|]. by rewrite Nat.sub_diag.
    + apply IH in Hin as (Hle & Hl & Hr). split_and!; [lia| |done].
      replace (i - i0)%nat with (S (i - S i0)) by lia. done.
Qed.

Lemma take_rows_lookup {A : Type} (ps : list nat) (v : list A) n p :
  Forall (λ p, p < length v)%nat ps → ps !! n = Some p →
  take_rows ps v !! n = v !! p.
Proof.
  unfold take_rows. intros Hall. revert n.
  induction Hall as [|q ps Hq _ IH]; intros n Hn; [done|].
  destruct (lookup_lt_is_Some_2 v q Hq) as [a Ha].
  cbn [omap list_omap]. rewrite Ha. destruct n as [|n]; cbn in *.
  - by injection Hn as <-.
  - by apply IH.
Qed.

Lemma length_take_rows {A : Type} (ps : list nat) (v : list A) :
  Forall (λ p, p < length v)%nat ps → length (take_rows ps v) = length ps.
Proof.
  unfold take_rows. induction 1 as [|q ps Hq _ IH]; [done|].
  destruct (lookup_lt_is_Some_2 v q Hq) as [a Ha].
  cbn [omap list_omap]. rewrite Ha. cbn. by rewrite IH.
Qed.

(** The columns of a merge that returns. *)
Lemma merge_inner_columns left right m :
  merge_inner left right = Ok m →
  let rows := join_rows (index left) (index right) 0 in
  let overlap := filter (λ x, x ∈ labels right) (labels left) in
  index m = rows.*1 ∧
  columns m =
    ((λ c, (add_suffix overlap "_x" c.1,
            take_rows ((λ r : Z * (nat * nat), r.2.1) <$> rows) c.2)) <$> columns left) ++
    ((λ c, (add_suffix overlap "_y" c.1,
            take_rows ((λ r : Z * (nat * nat), r.2.2) <$> rows) c.2)) <$> columns right).
Proof.
  unfold merge_inner. destruct (_ || _); [raised|]. by intros [= <-].
Qed.

Lemma add_suffix_cases overlap suffix x :
  add_suffix overlap suffix x = x ∨ add_suffix overlap suffix x = x +:+ suffix.
Proof. unfold add_suffix. case_bool_decide; auto. Qed.

Lemma join_rows_positions lkeys rkeys :
  Forall (λ p, p < length lkeys)%nat
    ((λ r : Z * (nat * nat), r.2.1) <$> join_rows lkeys rkeys 0) ∧
  Forall (λ p, p < length rkeys)%nat
    ((λ r : Z * (nat * nat), r.2.2) <$> join_rows lkeys rkeys 0).
Proof.
  split; apply Forall_fmap, Forall_forall; intros [k [i j]] Hr;
    apply join_rows_elem in Hr as (_ & Hl & Hr); cbn;
    rewrite ?Nat.sub_0_r in Hl; by eapply lookup_lt_Some.
Qed.

Lemma columns_cleaned raw mapping suffix :
  columns (Calc.cleaned raw mapping suffix) =
    (λ c, (Calc.clean_label mapping suffix c.1, c.2)) <$> columns (Calc.frame raw).
Proof. done. Qed.

(** X3: each row of the merged table pairs a row of the Treasury input
    with a row of the SF input of the same date.  For inputs whose columns
    are as long as their dates, when [prepare_data] returns: the merged
    table is rectangular; it has the columns of the Treasury input, then
    those of the SF input; and for each of its rows there is a row of each
    input with the date of the row, such that every merged column holds,
    in that row, the value its input column holds in the paired row.  The
    label of a merged column is the renamed label, with [_x] or [_y] after
    it when both inputs carry it. *)
Theorem prepare_data_pairs_rows (t s : Calc.RawFrame) (merged : DataFrame) :
  Calc.well_formed t → Calc.well_formed s →
  Calc.prepare_data t s = Ok merged →
  rectangular merged ∧
  length (columns merged) =
    (length (columns (Calc.frame t)) + length (columns (Calc.frame s)))%nat ∧
  ∀ n d, index merged !! n = Some d →
    ∃ i j,
      Calc.dates t !! i = Some d ∧ Calc.dates s !! j = Some d ∧
      (∀ m l v, columns (Calc.frame t) !! m = Some (l, v) →
         ∃ l' v' x,
           columns merged !! m = Some (l', v') ∧
           v !! i = Some x ∧ v' !! n = Some x ∧
           (l' = Calc.clean_label Calc.TREASURY_MAPPING "Treasury" l ∨
            l' = Calc.clean_label Calc.TREASURY_MAPPING "Treasury" l +:+ "_x")) ∧
      (∀ m l v, columns (Calc.frame s) !! m = Some (l, v) →
         ∃ l' v' x,
           columns merged !! (length (columns (Calc.frame t)) + m)%nat = Some (l', v') ∧
           v !! j = Some x ∧ v' !! n = Some x ∧
           (l' = Calc.clean_label Calc.SF_MAPPING "SF" l ∨
            l' = Calc.clean_label Calc.SF_MAPPING "SF" l +:+ "_y")).
Proof.
  intros Ht Hs. rewrite prepare_data_spec. intros Hm.
  apply merge_inner_columns in Hm as [Hi Hc]. cbn zeta in Hi, Hc.
  cbn [Calc.cleaned index] in Hi, Hc. rewrite !columns_cleaned in Hc.
  set (rows := join_rows (Calc.dates t) (Calc.dates s) 0) in *.
  destruct (join_rows_positions (Calc.dates t) (Calc.dates s)) as [Hlpos Hrpos].
  fold rows in Hlpos, Hrpos.
  unfold Calc.well_formed in Ht, Hs. rewrite Forall_forall in Ht, Hs.
  split_and!.
  - unfold rectangular. rewrite Hc, Hi, length_fmap. apply Forall_app. split.
    + rewrite <- list_fmap_compose. apply Forall_fmap, Forall_forall.
      intros c Hcin. cbn. rewrite length_take_rows, length_fmap; [done|].
      by rewrite (Ht c Hcin).
    + rewrite <- list_fmap_compose. apply Forall_fmap, Forall_forall.
      intros c Hcin. cbn. rewrite length_take_rows, length_fmap; [done|].
      by rewrite (Hs c Hcin).
  - by rewrite Hc, length_app, !length_fmap.
  - intros n d Hn. rewrite Hi, list_lookup_fmap in Hn.
    destruct (rows !! n) as [[k [i j]]|] eqn:Hrow; [|done].
    cbn in Hn. injection Hn as ->.
    pose proof (list_elem_of_lookup_2 _ _ _ Hrow) as Hin.
    apply join_rows_elem in Hin as (_ & Hl & Hr). rewrite Nat.sub_0_r in Hl.
    exists i, j. split_and!; [done..| |].
    + intros m l v Hcol.
      pose proof (list_elem_of_lookup_2 _ _ _ Hcol) as Hcin.
      pose proof (Ht _ Hcin) as Hlen. cbn in Hlen.
      destruct (lookup_lt_is_Some_2 v i) as [x Hx].
      { rewrite Hlen. by eapply lookup_lt_Some. }
      eexists _, _, x. split_and!.
      * rewrite Hc, lookup_app_l
          by (rewrite !length_fmap; by eapply lookup_lt_Some).
        rewrite <- list_fmap_compose, list_lookup_fmap, Hcol. reflexivity.
      * done.
      * cbn. rewrite (take_rows_lookup _ _ n i); [done| |].
        -- by rewrite Hlen.
        -- by rewrite list_lookup_fmap, Hrow.
      * apply add_suffix_cases.
    + intros m l v Hcol.
      pose proof (list_elem_of_lookup_2 _ _ _ Hcol) as Hcin.
      pose proof (Hs _ Hcin) as Hlen. cbn in Hlen.
      destruct (lookup_lt_is_Some_2 v j) as [x Hx].
      { rewrite Hlen. by eapply lookup_lt_Some. }
      eexists _, _, x. split_and!.
      * rewrite Hc, lookup_app_r by (rewrite !length_fmap; lia).
        rewrite !length_fmap.
        replace (length (columns (Calc.frame t)) + m - length (columns (Calc.frame t)))%nat
          with m by lia.
        rewrite <- list_fmap_compose, list_lookup_fmap, Hcol. reflexivity.
      * done.
      * cbn. rewrite (take_rows_lookup _ _ n j); [done| |].
        -- by rewrite Hlen.
        -- by rewrite list_lookup_fmap, Hrow.
      * apply add_suffix_cases.
Qed.

Lemma prepare_data_pairs_rows_witness :
  rectangular (mkDF [2] [("2Y_Treasury", [4.75]%float); ("2Y_SF", [4.25]%float)]) ∧
  ∀ n d, [2] !! n = Some d →
    ∃ i j, [1; 2] !! i = Some d ∧ [2; 3] !! j = Some d.
Proof.
  destruct (prepare_data_pairs_rows
              (Calc.mkRaw (Some [1; 2])
                 (mkDF [0; 1] [("USGG2YR Index_PX_LAST", [4.5; 4.75]%float)]))
              (Calc.mkRaw (Some [2; 3])
                 (mkDF [0; 1] [("USOSFR2 Curncy_PX_LAST", [4.25; 4]%float)]))
              (mkDF [2] [("2Y_Treasury", [4.75]%float); ("2Y_SF", [4.25]%float)]))
    as (Hrect & _ & Hrows).
  - repeat constructor.
  - repeat constructor.
  - vm_compute. reflexivity.
  - split; [exact Hrect|]. intros n d Hn.
    destruct (Hrows n d Hn) as (i & j & Hi & Hj & _). by exists i, j.
Defined.

(** X4: the dates of the merged table.  When [prepare_data] returns, the
    index holds every date of the Treasury input as often as the SF input
    has it, in the order of the Treasury input; so a date is there once
    for each pair of rows, one of each input, with that date.  When no
    date is twice in the SF input, the index is the Treasury dates that
    the SF input has too, in their order; with no date twice on either
    side, no date is twice in the merged table; and ascending Treasury
    dates give ascending merged dates. *)
Theorem merged_dates (t s : Calc.RawFrame) (merged : DataFrame) :
  Calc.prepare_data t s = Ok merged →
  index merged =
    (Calc.dates t ≫= λ d, replicate (occurrences d (Calc.dates s)) d) ∧
  (∀ d, occurrences d (index merged) =
        (occurrences d (Calc.dates t) * occurrences d (Calc.dates s))%nat) ∧
  (NoDup (Calc.dates s) →
   index merged = filter (λ d, d ∈ Calc.dates s) (Calc.dates t)) ∧
  (NoDup (Calc.dates t) → NoDup (Calc.dates s) → NoDup (index merged)) ∧
  (is_monotonic_increasing (Calc.dates t) = true →
   is_monotonic_increasing (index merged) = true).
Proof.
  intros Hm. pose proof (prepare_data_index _ _ _ Hm) as Hi.
  assert (index merged =
            (Calc.dates t ≫= λ d, replicate (occurrences d (Calc.dates s)) d)) as Hbind.
  { by rewrite Hi, join_rows_index. }
  split_and!.
  - exact Hbind.
  - intros d. rewrite Hbind. apply occurrences_join.
  - intros Hs. rewrite Hbind. by apply join_unique_right.
  - intros Ht Hs. rewrite Hbind, join_unique_right by done. by apply NoDup_filter.
  - intros Ht. rewrite Hi. by apply join_rows_monotonic.
Qed.

Lemma merged_dates_witness :
  index (mkDF [3; 3; 1] [("2Y_Treasury", [4.5; 4.5; 4.75]%float);
                         ("2Y_SF", [4.25; 4.25; 4]%float)]) =
    ([3; 1; 2] ≫= λ d, replicate (occurrences d [1; 3; 3]) d) ∧
  occurrences 3 [3; 3; 1] =
    Nat.mul (occurrences 3 [3; 1; 2]) (occurrences 3 [1; 3; 3]).
Proof.
  pose proof (merged_dates
    (Calc.mkRaw (Some [3; 1; 2])
       (mkDF [0; 1; 2] [("USGG2YR Index_PX_LAST", [4.5; 4.75; 5]%float)]))
    (Calc.mkRaw (Some [1; 3; 3])
       (mkDF [0; 1; 2] [("USOSFR2 Curncy_PX_LAST", [4; 4.25; 4.25]%float)]))
    (mkDF [3; 3; 1] [("2Y_Treasury", [4.5; 4.5; 4.75]%float);
                     ("2Y_SF", [4.25; 4.25; 4]%float)])) as H.
  destruct H as (H1 & H2 & _).
  - vm_compute. reflexivity.
  - split; [exact H1|exact (H2 3)].
Defined.

(** ** Rectangular frames *)

Lemma merged_rectangular t s merged :
  Calc.well_formed t → Calc.well_formed s →
  Calc.prepare_data t s = Ok merged → rectangular merged.
Proof.
  intros Ht Hs. rewrite prepare_data_spec. intros Hm.
  apply merge_inner_columns in Hm as [Hi Hc]. cbn zeta in Hi, Hc.
  cbn [Calc.cleaned index] in Hi, Hc. rewrite !columns_cleaned in Hc.
  destruct (join_rows_positions (Calc.dates t) (Calc.dates s)) as [Hlpos Hrpos].
  unfold Calc.well_formed in Ht, Hs. rewrite Forall_forall in Ht, Hs.
  unfold rectangular. rewrite Hc, Hi, length_fmap. apply Forall_app.
  split; rewrite <- list_fmap_compose; apply Forall_fmap, Forall_forall;
    intros c Hcin; cbn; rewrite length_take_rows, length_fmap; try done.
  - by rewrite (Ht c Hcin).
  - by rewrite (Hs c Hcin).
Qed.

Lemma setitem_rectangular df l v :
  rectangular df → length v = length (index df) → rectangular (frame_setitem df l v).
Proof.
  unfold rectangular, frame_setitem. intros Hrect Hv.
  destruct (in_columns l _); cbn [index columns].
  - apply Forall_fmap. eapply Forall_impl; [exact Hrect|].
    intros c Hc. cbn. by case_bool_decide.
  - apply Forall_app. split; [done|]. by repeat constructor.
Qed.

Lemma tenor_step_rectangular df t df' :
  rectangular df → Calc.tenor_step df t = Ok df' → rectangular df'.
Proof.
  intros Hrect. unfold Calc.tenor_step.
  destruct (odict_getitem _ _); cbn [mbind result_bind]; [|raised].
  destruct (_ && _); [|by intros [= <-]].
  destruct (frame_getitem df (t +:+ "_Treasury")) as [treas|] eqn:Ht;
    cbn [mbind result_bind]; [|raised].
  destruct (frame_getitem df (t +:+ "_SF")) as [sf|] eqn:Hs;
    cbn [mbind result_bind]; [|raised].
  intros [= <-]. apply setitem_rectangular; [done|].
  apply getitem_elem in Ht, Hs. unfold rectangular in Hrect.
  rewrite Forall_forall in Hrect.
  pose proof (Hrect _ Ht) as Hlt. pose proof (Hrect _ Hs) as Hls. cbn in Hlt, Hls.
  unfold series_mul, series_sub. rewrite length_fmap, length_zip_with. lia.
Qed.

Lemma compute_frame_rectangular df df' :
  rectangular df → Calc.compute_frame df = Ok df' → rectangular df'.
Proof.
  unfold Calc.compute_frame. generalize Calc.tenors. intros ts. revert df.
  induction ts as [|t ts IH]; intros df Hrect; cbn [foldM].
  - by intros [= <-].
  - destruct (Calc.tenor_step df t) as [df1|] eqn:Hs; cbn [mbind result_bind]; [|raised].
    apply IH. by eapply tenor_step_rectangular.
Qed.

Lemma length_slice {A : Type} lo hi (l : list A) :
  length (slice lo hi l) = (min (hi - lo) (length l - lo))%nat.
Proof. unfold slice. by rewrite length_take, length_drop. Qed.

Lemma frame_loc_rectangular df start stop cut :
  rectangular df → frame_loc df start stop = Ok cut → rectangular cut.
Proof.
  intros Hrect. unfold frame_loc.
  destruct (slice_locs _ _ _) as [b|]; cbn [mbind result_bind]; [|raised].
  intros [= <-]. unfold rectangular in *. cbn [index columns].
  apply Forall_fmap. eapply Forall_impl; [exact Hrect|].
  intros c Hc. cbn. rewrite !length_slice. by rewrite Hc.
Qed.

(** What a selection that returns holds. *)
Lemma frame_select_spec df names picked :
  frame_select df names = Ok picked →
  index picked = index df ∧
  columns picked = (names ≫= λ n, named n (columns df)) ∧
  names ⊆ labels df.
Proof.
  unfold frame_select. destruct (forallb _ _) eqn:Hall; [|raised].
  intros [= <-]. split_and!; [done..|].
  intros n Hn. rewrite forallb_forall in Hall.
  specialize (Hall n). rewrite <- list_elem_of_In in Hall.
  apply Hall in Hn. by apply bool_decide_eq_true in Hn.
Qed.

Lemma frame_select_rectangular df names picked :
  rectangular df → frame_select df names = Ok picked → rectangular picked.
Proof.
  intros Hrect (Hi & Hc & _)%frame_select_spec.
  unfold rectangular in *. rewrite Hi, Hc. apply Forall_forall.
  intros c (n & Hcn & _)%list_elem_of_bind.
  apply list_elem_of_filter in Hcn as [_ Hcn].
  rewrite Forall_forall in Hrect. by apply Hrect.
Qed.

Lemma ffill_rectangular df : rectangular df → rectangular (ffill df).
Proof.
  unfold rectangular, ffill. cbn [index columns]. intros Hrect.
  apply Forall_fmap. eapply Forall_impl; [exact Hrect|].
  intros c Hc. cbn. unfold ffill_column. by rewrite length_ffill_from.
Qed.

Lemma basis_frame_rectangular e t s out :
  Calc.well_formed t → Calc.well_formed s →
  Calc.basis_frame e t s = Ok out → rectangular out.
Proof.
  intros Ht Hs. unfold Calc.basis_frame.
  destruct (Calc.prepare_data t s) as [merged|] eqn:Hm; cbn [mbind result_bind]; [|raised].
  pose proof (merged_rectangular _ _ _ Ht Hs Hm) as Hrect.
  destruct (match e with Some _ => _ | None => _ end) as [cut|] eqn:Hcut;
    cbn [mbind result_bind]; [|raised].
  assert (rectangular cut) as Hrc.
  { destruct e as [date|]; [by eapply frame_loc_rectangular|by injection Hcut as <-]. }
  destruct (Calc.compute_frame cut) as [df|] eqn:Hdf; cbn [mbind result_bind]; [|raised].
  intros Hsel. eapply frame_select_rectangular; [|exact Hsel].
  by eapply compute_frame_rectangular.
Qed.

(** ** The columns of a selection *)

Lemma named_named l n cols :
  filter (λ c : string * list float, c.1 = l) (named n cols) =
    if bool_decide (n = l) then named l cols else [].
Proof.
  unfold named. case_bool_decide as Hn.
  - subst. etrans; [apply list_filter_filter|]. apply list_filter_iff. tauto.
  - apply filter_none, Forall_forall. intros c [Hc _]%list_elem_of_filter. congruence.
Qed.

Lemma named_select l (names : list string) cols :
  NoDup names →
  named l (names ≫= λ n, named n cols) =
    if bool_decide (l ∈ names) then named l cols else [].
Proof.
  induction 1 as [|n names Hn Hnd IH]; [done|].
  cbn [mbind list_bind]. unfold named at 1. rewrite filter_app.
  fold (named l (names ≫= λ n, named n cols)). rewrite IH, named_named.
  destruct (decide (n = l)) as [->|Hne].
  - rewrite bool_decide_eq_true_2 by done.
    rewrite (bool_decide_eq_false_2 (l ∈ names)) by done.
    rewrite bool_decide_eq_true_2 by left. apply app_nil_r.
  - rewrite (bool_decide_eq_false_2 (n = l)) by done. cbn [app].
    apply (f_equal (λ b : bool, if b then named l cols else [])).
    apply bool_decide_ext. rewrite elem_of_cons.
    split; [tauto|]. intros [?|?]; [congruence|done].
Qed.

Lemma frame_select_column df names picked l :
  NoDup names → frame_select df names = Ok picked → l ∈ names →
  column picked l = column df l.
Proof.
  intros Hnd (_ & Hc & _)%frame_select_spec Hl.
  unfold column. by rewrite Hc, named_select, bool_decide_eq_true_2.
Qed.

Lemma frame_select_labels df names picked :
  NoDup (labels df) → frame_select df names = Ok picked → labels picked = names.
Proof.
  intros Hnd (_ & Hc & Hsub)%frame_select_spec. unfold labels. rewrite Hc.
  clear Hc. induction names as [|n names IH]; [done|].
  cbn [mbind list_bind]. rewrite fmap_app, IH by (intros x Hx; apply Hsub; by right).
  destruct (named_unique n (columns df) Hnd) as [v ->]; [apply Hsub; left|]. done.
Qed.

(** ** The steps of [calculate_treasury_sf_basis] *)

Lemma basis_frame_steps e t s :
  NoDup (Calc.merged_labels t s) →
  e = None ∨ is_monotonic_increasing (Calc.dates t) = true →
  ∃ merged cut df out,
    Calc.prepare_data t s = Ok merged ∧
    labels merged = Calc.merged_labels t s ∧
    match e with
    | Some date => frame_loc merged None (Some date)
    | None => Ok merged
    end = Ok cut ∧
    labels cut = labels merged ∧
    Calc.compute_frame cut = Ok df ∧
    Calc.loop_result Calc.tenors cut df ∧
    frame_select df (filter (λ col, col ∈ labels df)
                            (odict_values Calc.OUTPUT_COLUMNS)) = Ok out ∧
    Calc.basis_frame e t s = Ok out.
Proof.
  intros Hnd Hsorted.
  destruct (prepare_data_distinct t s Hnd) as (merged & Hm & Hi & Hl & _).
  assert (∃ cut,
            match e with
            | Some date => frame_loc merged None (Some date)
            | None => Ok merged
            end = Ok cut ∧ labels cut = labels merged) as (cut & Hcut & Hlc).
  { destruct e as [date|]; [|by exists merged].
    destruct Hsorted as [|Hsorted]; [done|].
    apply frame_loc_sorted. rewrite Hi. by apply join_rows_monotonic. }
  destruct (compute_frame_spec cut) as (df & Hdf & Hloop); [by rewrite Hlc, Hl|].
  destruct (frame_select_present df (odict_values Calc.OUTPUT_COLUMNS))
    as (out & Hsel & _).
  exists merged, cut, df, out. split_and!; [done..|].
  unfold Calc.basis_frame. rewrite Hm. cbn [mbind result_bind].
  rewrite Hcut. cbn [mbind result_bind]. rewrite Hdf. cbn [mbind result_bind].
  exact Hsel.
Qed.

Lemma both_labels df df' t :
  labels df' = labels df → Calc.both df' t = Calc.both df t.
Proof. unfold Calc.both. by intros ->. Qed.

Lemma output_values : odict_values Calc.OUTPUT_COLUMNS = Calc.output_label <$> Calc.tenors.
Proof. reflexivity. Qed.

Lemma filter_fmap {A B : Type} (f : A → B) (P : B → Prop) `{!∀ x, Decision (P x)}
    (l : list A) :
  filter P (f <$> l) = f <$> filter (λ a, P (f a)) l.
Proof.
  induction l as [|a l IH]; [done|].
  rewrite fmap_cons, !filter_cons. destruct (decide (P (f a))); by rewrite IH.
Qed.

(** The basis labels a frame has after the loop. *)
Lemma loop_output_labels cut df t :
  Calc.loop_result Calc.tenors cut df → t ∈ Calc.tenors →
  Calc.output_label t ∈ labels df ↔
    Calc.both cut t = true ∨ Calc.output_label t ∈ labels cut.
Proof.
  intros [_ Hl _ _ _] Ht. rewrite Hl, elem_of_app, list_elem_of_filter, list_elem_of_fmap.
  split.
  - intros [?|[_ (t' & Heq & Ht')]]; [by right|].
    apply output_label_inj in Heq as <-. apply assigned_iff in Ht' as [_ ?]. by left.
  - intros [Hb|?]; [|by left].
    destruct (decide (Calc.output_label t ∈ labels cut)); [by left|right].
    split; [done|]. exists t. split; [done|]. by apply assigned_iff.
Qed.

(** X5: the columns of the result.  For inputs whose labels are distinct
    after the renaming (and whose Treasury dates ascend, when an end date
    is given), [calculate_treasury_sf_basis] returns a frame that has one
    column for each tenor whose two rate columns are in the merged table,
    or whose basis label an input column already carried; the columns
    stand in the order 2Y, 5Y, 10Y, 20Y, 30Y, whatever the order of the
    input columns; no label is there twice; and the frame is rectangular
    when the columns of the inputs are as long as their dates. *)
Theorem result_columns (e : option Z) (t s : Calc.RawFrame) :
  NoDup (Calc.merged_labels t s) →
  e = None ∨ is_monotonic_increasing (Calc.dates t) = true →
  ∃ merged out,
    Calc.prepare_data t s = Ok merged ∧
    returned (Calc.calculate_treasury_sf_basis e t s) = Ok out ∧
    labels out =
      Calc.output_label <$>
        filter (λ tenor, Calc.both merged tenor = true ∨
                         Calc.output_label tenor ∈ labels merged) Calc.tenors ∧
    NoDup (labels out) ∧
    (Calc.well_formed t → Calc.well_formed s → rectangular out).
Proof.
  intros Hnd Hsorted.
  destruct (basis_frame_steps e t s Hnd Hsorted)
    as (merged & cut & df & out & Hm & Hl & Hcut & Hlc & Hdf & Hloop & Hsel & Hout).
  assert (labels out =
            Calc.output_label <$>
              filter (λ tenor, Calc.both merged tenor = true ∨
                               Calc.output_label tenor ∈ labels merged) Calc.tenors)
    as Hlabels.
  { rewrite (frame_select_labels _ _ _ (Calc.loop_NoDup _ _ _ Hloop) Hsel).
    rewrite output_values, filter_fmap. f_equal. apply filter_ext_in.
    intros tenor Htenor. rewrite (loop_output_labels cut df) by done.
    by rewrite (both_labels merged cut), Hlc. }
  exists merged, (ffill out). split_and!.
  - done.
  - rewrite calculate_returned, Hout. done.
  - by rewrite labels_ffill.
  - rewrite labels_ffill, Hlabels. apply NoDup_fmap_2_strong.
    + intros x y _ _. apply output_label_inj.
    + apply NoDup_filter, NoDup_tenors.
  - intros Ht Hs. apply ffill_rectangular.
    exact (basis_frame_rectangular e t s out Ht Hs Hout).
Qed.

Lemma result_columns_witness :
  ∃ merged out,
    Calc.prepare_data
      (Calc.mkRaw (Some [1; 2])
         (mkDF [0; 1] [("USGG5YR Index_PX_LAST", [4.5; 4.75]%float);
                       ("USGG2YR Index_PX_LAST", [4.25; 4.5]%float);
                       ("USGG30YR Index_PX_LAST", [4; 4]%float)]))
      (Calc.mkRaw (Some [1; 2])
         (mkDF [0; 1] [("USOSFR5 Curncy_PX_LAST", [4.25; 4]%float);
                       ("USOSFR2 Curncy_PX_LAST", [4; 4]%float)]))
      = Ok merged ∧
    returned
      (Calc.calculate_treasury_sf_basis (Some 2)
         (Calc.mkRaw (Some [1; 2])
            (mkDF [0; 1] [("USGG5YR Index_PX_LAST", [4.5; 4.75]%float);
                          ("USGG2YR Index_PX_LAST", [4.25; 4.5]%float);
                          ("USGG30YR Index_PX_LAST", [4; 4]%float)]))
         (Calc.mkRaw (Some [1; 2])
            (mkDF [0; 1] [("USOSFR5 Curncy_PX_LAST", [4.25; 4]%float);
                          ("USOSFR2 Curncy_PX_LAST", [4; 4]%float)])))
      = Ok out ∧
    labels out = ["Treasury_SF_2Y"; "Treasury_SF_5Y"].
Proof.
  destruct (result_columns (Some 2)
      (Calc.mkRaw (Some [1; 2])
         (mkDF [0; 1] [("USGG5YR Index_PX_LAST", [4.5; 4.75]%float);
                       ("USGG2YR Index_PX_LAST", [4.25; 4.5]%float);
                       ("USGG30YR Index_PX_LAST", [4; 4]%float)]))
      (Calc.mkRaw (Some [1; 2])
         (mkDF [0; 1] [("USOSFR5 Curncy_PX_LAST", [4.25; 4]%float);
                       ("USOSFR2 Curncy_PX_LAST", [4; 4]%float)])))
    as (merged & out & Hm & Hout & Hlabels & _).
  - apply (bool_decide_unpack _). vm_compute. exact I.
  - right. reflexivity.
  - exists merged, out. split; [exact Hm|]. split; [exact Hout|].
    rewrite Hlabels. vm_compute in Hm. injection Hm as <-. vm_compute. reflexivity.
Defined.

(** ** The first rows of a frame *)

Lemma slice_0 {A : Type} n (l : list A) : slice 0 n l = take n l.
Proof. unfold slice. by rewrite Nat.sub_0_r. Qed.

(** A cut with no start keeps the first rows, up to the bound. *)
Lemma frame_loc_head df stop cut :
  frame_loc df None stop = Ok cut → ∃ n, cut = head_rows n df.
Proof.
  unfold frame_loc, slice_locs. cbn [mbind result_bind].
  destruct (match stop with Some _ => _ | None => _ end) as [hi|];
    cbn [mbind result_bind]; [|raised].
  intros [= <-]. exists hi. unfold head_rows. rewrite slice_0. f_equal.
  apply list_fmap_ext. intros i c _. by rewrite slice_0.
Qed.

Lemma frame_loc_sorted_head df e :
  is_monotonic_increasing (index df) = true →
  frame_loc df None (Some e) =
    Ok (head_rows (searchsorted (index df) e side_right) df).
Proof.
  intros Hm. unfold frame_loc. rewrite slice_locs_sorted by done.
  cbn [mbind result_bind sorted_bounds fst snd]. unfold head_rows.
  rewrite slice_0. do 2 f_equal. apply list_fmap_ext. intros i c _. by rewrite slice_0.
Qed.

Lemma labels_head_rows n df : labels (head_rows n df) = labels df.
Proof.
  unfold labels, head_rows. cbn [columns]. rewrite <- list_fmap_compose.
  by apply list_fmap_ext.
Qed.

Lemma named_head_rows n df l :
  named l (columns (head_rows n df)) =
    (λ c, (c.1, take n c.2)) <$> named l (columns df).
Proof.
  unfold named, head_rows. cbn [columns].
  induction (columns df) as [|c cols IH]; [done|].
  rewrite fmap_cons, !filter_cons. cbn [fst].
  destruct (decide (c.1 = l)); by rewrite IH.
Qed.

Lemma getitem_head_rows n df l :
  frame_getitem (head_rows n df) l = (v ← frame_getitem df l; Ok (take n v)).
Proof.
  unfold frame_getitem. rewrite named_head_rows.
  by destruct (named l (columns df)) as [|c [|]].
Qed.

Lemma column_head_rows n df l :
  column (head_rows n df) l = take n <$> column df l.
Proof.
  unfold column. rewrite named_head_rows.
  by destruct (named l (columns df)) as [|c [|]].
Qed.

Lemma setitem_head_rows n df l v :
  frame_setitem (head_rows n df) l (take n v) = head_rows n (frame_setitem df l v).
Proof.
  unfold frame_setitem. rewrite labels_head_rows.
  destruct (in_columns l (labels df)); unfold head_rows; cbn [index columns]; f_equal.
  - rewrite <- !list_fmap_compose. apply list_fmap_ext. intros i c _. cbn.
    by case_bool_decide.
  - by rewrite fmap_app.
Qed.

Lemma take_zip_with {A B C : Type} (f : A → B → C) n (a : list A) (b : list B) :
  zip_with f (take n a) (take n b) = take n (zip_with f a b).
Proof.
  revert a b. induction n as [|n IH]; intros [|x a] [|z b]; cbn; try done.
  by rewrite IH.
Qed.

Lemma basis_take n (treas sf : list float) k :
  series_mul (series_sub (take n treas) (take n sf)) k =
    take n (series_mul (series_sub treas sf) k).
Proof. unfold series_mul, series_sub. by rewrite take_zip_with, fmap_take. Qed.

Lemma tenor_step_head_rows n df t :
  Calc.tenor_step (head_rows n df) t =
    (df' ← Calc.tenor_step df t; Ok (head_rows n df')).
Proof.
  unfold Calc.tenor_step.
  destruct (odict_getitem _ _); cbn [mbind result_bind]; [|done].
  rewrite labels_head_rows. destruct (_ && _); [|done].
  rewrite !getitem_head_rows.
  destruct (frame_getitem df (t +:+ "_Treasury")) as [treas|];
    cbn [mbind result_bind]; [|done].
  destruct (frame_getitem df (t +:+ "_SF")) as [sf|]; cbn [mbind result_bind]; [|done].
  by rewrite basis_take, setitem_head_rows.
Qed.

Lemma compute_frame_head_rows n df :
  Calc.compute_frame (head_rows n df) =
    (df' ← Calc.compute_frame df; Ok (head_rows n df')).
Proof.
  unfold Calc.compute_frame. generalize Calc.tenors. intros ts. revert df.
  induction ts as [|t ts IH]; intros df; cbn [foldM]; [done|].
  rewrite tenor_step_head_rows.
  destruct (Calc.tenor_step df t) as [df1|]; cbn [mbind result_bind]; [|done].
  apply IH.
Qed.

Lemma select_head_rows n df (names : list string) :
  (names ≫= λ x, named x (columns (head_rows n df))) =
    (λ c, (c.1, take n c.2)) <$> (names ≫= λ x, named x (columns df)).
Proof.
  induction names as [|x names IH]; [done|].
  cbn [mbind list_bind]. by rewrite fmap_app, <- IH, named_head_rows.
Qed.

Lemma frame_select_head_rows n df names :
  frame_select (head_rows n df) names =
    (picked ← frame_select df names; Ok (head_rows n picked)).
Proof.
  unfold frame_select. rewrite labels_head_rows.
  destruct (forallb _ _); cbn [mbind result_bind]; [|done].
  rewrite select_head_rows. done.
Qed.

Lemma ffill_from_take last n l :
  ffill_from last (take n l) = take n (ffill_from last l).
Proof.
  revert last l. induction n as [|n IH]; intros last [|x l]; cbn; try done.
  destruct (is_nan x); cbn; by rewrite IH.
Qed.

Lemma ffill_head_rows n df : ffill (head_rows n df) = head_rows n (ffill df).
Proof.
  unfold ffill, head_rows. cbn [index columns]. f_equal.
  rewrite <- !list_fmap_compose. apply list_fmap_ext. intros i c _. cbn.
  unfold ffill_column. by rewrite ffill_from_take.
Qed.

(** The frame built from the first rows of a table is the first rows of
    the frame built from the table. *)
Lemma basis_of_head_rows n cut :
  (df ← Calc.compute_frame (head_rows n cut);
   frame_select df (filter (λ col, col ∈ labels df)
                           (odict_values Calc.OUTPUT_COLUMNS))) =
  (out ← (df ← Calc.compute_frame cut;
          frame_select df (filter (λ col, col ∈ labels df)
                                  (odict_values Calc.OUTPUT_COLUMNS)));
   Ok (head_rows n out)).
Proof.
  rewrite compute_frame_head_rows.
  destruct (Calc.compute_frame cut) as [df|]; cbn [mbind result_bind]; [|done].
  by rewrite labels_head_rows, frame_select_head_rows.
Qed.

(** ** The end date *)

Lemma basis_frame_index_eq t s full :
  Calc.basis_frame None t s = Ok full →
  ∃ merged, Calc.prepare_data t s = Ok merged ∧ index full = index merged.
Proof.
  unfold Calc.basis_frame.
  destruct (Calc.prepare_data t s) as [merged|]; cbn [mbind result_bind]; [|raised].
  destruct (Calc.compute_frame merged) as [df|] eqn:Hdf; cbn [mbind result_bind]; [|raised].
  intros Hsel. exists merged. split; [done|].
  by rewrite (frame_select_index _ _ _ Hsel), (foldM_tenor_step_index _ _ _ Hdf).
Qed.

Lemma merged_monotonic t s merged :
  is_monotonic_increasing (Calc.dates t) = true →
  Calc.prepare_data t s = Ok merged →
  is_monotonic_increasing (index merged) = true.
Proof.
  intros Ht Hm. rewrite (prepare_data_index _ _ _ Hm). by apply join_rows_monotonic.
Qed.

(** With an end date the frame built is the one built without, cut at
    the end date. *)
Lemma basis_frame_cut e t s :
  is_monotonic_increasing (Calc.dates t) = true →
  Calc.basis_frame (Some e) t s =
    (full ← Calc.basis_frame None t s;
     Ok (head_rows (searchsorted (index full) e side_right) full)).
Proof.
  intros Ht.
  destruct (Calc.basis_frame None t s) as [full|x] eqn:Hfull; cbn [mbind result_bind].
  - destruct (basis_frame_index_eq _ _ _ Hfull) as (merged & Hm & Hi).
    unfold Calc.basis_frame in *. rewrite Hm in *. cbn [mbind result_bind] in *.
    rewrite frame_loc_sorted_head by (by eapply merged_monotonic).
    cbn [mbind result_bind]. rewrite basis_of_head_rows, Hfull, Hi. done.
  - unfold Calc.basis_frame in *.
    destruct (Calc.prepare_data t s) as [merged|] eqn:Hm; cbn [mbind result_bind] in *;
      [|done].
    rewrite frame_loc_sorted_head by (by eapply merged_monotonic).
    cbn [mbind result_bind]. by rewrite basis_of_head_rows, Hfull.
Qed.

(** X6: the end date only cuts.  With Treasury dates in ascending order,
    a call with an end date returns the result of the call without one,
    cut at the end date by [.loc[:end_date]], and raises what that call
    raises: no value at or before the end date depends on a later row. *)
Theorem end_date_cuts_the_result (e : Z) (t s : Calc.RawFrame) :
  is_monotonic_increasing (Calc.dates t) = true →
  returned (Calc.calculate_treasury_sf_basis (Some e) t s) =
    (full ← returned (Calc.calculate_treasury_sf_basis None t s);
     frame_loc full None (Some e)).
Proof.
  intros Ht. rewrite !calculate_returned, basis_frame_cut by done.
  destruct (Calc.basis_frame None t s) as [full|x] eqn:Hfull;
    cbn [mbind result_bind]; [|done].
  destruct (basis_frame_index_eq _ _ _ Hfull) as (merged & Hm & Hi).
  rewrite frame_loc_sorted_head.
  - by rewrite ffill_head_rows.
  - cbn [ffill index]. rewrite Hi. by eapply merged_monotonic.
Qed.

Lemma take_searchsorted idx e :
  is_monotonic_increasing idx = true →
  take (searchsorted idx e side_right) idx = filter (λ d, d ≤ e) idx.
Proof.
  intros Hm. pose proof (slice_sorted id idx None (Some e)) as Hs.
  rewrite list_fmap_id in Hs. specialize (Hs Hm).
  cbn [sorted_bounds fst snd] in Hs. rewrite slice_0 in Hs. rewrite Hs.
  apply list_filter_iff. intros d. unfold in_window. cbn.
  by rewrite bool_decide_eq_true.
Qed.

Lemma head_rows_all n df :
  rectangular df → (length (index df) ≤ n)%nat → head_rows n df = df.
Proof.
  intros Hrect Hn. destruct df as [idx cols]. unfold head_rows, rectangular in *.
  cbn [index columns] in *. rewrite take_ge by done. f_equal.
  rewrite <- (list_fmap_id cols) at 2. apply Forall_fmap_ext.
  eapply Forall_impl; [exact Hrect|]. intros [l v] Hv. cbn in *.
  by rewrite take_ge by lia.
Qed.

(** X7: the bounds of the end date.  With Treasury dates in ascending
    order, when the call with an end date returns, the call without one
    returns too, with the same labels, and the dates of the first are the
    dates of the second that are not after the end date.  An end date
    before every date gives a result with no row; an end date at or after
    every date gives the same dates and, for a rectangular result, the
    same frame. *)
Theorem end_date_bounds (e : Z) (t s : Calc.RawFrame) (out : DataFrame) :
  is_monotonic_increasing (Calc.dates t) = true →
  returned (Calc.calculate_treasury_sf_basis (Some e) t s) = Ok out →
  ∃ full,
    returned (Calc.calculate_treasury_sf_basis None t s) = Ok full ∧
    labels out = labels full ∧
    index out = filter (λ d, d ≤ e) (index full) ∧
    ((∀ d, d ∈ index full → e < d) → index out = []) ∧
    ((∀ d, d ∈ index full → d ≤ e) →
     index out = index full ∧ (rectangular full → out = full)).
Proof.
  intros Ht. rewrite !calculate_returned, basis_frame_cut by done.
  destruct (Calc.basis_frame None t s) as [full|x] eqn:Hfull;
    cbn [mbind result_bind]; [|raised].
  intros Hout.
  assert (out = ffill (head_rows (searchsorted (index full) e side_right) full))
    as -> by congruence.
  clear Hout. exists (ffill full).
  destruct (basis_frame_index_eq _ _ _ Hfull) as (merged & Hm & Hi).
  assert (is_monotonic_increasing (index full) = true) as Hsorted.
  { rewrite Hi. by eapply merged_monotonic. }
  assert (index (ffill (head_rows (searchsorted (index full) e side_right) full)) =
          filter (λ d, d ≤ e) (index (ffill full))) as Hidx.
  { cbn [ffill head_rows index]. by apply take_searchsorted. }
  split_and!.
  - done.
  - by rewrite !labels_ffill, labels_head_rows.
  - exact Hidx.
  - intros Hlate. rewrite Hidx. apply filter_none, Forall_forall.
    intros d Hd. apply Hlate in Hd. lia.
  - intros Hearly.
    assert (filter (λ d, d ≤ e) (index (ffill full)) = index (ffill full)) as Hall
      by (by apply filter_all).
    split; [by rewrite Hidx|]. intros Hrect.
    rewrite ffill_head_rows. apply head_rows_all; [done|].
    cbn [ffill index] in *. unfold searchsorted. by rewrite Hall.
Qed.

Lemma end_date_cuts_the_result_witness :
  returned (Calc.calculate_treasury_sf_basis (Some 1) Scenario.treasury Scenario.sf) =
    (full ← returned (Calc.calculate_treasury_sf_basis None Scenario.treasury Scenario.sf);
     frame_loc full None (Some 1)) ∧
  returned (Calc.calculate_treasury_sf_basis (Some 1) Scenario.treasury Scenario.sf) =
    Ok (mkDF [1] [("Treasury_SF_2Y", [Scenario.basis_day_1])]).
Proof.
  split; [|vm_compute; reflexivity].
  apply end_date_cuts_the_result. reflexivity.
Defined.

Lemma end_date_bounds_witness :
  ∃ full,
    returned (Calc.calculate_treasury_sf_basis None Scenario.treasury Scenario.sf) =
      Ok full ∧
    [1] = filter (λ d, d ≤ 1) (index full).
Proof.
  destruct (end_date_bounds 1 Scenario.treasury Scenario.sf
              (mkDF [1] [("Treasury_SF_2Y", [Scenario.basis_day_1])]))
    as (full & Hfull & _ & Hidx & _).
  - reflexivity.
  - vm_compute. reflexivity.
  - exists full. split; [exact Hfull|exact Hidx].
Defined.

(** ** The basis, from the two inputs *)

Lemma column_ffill df l : column (ffill df) l = ffill_column <$> column df l.
Proof.
  unfold column, ffill. cbn [columns].
  assert (named l ((λ c, (c.1, ffill_column c.2)) <$> columns df) =
          (λ c, (c.1, ffill_column c.2)) <$> named l (columns df)) as ->.
  { unfold named. induction (columns df) as [|c cols IH]; [done|].
    rewrite fmap_cons, !filter_cons. cbn [fst].
    destruct (decide (c.1 = l)); by rewrite IH. }
  by destruct (named l (columns df)) as [|c [|]].
Qed.

(** The columns of the merged table, when no label is there twice: the
    rows of each input column that the join kept. *)
Lemma merged_column_distinct t s merged :
  NoDup (Calc.merged_labels t s) → Calc.prepare_data t s = Ok merged →
  let rows := join_rows (Calc.dates t) (Calc.dates s) 0 in
  index merged = rows.*1 ∧
  (∀ l v, (l, v) ∈ columns (Calc.frame t) →
     column merged (Calc.clean_label Calc.TREASURY_MAPPING "Treasury" l) =
       Some (take_rows ((λ r : Z * (nat * nat), r.2.1) <$> rows) v)) ∧
  (∀ l v, (l, v) ∈ columns (Calc.frame s) →
     column merged (Calc.clean_label Calc.SF_MAPPING "SF" l) =
       Some (take_rows ((λ r : Z * (nat * nat), r.2.2) <$> rows) v)).
Proof.
  intros Hnd Hm rows.
  destruct (prepare_data_distinct t s Hnd) as (merged' & Hm' & _ & Hl & _).
  assert (merged' = merged) as -> by congruence. clear Hm'.
  rewrite prepare_data_spec in Hm.
  apply merge_inner_columns in Hm as [Hi Hc]. cbn zeta in Hi, Hc.
  cbn [Calc.cleaned index] in Hi, Hc. fold rows in Hi, Hc.
  assert (filter (λ x, x ∈ labels (Calc.cleaned s Calc.SF_MAPPING "SF"))
                 (labels (Calc.cleaned t Calc.TREASURY_MAPPING "Treasury")) = []) as Hover.
  { apply filter_none, Forall_forall. intros x Hx.
    unfold Calc.merged_labels in Hnd. apply NoDup_app in Hnd as (_ & Hdis & _).
    rewrite !labels_cleaned in *. by apply Hdis. }
  rewrite Hover, !columns_cleaned in Hc.
  assert (NoDup (columns merged).*1) as Hndm by (by rewrite <- Hl in Hnd).
  split_and!; [done| |]; intros l v Hin; unfold column;
    erewrite named_elem; [done|done| |done|done|].
  - rewrite Hc. apply elem_of_app. left.
    rewrite <- list_fmap_compose. apply list_elem_of_fmap. exists (l, v).
    split; [|done]. cbn. unfold add_suffix.
    by rewrite bool_decide_eq_false_2 by apply not_elem_of_nil.
  - rewrite Hc. apply elem_of_app. right.
    rewrite <- list_fmap_compose. apply list_elem_of_fmap. exists (l, v).
    split; [|done]. cbn. unfold add_suffix.
    by rewrite bool_decide_eq_false_2 by apply not_elem_of_nil.
Qed.

Lemma NoDup_output_values : NoDup (odict_values Calc.OUTPUT_COLUMNS).
Proof. apply (bool_decide_unpack _). by vm_compute. Qed.

(** X8: the basis, from the two inputs.  For inputs whose columns are as
    long as their dates and whose labels are distinct after the renaming
    (Treasury dates ascending when an end date is given), and a tenor with
    a column in each input: [calculate_treasury_sf_basis] returns; before
    the forward fill the tenor's basis column holds, at every date of the
    frame, the Treasury rate of a row of that date minus the SF rate of a
    row of that date, times 100, as binary64 computes it; and the result
    holds the same value there, unless that value is missing. *)
Theorem basis_from_the_inputs (e : option Z) (t s : Calc.RawFrame)
    (tenor lT lS : string) (vT vS : list float) :
  Calc.well_formed t → Calc.well_formed s →
  NoDup (Calc.merged_labels t s) →
  e = None ∨ is_monotonic_increasing (Calc.dates t) = true →
  tenor ∈ Calc.tenors →
  (lT, vT) ∈ columns (Calc.frame t) →
  Calc.clean_label Calc.TREASURY_MAPPING "Treasury" lT = tenor +:+ "_Treasury" →
  (lS, vS) ∈ columns (Calc.frame s) →
  Calc.clean_label Calc.SF_MAPPING "SF" lS = tenor +:+ "_SF" →
  ∃ before b out r,
    returned (Calc.basis_before_ffill e t s) = Ok before ∧
    column before (Calc.output_label tenor) = Some b ∧
    returned (Calc.calculate_treasury_sf_basis e t s) = Ok out ∧
    column out (Calc.output_label tenor) = Some r ∧
    index out = index before ∧
    ∀ n d, index before !! n = Some d →
      ∃ i j x y,
        Calc.dates t !! i = Some d ∧ Calc.dates s !! j = Some d ∧
        vT !! i = Some x ∧ vS !! j = Some y ∧
        b !! n = Some ((x - y) * 100)%float ∧
        (is_nan ((x - y) * 100)%float = false →
         r !! n = Some ((x - y) * 100)%float).
Proof.
  intros Ht Hs Hnd Hsorted Htenor HT HlT HS HlS.
  destruct (basis_frame_steps e t s Hnd Hsorted)
    as (merged & cut & df & out & Hm & Hl & Hcut & Hlc & Hdf & Hloop & Hsel & Hout).
  destruct (merged_column_distinct t s merged Hnd Hm) as (Hi & HcT & HcS).
  cbn zeta in Hi, HcT, HcS.
  set (rows := join_rows (Calc.dates t) (Calc.dates s) 0) in *.
  specialize (HcT _ _ HT). specialize (HcS _ _ HS). rewrite HlT in HcT. rewrite HlS in HcS.
  pose proof (merged_rectangular _ _ _ Ht Hs Hm) as Hrect.
  assert (∃ n0, cut = head_rows n0 merged) as [n0 ->].
  { destruct e as [date|]; [by eapply frame_loc_head|].
    exists (length (index merged)). injection Hcut as <-.
    by rewrite head_rows_all. }
  pose proof (column_head_rows n0 merged (tenor +:+ "_Treasury")) as HT0.
  pose proof (column_head_rows n0 merged (tenor +:+ "_SF")) as HS0.
  rewrite HcT in HT0. rewrite HcS in HS0. cbn in HT0, HS0.
  set (TT := take_rows ((λ r : Z * (nat * nat), r.2.1) <$> rows) vT) in *.
  set (SS := take_rows ((λ r : Z * (nat * nat), r.2.2) <$> rows) vS) in *.
  assert (Calc.both (head_rows n0 merged) tenor = true) as Hboth.
  { unfold Calc.both. by rewrite (column_in _ _ _ HT0), (column_in _ _ _ HS0). }
  pose proof (Calc.loop_basis _ _ _ Hloop tenor) as Hb.
  rewrite assigned_iff in Hb. specialize (Hb (conj Htenor Hboth)).
  unfold Calc.basis in Hb. rewrite HT0, HS0 in Hb. cbn in Hb.
  assert (column out (Calc.output_label tenor) =
            Some (series_mul (series_sub (take n0 TT) (take n0 SS)) 100%float)) as Hcol.
  { rewrite <- Hb. eapply frame_select_column; [|exact Hsel|].
    - apply NoDup_filter, NoDup_output_values.
    - apply list_elem_of_filter. split.
      + pose proof (column_in _ _ _ Hb) as Hin. unfold in_columns in Hin.
        by apply bool_decide_eq_true in Hin.
      + rewrite output_values. by apply list_elem_of_fmap_2. }
  eexists out, _, (ffill out), _. split_and!.
  - by rewrite basis_before_ffill_returned.
  - exact Hcol.
  - by rewrite calculate_returned, Hout.
  - by rewrite column_ffill, Hcol.
  - done.
  - intros n d Hn.
    rewrite (frame_select_index _ _ _ Hsel), (foldM_tenor_step_index _ _ _ Hdf) in Hn.
    cbn [head_rows index] in Hn. rewrite Hi in Hn.
    apply lookup_take_Some in Hn as [Hn Hlt].
    rewrite list_lookup_fmap in Hn.
    destruct (rows !! n) as [[k [i j]]|] eqn:Hrow; [|done].
    cbn in Hn. injection Hn as ->.
    pose proof (list_elem_of_lookup_2 _ _ _ Hrow) as Hin.
    apply join_rows_elem in Hin as (_ & Hdl & Hdr). rewrite Nat.sub_0_r in Hdl.
    destruct (join_rows_positions (Calc.dates t) (Calc.dates s)) as [Hlpos Hrpos].
    fold rows in Hlpos, Hrpos.
    unfold Calc.well_formed in Ht, Hs. rewrite Forall_forall in Ht, Hs.
    pose proof (Ht _ HT) as HlenT. pose proof (Hs _ HS) as HlenS. cbn in HlenT, HlenS.
    destruct (lookup_lt_is_Some_2 vT i) as [x Hx];
      [rewrite HlenT; by eapply lookup_lt_Some|].
    destruct (lookup_lt_is_Some_2 vS j) as [y Hy];
      [rewrite HlenS; by eapply lookup_lt_Some|].
    assert (TT !! n = Some x) as HTn.
    { unfold TT. rewrite (take_rows_lookup _ _ n i); [done|by rewrite HlenT|].
      by rewrite list_lookup_fmap, Hrow. }
    assert (SS !! n = Some y) as HSn.
    { unfold SS. rewrite (take_rows_lookup _ _ n j); [done|by rewrite HlenS|].
      by rewrite list_lookup_fmap, Hrow. }
    assert (series_mul (series_sub (take n0 TT) (take n0 SS)) 100%float !! n =
            Some ((x - y) * 100)%float) as Hbn.
    { unfold series_mul, series_sub.
      by rewrite list_lookup_fmap, lookup_zip_with, !lookup_take_lt, HTn, HSn by done. }
    exists i, j, x, y. split_and!; [done..|].
    intros Hvalid. unfold ffill_column. by apply ffill_from_valid.
Qed.

Lemma basis_from_the_inputs_witness :
  ∃ before b out r,
    returned
      (Calc.basis_before_ffill None
         (Calc.mkRaw (Some [1; 2])
            (mkDF [0; 1] [("USGG2YR Index_PX_LAST", [4.5; 4.75]%float)]))
         (Calc.mkRaw (Some [2; 3])
            (mkDF [0; 1] [("USOSFR2 Curncy_PX_LAST", [4.25; 4]%float)])))
      = Ok before ∧
    column before (Calc.output_label "2Y") = Some b ∧
    returned
      (Calc.calculate_treasury_sf_basis None
         (Calc.mkRaw (Some [1; 2])
            (mkDF [0; 1] [("USGG2YR Index_PX_LAST", [4.5; 4.75]%float)]))
         (Calc.mkRaw (Some [2; 3])
            (mkDF [0; 1] [("USOSFR2 Curncy_PX_LAST", [4.25; 4]%float)])))
      = Ok out ∧
    column out (Calc.output_label "2Y") = Some r ∧
    index out = index before ∧
    ∀ n d, index before !! n = Some d →
      ∃ i j x y,
        [1; 2] !! i = Some d ∧ [2; 3] !! j = Some d ∧
        [4.5; 4.75]%float !! i = Some x ∧ [4.25; 4]%float !! j = Some y ∧
        b !! n = Some ((x - y) * 100)%float ∧
        (is_nan ((x - y) * 100)%float = false →
         r !! n = Some ((x - y) * 100)%float).
Proof.
  apply (basis_from_the_inputs None
           (Calc.mkRaw (Some [1; 2])
              (mkDF [0; 1] [("USGG2YR Index_PX_LAST", [4.5; 4.75]%float)]))
           (Calc.mkRaw (Some [2; 3])
              (mkDF [0; 1] [("USOSFR2 Curncy_PX_LAST", [4.25; 4]%float)]))
           "2Y" "USGG2YR Index_PX_LAST" "USOSFR2 Curncy_PX_LAST").
  - repeat constructor.
  - repeat constructor.
  - apply (bool_decide_unpack _). vm_compute. exact I.
  - left. reflexivity.
  - apply (bool_decide_unpack _). vm_compute. exact I.
  - left.
  - vm_compute. reflexivity.
  - left.
  - vm_compute. reflexivity.
Defined.

(** ** No gap after the first value *)

Lemma ffill_from_filled v l j :
  is_nan v = false → (j < length l)%nat →
  ∃ z, ffill_from (Some v) l !! j = Some z ∧ is_nan z = false.
Proof.
  revert v j. induction l as [|x l IH]; intros v j Hv Hj; [cbn in Hj; lia|].
  cbn [ffill_from]. destruct (is_nan x) eqn:Hx.
  - destruct j as [|j]; [by exists v|]. cbn. apply IH; [done|cbn in Hj; lia].
  - destruct j as [|j]; [by exists x|]. cbn. apply IH; [done|cbn in Hj; lia].
Qed.

Lemma ffill_from_no_gap last l i j x :
  (∀ v, last = Some v → is_nan v = false) →
  (i ≤ j < length l)%nat →
  ffill_from last l !! i = Some x → is_nan x = false →
  ∃ z, ffill_from last l !! j = Some z ∧ is_nan z = false.
Proof.
  revert last i j. induction l as [|a l IH]; intros last i j Hlast Hij; [cbn in Hij; lia|].
  cbn [ffill_from]. cbn [length] in Hij. destruct (is_nan a) eqn:Ha.
  - destruct i as [|i].
    + cbn. intros [= <-] Hx. destruct last as [v|]; cbn in Hx; [|congruence].
      destruct j as [|j]; [by exists v|]. cbn. apply ffill_from_filled; [done|lia].
    + destruct j as [|j]; [lia|]. cbn. apply IH; [done|lia].
  - destruct i as [|i].
    + cbn. intros [= <-] _.
      destruct j as [|j]; [by exists a|]. cbn. apply ffill_from_filled; [done|lia].
    + destruct j as [|j]; [lia|]. cbn. apply IH; [|lia]. by intros v [= <-].
Qed.

(** X9: no gap after the first value.  In every column of a frame that
    [calculate_treasury_sf_basis] returns, once a row holds a value every
    later row holds one. *)
Theorem result_has_no_gap (e : option Z) (t s : Calc.RawFrame) (out : DataFrame) :
  returned (Calc.calculate_treasury_sf_basis e t s) = Ok out →
  ∀ l v, (l, v) ∈ columns out →
    ∀ i j x, (i ≤ j < length v)%nat → v !! i = Some x → is_nan x = false →
      ∃ z, v !! j = Some z ∧ is_nan z = false.
Proof.
  rewrite calculate_returned.
  destruct (Calc.basis_frame e t s) as [df|]; cbn [mbind result_bind]; [|raised].
  intros Hout. assert (out = ffill df) as -> by congruence. clear Hout.
  intros l v Hin. cbn [ffill columns] in Hin.
  apply list_elem_of_fmap in Hin as (c & [= -> ->] & _).
  intros i j x Hij. unfold ffill_column in *. rewrite length_ffill_from in Hij.
  by apply ffill_from_no_gap.
Qed.

Lemma result_has_no_gap_witness :
  ∃ z, [Scenario.basis_day_1; Scenario.basis_day_1] !! 1%nat = Some z ∧
       is_nan z = false.
Proof.
  refine (result_has_no_gap None Scenario.treasury Scenario.sf
            (mkDF [1; 2]
               [("Treasury_SF_2Y", [Scenario.basis_day_1; Scenario.basis_day_1])])
            _ "Treasury_SF_2Y" _ _ 0%nat 1%nat Scenario.basis_day_1 _ _ _).
  - vm_compute. reflexivity.
  - left.
  - cbn. lia.
  - reflexivity.
  - reflexivity.
Defined.

(** ** A second call of [compute_treasury_sf_basis] *)

(** Assigning a column the values it has changes nothing. *)
Lemma setitem_same df l v : column df l = Some v → frame_setitem df l v = df.
Proof.
  intros Hc. unfold frame_setitem. rewrite (column_in _ _ _ Hc).
  destruct df as [idx cols]. cbn [index columns] in *. f_equal.
  rewrite <- (list_fmap_id cols) at 2. apply list_fmap_ext. intros i c Hi.
  case_bool_decide as Hl; [|done].
  unfold column in Hc. cbn [columns] in Hc.
  destruct (named l cols) as [|c0 [|]] eqn:Hn; [done| |done].
  injection Hc as <-.
  assert (c ∈ named l cols) as Hin.
  { apply list_elem_of_filter. split; [done|]. by eapply list_elem_of_lookup_2. }
  rewrite Hn in Hin. apply list_elem_of_singleton in Hin as ->. by destruct c0.
Qed.

Lemma loop_both df df' t :
  Calc.loop_result Calc.tenors df df' → t ∈ Calc.tenors →
  Calc.both df' t = Calc.both df t.
Proof.
  intros [_ Hl _ _ _] Ht. unfold Calc.both, in_columns.
  assert (∀ l, (∀ t', t' ∈ Calc.tenors → Calc.output_label t' ≠ l) →
               bool_decide (l ∈ labels df') = bool_decide (l ∈ labels df)) as Hin.
  { intros l Hne. apply bool_decide_ext. rewrite Hl, elem_of_app. split; [|tauto].
    intros [?|Hout]; [done|].
    apply list_elem_of_filter in Hout as [_ (t' & -> & Ht')%list_elem_of_fmap].
    apply assigned_iff in Ht' as [Ht' _]. by destruct (Hne t' Ht'). }
  rewrite !Hin; [done| |]; intros t' Ht'; by destruct (output_not_input t' t Ht' Ht).
Qed.

Lemma loop_basis_kept df df' t :
  Calc.loop_result Calc.tenors df df' → t ∈ Calc.tenors →
  Calc.basis df' t = Calc.basis df t.
Proof.
  intros [_ _ Ho _ _] Ht. unfold Calc.basis.
  assert (∀ l, (∀ t', t' ∈ Calc.tenors → Calc.output_label t' ≠ l) →
               column df' l = column df l) as Hcol.
  { intros l Hne. apply column_named, Ho.
    intros (t' & -> & Ht')%list_elem_of_fmap.
    apply assigned_iff in Ht' as [Ht' _]. by destruct (Hne t' Ht'). }
  rewrite !Hcol; [done| |]; intros t' Ht'; by destruct (output_not_input t' t Ht' Ht).
Qed.

Lemma loop_step_fixed df df' t :
  Calc.loop_result Calc.tenors df df' → t ∈ Calc.tenors →
  Calc.tenor_step df' t = Ok df'.
Proof.
  intros Hloop Ht. destruct (Calc.both df' t) eqn:Hb; [|by apply tenor_step_skip].
  destruct (tenor_step_both df' t Ht (Calc.loop_NoDup _ _ _ Hloop) Hb) as (b & Hbasis & ->).
  f_equal. apply setitem_same.
  rewrite (Calc.loop_basis _ _ _ Hloop).
  - by rewrite <- (loop_basis_kept df df').
  - apply assigned_iff. split; [done|]. by rewrite <- (loop_both df df').
Qed.

Lemma compute_frame_fixed df df' :
  NoDup (labels df) → Calc.compute_frame df = Ok df' → Calc.compute_frame df' = Ok df'.
Proof.
  intros Hnd Hrun. destruct (compute_frame_spec df Hnd) as (df1 & Hrun1 & Hloop).
  assert (df1 = df') as -> by congruence. clear Hrun Hrun1.
  unfold Calc.compute_frame.
  assert (∀ ts, ts ⊆ Calc.tenors → foldM Calc.tenor_step df' ts = Ok df') as Hfix.
  { induction ts as [|t ts IH]; intros Hts; [done|]. cbn [foldM].
    rewrite (loop_step_fixed df df') by (done || apply Hts; left).
    cbn [mbind result_bind]. apply IH. intros x Hx. apply Hts. by right. }
  by apply Hfix.
Qed.

(** X10: a second call of [compute_treasury_sf_basis] changes nothing.
    For a frame with no label twice, calling the function on what it
    returned gives the reference, the frame and the store that the one
    call gives: the basis columns are computed from the rate columns
    alone, which the call leaves as they are. *)
Theorem compute_twice_is_compute_once (r : ref) (σ : store) (df : DataFrame) :
  objects σ !! r = Some df →
  NoDup (labels df) →
  (r' ← Calc.compute_treasury_sf_basis r; Calc.compute_treasury_sf_basis r') σ =
    Calc.compute_treasury_sf_basis r σ.
Proof.
  intros Hr Hnd. rewrite bind_run, (compute_run _ _ df) by done.
  destruct (compute_frame_spec df Hnd) as (df' & Hrun & _). rewrite Hrun.
  cbn [fst snd]. rewrite (compute_run _ _ df') by apply update_lookup.
  by rewrite (compute_frame_fixed df df'), update_update.
Qed.

Lemma compute_twice_is_compute_once_witness :
  (r' ← Calc.compute_treasury_sf_basis 0%nat; Calc.compute_treasury_sf_basis r')
    (mkStore {[ 0%nat := mkDF [1; 2] [("5Y_Treasury", [4.25; 4.5]%float);
                                      ("5Y_SF", [4; 3.75]%float)] ]} 1%nat) =
  Calc.compute_treasury_sf_basis 0%nat
    (mkStore {[ 0%nat := mkDF [1; 2] [("5Y_Treasury", [4.25; 4.5]%float);
                                      ("5Y_SF", [4; 3.75]%float)] ]} 1%nat).
Proof.
  apply (compute_twice_is_compute_once 0%nat _
           (mkDF [1; 2] [("5Y_Treasury", [4.25; 4.5]%float);
                         ("5Y_SF", [4; 3.75]%float)])).
  - reflexivity.
  - apply (bool_decide_unpack _). vm_compute. exact I.
Defined.

(** ** A missing rate *)

Lemma is_nan_Prim2SF x :
  is_nan x = true ↔ FloatOps.Prim2SF x = SpecFloat.S754_nan.
Proof.
  unfold is_nan. rewrite FloatAxioms.eqb_spec. unfold SpecFloat.SFeqb.
  destruct (FloatOps.Prim2SF x) as [sx|sx| |sx mx ex]; cbn.
  - split; [done|discriminate].
  - destruct sx; cbn; (split; [done|discriminate]).
  - done.
  - rewrite Z.compare_refl, Pos.compare_cont_refl.
    destruct sx; cbn; (split; [done|discriminate]).
Qed.

Lemma sub_nan x y : is_nan x = true ∨ is_nan y = true → is_nan (x - y) = true.
Proof.
  rewrite !is_nan_Prim2SF, FloatAxioms.sub_spec. unfold FloatAxioms.SF64sub.
  intros [-> | ->]; [done|]. by destruct (FloatOps.Prim2SF x).
Qed.

Lemma mul_nan x k : is_nan x = true → is_nan (x * k) = true.
Proof.
  rewrite !is_nan_Prim2SF, FloatAxioms.mul_spec. unfold FloatAxioms.SF64mul.
  by intros ->.
Qed.

(** X11: a missing rate gives a missing basis.  For a merged table with
    no label twice and a tenor with both rate columns,
    [compute_treasury_sf_basis] returns, and in every row where the
    Treasury rate or the SF rate is missing the basis is missing. *)
Theorem missing_rate_gives_missing_basis (r : ref) (σ : store) (df : DataFrame)
    (tenor : string) (treas sf : list float) :
  objects σ !! r = Some df →
  NoDup (labels df) →
  tenor ∈ Calc.tenors →
  column df (tenor +:+ "_Treasury") = Some treas →
  column df (tenor +:+ "_SF") = Some sf →
  ∃ df' b,
    Calc.compute_treasury_sf_basis r σ = Ok (r, update r df' σ) ∧
    column df' (Calc.output_label tenor) = Some b ∧
    ∀ i x y, treas !! i = Some x → sf !! i = Some y →
      is_nan x = true ∨ is_nan y = true →
      ∃ z, b !! i = Some z ∧ is_nan z = true.
Proof.
  intros Hr Hnd Ht Htreas Hsf.
  destruct (compute_frame_spec df Hnd) as (df' & Hrun & [_ _ _ Hb _]).
  assert (Calc.both df tenor = true) as Hboth.
  { unfold Calc.both. by rewrite (column_in _ _ _ Htreas), (column_in _ _ _ Hsf). }
  exists df', (series_mul (series_sub treas sf) 100%float). split_and!.
  - by rewrite (compute_run _ _ df), Hrun.
  - rewrite Hb by (by apply assigned_iff). unfold Calc.basis. by rewrite Htreas, Hsf.
  - intros i x y Hx Hy Hnan. exists ((x - y) * 100)%float. split.
    + unfold series_mul, series_sub.
      by rewrite list_lookup_fmap, lookup_zip_with, Hx, Hy.
    + by apply mul_nan, sub_nan.
Qed.

Lemma missing_rate_gives_missing_basis_witness :
  ∃ df' b,
    Calc.compute_treasury_sf_basis 0%nat
      (mkStore {[ 0%nat := mkDF [1; 2] [("5Y_Treasury", [4.25; 4.5]%float);
                                        ("5Y_SF", [4; nan]%float)] ]} 1%nat)
    = Ok (0%nat, update 0%nat df'
      (mkStore {[ 0%nat := mkDF [1; 2] [("5Y_Treasury", [4.25; 4.5]%float);
                                        ("5Y_SF", [4; nan]%float)] ]} 1%nat)) ∧
    column df' (Calc.output_label "5Y") = Some b ∧
    ∀ i x y, [4.25; 4.5]%float !! i = Some x → [4; nan]%float !! i = Some y →
      is_nan x = true ∨ is_nan y = true →
      ∃ z, b !! i = Some z ∧ is_nan z = true.
Proof.
  apply (missing_rate_gives_missing_basis 0%nat _
           (mkDF [1; 2] [("5Y_Treasury", [4.25; 4.5]%float);
                         ("5Y_SF", [4; nan]%float)]) "5Y").
  - reflexivity.
  - apply (bool_decide_unpack _). vm_compute. exact I.
  - apply (bool_decide_unpack _). vm_compute. exact I.
  - reflexivity.
  - reflexivity.
Defined.

(** ** From the puller to the calculator *)

Lemma process_nonempty dates cols :
  dates ≠ [] → cols ≠ [] →
  Pull.process_bloomberg_df (Pull.MultiColumns dates cols) =
    Pull.PlainColumns (Pull.flatten dates cols).
Proof. by destruct dates, cols. Qed.

Lemma process_plain raw :
  Pull.process_bloomberg_df (Pull.PlainColumns raw) = Pull.PlainColumns raw.
Proof.
  unfold Pull.process_bloomberg_df. cbn [Pull.is_MultiIndex].
  by rewrite andb_false_r.
Qed.

Lemma process_multi dates cols :
  Pull.process_bloomberg_df (Pull.MultiColumns dates cols) =
    Pull.PlainColumns (Pull.flatten dates cols) ∨
  Pull.process_bloomberg_df (Pull.MultiColumns dates cols) =
    Pull.MultiColumns dates cols.
Proof. unfold Pull.process_bloomberg_df. destruct (negb _ && _); auto. Qed.

(** X12: [process_bloomberg_df].  Processing a processed frame changes
    nothing.  A frame that is empty, or whose columns are under plain
    labels, comes back as it is.  A frame with a row and a column under a
    two-level header comes back with plain labels, ticker then field with
    an underscore between, the same values, the rows numbered from 0, and
    its dates in a column that [prepare_data] makes the index again. *)
Theorem process_bloomberg_df_once (df : Pull.BloombergFrame) :
  Pull.process_bloomberg_df (Pull.process_bloomberg_df df) =
    Pull.process_bloomberg_df df ∧
  (Pull.empty df = true ∨ Pull.is_MultiIndex df = false →
   Pull.process_bloomberg_df df = df) ∧
  (∀ dates cols, df = Pull.MultiColumns dates cols → dates ≠ [] → cols ≠ [] →
     ∃ raw,
       Pull.process_bloomberg_df df = Pull.PlainColumns raw ∧
       Calc.date_column raw = Some dates ∧
       index (Calc.frame raw) = seqZ 0 (Z.of_nat (length dates)) ∧
       labels (Calc.frame raw) = Pull.flat_label <$> cols.*1 ∧
       (columns (Calc.frame raw)).*2 = cols.*2 ∧
       Calc.set_index_if_present raw = mkDF dates (columns (Calc.frame raw))).
Proof.
  split_and!.
  - destruct df as [dates cols|raw]; [|by rewrite !process_plain].
    destruct (process_multi dates cols) as [H|H]; rewrite !H; [|done].
    by rewrite !process_plain.
  - unfold Pull.process_bloomberg_df. intros [-> | ->]; [done|by rewrite andb_false_r].
  - intros dates cols -> Hd Hc. exists (Pull.flatten dates cols).
    rewrite process_nonempty by done. split_and!; [done..| | |done].
    + unfold labels, Pull.flatten. cbn. rewrite <- !list_fmap_compose.
      by apply list_fmap_ext.
    + unfold Pull.flatten. cbn. rewrite <- !list_fmap_compose.
      by apply list_fmap_ext.
Qed.

(** The labels the calculator gives the columns of the tickers asked. *)
Lemma tenor_labels_of_tickers :
  (λ ticker, Calc.clean_label Calc.TREASURY_MAPPING "Treasury"
               (Pull.flat_label (ticker, "PX_LAST"))) <$> Pull.treasury_tickers =
    (λ tenor, tenor +:+ "_Treasury") <$> Calc.tenors ∧
  (λ ticker, Calc.clean_label Calc.SF_MAPPING "SF"
               (Pull.flat_label (ticker, "PX_LAST"))) <$> Pull.sf_tickers =
    (λ tenor, tenor +:+ "_SF") <$> Calc.tenors.
Proof. split; vm_compute; reflexivity. Qed.

Lemma NoDup_tenor_labels :
  NoDup (((λ tenor, tenor +:+ "_Treasury") <$> Calc.tenors) ++
         ((λ tenor, tenor +:+ "_SF") <$> Calc.tenors)).
Proof. apply (bool_decide_unpack _). by vm_compute. Qed.

Lemma NoDup_fmap_sub {A B : Type} (f : A → B) (l k : list A) :
  NoDup (f <$> k) → NoDup l → l ⊆ k → NoDup (f <$> l).
Proof.
  intros Hk Hl Hsub. apply NoDup_fmap_2_strong; [|done].
  intros x y Hx%Hsub Hy%Hsub Heq.
  apply list_elem_of_lookup in Hx as [i Hi], Hy as [j Hj].
  assert (i = j) as ->; [|congruence].
  eapply NoDup_lookup; [exact Hk| |].
  - by rewrite list_lookup_fmap, Hi.
  - by rewrite list_lookup_fmap, Hj, Heq.
Qed.

Lemma fmap_sub {A B : Type} (f : A → B) (l k : list A) : l ⊆ k → f <$> l ⊆ f <$> k.
Proof.
  intros Hsub x (a & -> & Ha)%list_elem_of_fmap. by apply list_elem_of_fmap_2, Hsub.
Qed.

Lemma labels_flatten dates cols tickers :
  cols.*1 = (λ t, (t, "PX_LAST")) <$> tickers →
  labels (Calc.frame (Pull.flatten dates cols)) =
    (λ t, Pull.flat_label (t, "PX_LAST")) <$> tickers.
Proof.
  intros Hc. unfold labels, Pull.flatten. cbn.
  rewrite <- list_fmap_compose.
  change (fst ∘ (λ c : string * string * list float, (Pull.flat_label c.1, c.2)))
    with (Pull.flat_label ∘ (fst : string * string * list float → string * string)).
  by rewrite list_fmap_compose, Hc, <- list_fmap_compose.
Qed.

(** The labels of the merged table of two pulled frames. *)
Lemma pulled_merged_labels dt ds tcols scols tt st :
  NoDup tt → tt ⊆ Pull.treasury_tickers →
  tcols.*1 = (λ t, (t, "PX_LAST")) <$> tt →
  NoDup st → st ⊆ Pull.sf_tickers →
  scols.*1 = (λ t, (t, "PX_LAST")) <$> st →
  Calc.merged_labels (Pull.flatten dt tcols) (Pull.flatten ds scols) =
    ((λ ticker, Calc.clean_label Calc.TREASURY_MAPPING "Treasury"
                  (Pull.flat_label (ticker, "PX_LAST"))) <$> tt) ++
    ((λ ticker, Calc.clean_label Calc.SF_MAPPING "SF"
                  (Pull.flat_label (ticker, "PX_LAST"))) <$> st) ∧
  NoDup (Calc.merged_labels (Pull.flatten dt tcols) (Pull.flatten ds scols)) ∧
  Calc.merged_labels (Pull.flatten dt tcols) (Pull.flatten ds scols) ⊆
    ((λ tenor, tenor +:+ "_Treasury") <$> Calc.tenors) ++
    ((λ tenor, tenor +:+ "_SF") <$> Calc.tenors).
Proof.
  intros Hndt Hsubt Ht Hnds Hsubs Hs.
  destruct tenor_labels_of_tickers as [HT HS].
  pose proof NoDup_tenor_labels as Hnd. apply NoDup_app in Hnd as (HndT & Hdis & HndS).
  assert (Calc.merged_labels (Pull.flatten dt tcols) (Pull.flatten ds scols) =
    ((λ ticker, Calc.clean_label Calc.TREASURY_MAPPING "Treasury"
                  (Pull.flat_label (ticker, "PX_LAST"))) <$> tt) ++
    ((λ ticker, Calc.clean_label Calc.SF_MAPPING "SF"
                  (Pull.flat_label (ticker, "PX_LAST"))) <$> st)) as Heq.
  { unfold Calc.merged_labels.
    rewrite (labels_flatten dt tcols tt), (labels_flatten ds scols st) by done.
    by rewrite <- !list_fmap_compose. }
  rewrite Heq. split_and!; [done| |].
  - apply NoDup_app. split_and!.
    + apply (NoDup_fmap_sub _ tt Pull.treasury_tickers); [by rewrite HT|done..].
    + intros x Hx%(fmap_sub _ _ _ Hsubt) Hx'%(fmap_sub _ _ _ Hsubs).
      rewrite HT in Hx. rewrite HS in Hx'. by apply (Hdis x).
    + apply (NoDup_fmap_sub _ st Pull.sf_tickers); [by rewrite HS|done..].
  - intros x [Hx%(fmap_sub _ _ _ Hsubt)|Hx%(fmap_sub _ _ _ Hsubs)]%elem_of_app;
      apply elem_of_app; [left; by rewrite <- HT|right; by rewrite <- HS].
Qed.

Lemma result_labels merged cut df out :
  labels cut = labels merged →
  Calc.loop_result Calc.tenors cut df →
  frame_select df (filter (λ col, col ∈ labels df)
                          (odict_values Calc.OUTPUT_COLUMNS)) = Ok out →
  labels out =
    Calc.output_label <$>
      filter (λ tenor, Calc.both merged tenor = true ∨
                       Calc.output_label tenor ∈ labels merged) Calc.tenors.
Proof.
  intros Hlc Hloop Hsel.
  rewrite (frame_select_labels _ _ _ (Calc.loop_NoDup _ _ _ Hloop) Hsel).
  rewrite output_values, filter_fmap. f_equal. apply filter_ext_in.
  intros tenor Htenor. rewrite (loop_output_labels cut df) by done.
  by rewrite (both_labels merged cut), Hlc.
Qed.

Lemma all_of_them {A : Type} (l k : list A) :
  NoDup l → l ⊆ k → length l = length k → k ⊆ l.
Proof.
  intros Hnd Hsub Hlen.
  assert (l ≡ₚ k) as Hp.
  { apply submseteq_length_Permutation; [by apply NoDup_submseteq|lia]. }
  intros x Hx. by rewrite Hp.
Qed.

(** X13: the frames the puller hands over give the calculator its tenor
    columns.  When [blp.bdh] answers both requests with a frame that has a
    row and, under a two-level header, a column for some of the tickers
    asked, each once, with the field [PX_LAST]: [pull_treasury_sf_data]
    returns the two frames flattened, with the dates and the values of the
    answers; [prepare_data] returns on them; every column of the merged
    table is the Treasury or the SF column of a tenor, and no label is
    there twice; [calculate_treasury_sf_basis] returns, with a basis
    column for each tenor that has both columns, in the order of the
    tenors; and when each answer has five columns, the result has the
    five basis columns. *)
Theorem pulled_frames_give_tenor_columns
    (bdh : list string → list string → string → string → Pull.BloombergFrame)
    (start_date end_date : string) (dt ds : list Z)
    (tcols scols : list ((string * string) * list float)) :
  bdh Pull.treasury_tickers Pull.fields start_date end_date =
    Pull.MultiColumns dt tcols →
  bdh Pull.sf_tickers Pull.fields start_date end_date = Pull.MultiColumns ds scols →
  dt ≠ [] → ds ≠ [] → tcols ≠ [] → scols ≠ [] →
  Pull.header_of Pull.treasury_tickers tcols →
  Pull.header_of Pull.sf_tickers scols →
  ∃ t s merged out,
    Pull.pull_treasury_sf_data bdh start_date end_date =
      [("treasury_yields", Pull.PlainColumns t); ("sf_rates", Pull.PlainColumns s)] ∧
    Calc.dates t = dt ∧ Calc.dates s = ds ∧
    (columns (Calc.frame t)).*2 = tcols.*2 ∧
    (columns (Calc.frame s)).*2 = scols.*2 ∧
    Calc.prepare_data t s = Ok merged ∧
    NoDup (labels merged) ∧
    (∀ l, l ∈ labels merged →
       ∃ tenor, tenor ∈ Calc.tenors ∧
                (l = tenor +:+ "_Treasury" ∨ l = tenor +:+ "_SF")) ∧
    returned (Calc.calculate_treasury_sf_basis None t s) = Ok out ∧
    labels out =
      Calc.output_label <$> filter (λ tenor, Calc.both merged tenor = true) Calc.tenors ∧
    (length tcols = 5%nat → length scols = 5%nat →
     labels out = odict_values Calc.OUTPUT_COLUMNS).
Proof.
  intros Hbt Hbs Hdt Hds Htc Hsc (tt & Hndt & Hsubt & Ht) (st & Hnds & Hsubs & Hs).
  destruct (pulled_merged_labels dt ds tcols scols tt st) as (Hml & Hnd & Htenors);
    [done..|].
  set (t := Pull.flatten dt tcols) in *. set (s := Pull.flatten ds scols) in *.
  destruct (basis_frame_steps None t s Hnd) as
    (merged & cut & df & out & Hm & Hl & Hcut & Hlc & Hdf & Hloop & Hsel & Hout);
    [by left|].
  assert (∀ l, l ∈ labels merged →
            ∃ tenor, tenor ∈ Calc.tenors ∧
                     (l = tenor +:+ "_Treasury" ∨ l = tenor +:+ "_SF")) as Hall.
  { intros l Hin. rewrite Hl in Hin. apply Htenors in Hin.
    apply elem_of_app in Hin as [(tenor & -> & Hin)%list_elem_of_fmap|
                                 (tenor & -> & Hin)%list_elem_of_fmap];
      exists tenor; auto. }
  assert (labels out =
            Calc.output_label <$>
              filter (λ tenor, Calc.both merged tenor = true) Calc.tenors) as Hlabels.
  { rewrite (result_labels merged cut df out) by done. f_equal.
    apply filter_ext_in. intros tenor Htenor. split; [|tauto].
    intros [?|Hin]; [done|]. apply Hall in Hin as (tenor' & Htenor' & Heq).
    destruct (output_not_input tenor tenor' Htenor Htenor') as [H1 H2].
    by destruct Heq. }
  exists t, s, merged, (ffill out). split_and!.
  - unfold Pull.pull_treasury_sf_data. by rewrite Hbt, Hbs, !process_nonempty.
  - done.
  - done.
  - unfold t, Pull.flatten. cbn. rewrite <- !list_fmap_compose. by apply list_fmap_ext.
  - unfold s, Pull.flatten. cbn. rewrite <- !list_fmap_compose. by apply list_fmap_ext.
  - done.
  - by rewrite Hl.
  - done.
  - by rewrite calculate_returned, Hout.
  - by rewrite labels_ffill.
  - intros Hlt Hls. rewrite labels_ffill, Hlabels, output_values. f_equal.
    apply filter_all. intros tenor Htenor.
    assert (Pull.treasury_tickers ⊆ tt) as Hallt.
    { apply all_of_them; [done..|].
      rewrite <- (length_fmap fst tcols), Ht, length_fmap in Hlt. by rewrite Hlt. }
    assert (Pull.sf_tickers ⊆ st) as Halls.
    { apply all_of_them; [done..|].
      rewrite <- (length_fmap fst scols), Hs, length_fmap in Hls. by rewrite Hls. }
    destruct tenor_labels_of_tickers as [HT HS].
    unfold Calc.both, in_columns. rewrite Hl, Hml.
    apply andb_true_iff. split; apply bool_decide_eq_true, elem_of_app; [left|right].
    + apply (fmap_sub _ _ _ Hallt). rewrite HT.
      by apply (list_elem_of_fmap_2 (λ tenor : string, tenor +:+ "_Treasury")).
    + apply (fmap_sub _ _ _ Halls). rewrite HS.
      by apply (list_elem_of_fmap_2 (λ tenor : string, tenor +:+ "_SF")).
Qed.

Lemma pulled_frames_give_tenor_columns_witness :
  ∃ t s merged out,
    Pull.pull_treasury_sf_data
      (λ tickers _ _ _,
         if bool_decide (tickers = Pull.treasury_tickers)
         then Pull.MultiColumns [1; 2]
                [(("USGG2YR Index", "PX_LAST"), [4.5; 4.75]%float)]
         else Pull.MultiColumns [1; 2]
                [(("USOSFR2 Curncy", "PX_LAST"), [4.25; 4]%float)])
      "2000-01-01" "2000-01-02" =
      [("treasury_yields", Pull.PlainColumns t); ("sf_rates", Pull.PlainColumns s)] ∧
    Calc.prepare_data t s = Ok merged ∧
    labels merged = ["2Y_Treasury"; "2Y_SF"] ∧
    returned (Calc.calculate_treasury_sf_basis None t s) = Ok out ∧
    labels out = ["Treasury_SF_2Y"].
Proof.
  destruct (pulled_frames_give_tenor_columns
      (λ tickers _ _ _,
         if bool_decide (tickers = Pull.treasury_tickers)
         then Pull.MultiColumns [1; 2]
                [(("USGG2YR Index", "PX_LAST"), [4.5; 4.75]%float)]
         else Pull.MultiColumns [1; 2]
                [(("USOSFR2 Curncy", "PX_LAST"), [4.25; 4]%float)])
      "2000-01-01" "2000-01-02" [1; 2] [1; 2]
      [(("USGG2YR Index", "PX_LAST"), [4.5; 4.75]%float)]
      [(("USOSFR2 Curncy", "PX_LAST"), [4.25; 4]%float)])
    as (t & s & merged & out & Hpull & _ & _ & _ & _ & Hm & _ & _ & Hout & Hlabels & _).
  - vm_compute. reflexivity.
  - vm_compute. reflexivity.
  - discriminate.
  - discriminate.
  - discriminate.
  - discriminate.
  - exists ["USGG2YR Index"]. split_and!.
    + apply (bool_decide_unpack _). vm_compute. exact I.
    + apply (bool_decide_unpack _). vm_compute. exact I.
    + reflexivity.
  - exists ["USOSFR2 Curncy"]. split_and!.
    + apply (bool_decide_unpack _). vm_compute. exact I.
    + apply (bool_decide_unpack _). vm_compute. exact I.
    + reflexivity.
  - exists t, s, merged, out.
    vm_compute in Hpull. injection Hpull as <- <-.
    split; [vm_compute; reflexivity|].
    split; [exact Hm|].
    split; [vm_compute in Hm; injection Hm as <-; reflexivity|].
    split; [exact Hout|].
    rewrite Hlabels. vm_compute in Hm. injection Hm as <-. vm_compute. reflexivity.
Defined.

(** ** The wide table *)

Lemma Sorted_monotonic idx : Sorted Z.le idx → is_monotonic_increasing idx = true.
Proof.
  induction 1 as [|k idx Hs IH Hhd]; [done|].
  destruct Hhd as [|k' idx' Hk]; [done|].
  change (is_monotonic_increasing (k :: k' :: idx'))
    with (bool_decide (k ≤ k') && is_monotonic_increasing (k' :: idx')).
  by rewrite bool_decide_eq_true_2, IH.
Qed.

Lemma monotonic_sublist (l k : list Z) :
  l `sublist_of` k → is_monotonic_increasing k = true →
  is_monotonic_increasing l = true.
Proof.
  induction 1 as [|x l k Hsub IH|x l k Hsub IH]; [done| |].
  - rewrite !monotonic_cons. intros [Hall Hm]. split; [|by apply IH].
    rewrite Forall_forall in Hall. apply Forall_forall. intros y Hy.
    apply Hall. by eapply elem_of_sublist.
  - rewrite monotonic_cons. intros [_ Hm]. by apply IH.
Qed.

Lemma dates_spec (df : Long.Table) :
  NoDup (Long.dates df) ∧
  is_monotonic_increasing (Long.dates df) = true ∧
  ∀ d, d ∈ Long.dates df ↔ ∃ r, r ∈ df ∧ Long.ds r = d.
Proof.
  unfold Long.dates. split_and!.
  - rewrite merge_sort_Permutation. apply NoDup_remove_dups.
  - apply Sorted_monotonic, Sorted_merge_sort, _.
  - intros d. rewrite merge_sort_Permutation, elem_of_remove_dups, list_elem_of_fmap.
    split; intros (r & ? & ?); by exists r.
Qed.

Lemma series_spec (df : Long.Table) :
  NoDup (Long.series df) ∧
  Sorted String.le (Long.series df) ∧
  ∀ id, id ∈ Long.series df ↔ ∃ r, r ∈ df ∧ Long.unique_id r = id.
Proof.
  unfold Long.series. split_and!.
  - rewrite merge_sort_Permutation. apply NoDup_remove_dups.
  - apply (Sorted_merge_sort String.le).
  - intros d. rewrite merge_sort_Permutation, elem_of_remove_dups, list_elem_of_fmap.
    split; intros (r & ? & ?); by exists r.
Qed.

Lemma filter_unique {A B : Type} `{!EqDecision B} (f : A → B) (l : list A) (r : A) :
  NoDup (f <$> l) → r ∈ l → filter (λ x, f x = f r) l = [r].
Proof.
  induction l as [|a l IH]; intros Hnd Hr; [by apply elem_of_nil in Hr|].
  rewrite fmap_cons in Hnd. apply NoDup_cons in Hnd as [Ha Hnd].
  rewrite filter_cons. apply elem_of_cons in Hr as [->|Hr].
  - rewrite decide_True by done. f_equal. apply filter_none, Forall_forall.
    intros x Hx Heq. apply Ha. rewrite <- Heq. by apply list_elem_of_fmap_2.
  - rewrite decide_False; [by apply IH|].
    intros Heq. apply Ha. rewrite Heq. by apply list_elem_of_fmap_2.
Qed.

(** The cell of a row is its value; a cell without a row is missing. *)
Lemma cell_of_row (df : Long.Table) r :
  NoDup (Long.key <$> df) → r ∈ df →
  Long.cell df (Long.ds r) (Long.unique_id r) = Long.y r.
Proof.
  intros Hnd Hr. unfold Long.cell.
  change (Long.ds r, Long.unique_id r) with (Long.key r).
  by rewrite (filter_unique Long.key).
Qed.

Lemma cell_without_row (df : Long.Table) d id :
  (∀ r, r ∈ df → Long.key r ≠ (d, id)) → Long.cell df d id = nan.
Proof.
  intros Hno. unfold Long.cell.
  destruct (filter (λ r, Long.key r = (d, id)) df) as [|r rs] eqn:Hf; [done|].
  assert (r ∈ filter (λ r, Long.key r = (d, id)) df) as Hr by (rewrite Hf; left).
  apply list_elem_of_filter in Hr as [Hk Hr]. by destruct (Hno r Hr).
Qed.

Lemma cell_valid (df : Long.Table) d id :
  is_nan (Long.cell df d id) = false →
  ∃ r, r ∈ df ∧ Long.key r = (d, id) ∧ Long.y r = Long.cell df d id.
Proof.
  unfold Long.cell.
  destruct (filter (λ r, Long.key r = (d, id)) df) as [|r rs] eqn:Hf; [done|].
  intros _. exists r. assert (r ∈ filter (λ r, Long.key r = (d, id)) df) as Hr
    by (rewrite Hf; left).
  apply list_elem_of_filter in Hr as [? ?]. done.
Qed.

Lemma find_first_elem d (l : list Z) :
  d ∈ l → ∃ p, find_first d l = Some p ∧ l !! p = Some d.
Proof.
  induction l as [|k l IH]; [by intros ?%elem_of_nil|].
  intros Hd. cbn [find_first]. case_bool_decide as Hk.
  - exists 0%nat. by subst.
  - apply elem_of_cons in Hd as [?|Hd]; [congruence|].
    destruct (IH Hd) as (p & -> & Hp). by exists (S p).
Qed.

(** What [pivot] returns for a table with one row under each pair. *)
Lemma pivot_spec (df : Long.Table) :
  NoDup (Long.key <$> df) →
  ∃ wide,
    Long.pivot df = Ok wide ∧
    index wide = Long.dates df ∧
    labels wide = Long.series df ∧
    rectangular wide ∧
    ∀ id, id ∈ Long.series df →
      column wide id = Some ((λ d, Long.cell df d id) <$> Long.dates df).
Proof.
  intros Hnd. unfold Long.pivot. rewrite bool_decide_eq_true_2 by done.
  eexists. split; [reflexivity|]. cbn [index].
  assert (labels {| index := Long.dates df;
                    columns := (λ id, (id, (λ d, Long.cell df d id) <$> Long.dates df))
                                 <$> Long.series df |} = Long.series df) as Hl.
  { unfold labels. cbn [columns]. rewrite <- list_fmap_compose. apply list_fmap_id. }
  split_and!; [done|done| |].
  - unfold rectangular. cbn [index columns]. apply Forall_fmap, Forall_true.
    intros id. cbn. by rewrite length_fmap.
  - intros id Hid. unfold column. erewrite named_elem; [done| |].
    + fold (labels {| index := Long.dates df;
                      columns := (λ id, (id, (λ d, Long.cell df d id) <$> Long.dates df))
                                   <$> Long.series df |}).
      rewrite Hl. apply series_spec.
    + cbn [columns].
      by apply (list_elem_of_fmap_2
                  (λ id, (id, (λ d, Long.cell df d id) <$> Long.dates df))).
Qed.

(** X14: [load_treasury_sf_data].  A long table with two rows under one
    date and series raises [ValueError].  Any other long table gives a
    wide frame that is rectangular, with a column for each series of the
    table, each once and in ascending order of the names, and a row for
    each date of the table, each once and in ascending order; the cell of
    a date and a series is the value of the row filed under them, and a
    missing value when there is no such row. *)
Theorem load_treasury_sf_data_spec (df : Long.Table) :
  (¬ NoDup (Long.key <$> df) → Plot.load_treasury_sf_data df = Raise ValueError) ∧
  (NoDup (Long.key <$> df) →
   ∃ wide,
     Plot.load_treasury_sf_data df = Ok wide ∧
     rectangular wide ∧
     NoDup (labels wide) ∧ Sorted String.le (labels wide) ∧
     NoDup (index wide) ∧ is_monotonic_increasing (index wide) = true ∧
     (∀ d, d ∈ index wide ↔ ∃ r, r ∈ df ∧ Long.ds r = d) ∧
     (∀ id, id ∈ labels wide ↔ ∃ r, r ∈ df ∧ Long.unique_id r = id) ∧
     (∀ d id, d ∈ index wide → id ∈ labels wide →
        ∃ v, column wide id = Some v ∧
             value_at (index wide) v d = Some (Long.cell df d id)) ∧
     (∀ r, r ∈ df → Long.cell df (Long.ds r) (Long.unique_id r) = Long.y r) ∧
     (∀ d id, (∀ r, r ∈ df → Long.key r ≠ (d, id)) → Long.cell df d id = nan)).
Proof.
  split.
  - intros Hdup. unfold Plot.load_treasury_sf_data, Long.pivot.
    by rewrite bool_decide_eq_false_2.
  - intros Hnd. destruct (pivot_spec df Hnd) as (wide & Hp & Hi & Hl & Hrect & Hcol).
    destruct (dates_spec df) as (Hdn & Hdm & Hde).
    destruct (series_spec df) as (Hsn & Hss & Hse).
    exists wide. unfold Plot.load_treasury_sf_data. rewrite Hp, Hi, Hl.
    split_and!; try done.
    + intros d id Hd Hid. eexists. split; [by apply Hcol|].
      unfold value_at. destruct (find_first_elem d _ Hd) as (p & -> & Hp').
      cbn. by rewrite list_lookup_fmap, Hp'.
    + intros r Hr. by apply cell_of_row.
    + apply cell_without_row.
Qed.

(** ** The traces of a figure *)









(** ** The window of [plot_figure] with a start date *)

(** X16: the window with a start date and no end date, the one of the
    default arguments.  For a frame in date order, rectangular and with
    no label twice, [plot_figure] returns a figure, stored at
    [save_path]; it has a trace for each of the five tenor columns that
    are in the frame, in the order of the five and named after the tenor;
    and a trace holds the points of its column whose date is the start
    date or later and whose value is not missing. *)
Theorem plot_from_start_date (df : DataFrame) (save_path : string) (a : Z)
    (fs : Plot.files) :
  rectangular df →
  NoDup (labels df) →
  is_monotonic_increasing (index df) = true →
  ∃ fig,
    Plot.plot_figure df save_path (Some a) None fs =
      Ok (fig, <[save_path := fig]> fs) ∧
    Plot.name <$> Plot.traces fig =
      replace "Treasury_SF_" "" <$> filter (λ tenor, tenor ∈ labels df) Plot.tenors ∧
    Plot.traces fig =
      omap (λ tenor, Plot.trace_of df (Some a) None tenor <$> column df tenor)
           Plot.tenors ∧
    ∀ tenor values,
      Plot.x (Plot.trace_of df (Some a) None tenor values) =
        (filter (λ p, a ≤ p.1 ∧ is_nan p.2 = false) (zip (index df) values)).*1 ∧
      Plot.y (Plot.trace_of df (Some a) None tenor values) =
        Array1 (filter (λ p, a ≤ p.1 ∧ is_nan p.2 = false) (zip (index df) values)).*2.
Proof.
  intros Hrect Hnd Hm.
  destruct (plot_figure_spec df save_path (Some a) None fs Hnd)
    as (fig & Hrun & Htr); [by right|].
  exists fig. split_and!.
  - exact Hrun.
  - rewrite Htr. by apply trace_names.
  - exact Htr.
  - intros tenor values.
    assert (filter (λ p : Z * float,
                      Plot.window (Some a) None p.1 = true ∧ is_nan p.2 = false)
                   (zip (index df) values)
            = filter (λ p, a ≤ p.1 ∧ is_nan p.2 = false)
                     (zip (index df) values)) as Hw.
    { apply list_filter_iff. intros p. unfold Plot.window, in_window.
      rewrite andb_true_r, bool_decide_eq_true. tauto. }
    unfold Plot.trace_of. cbn [Plot.x Plot.y]. by rewrite Hw.
Qed.

Lemma plot_from_start_date_witness :
  ∃ fig,
    Plot.plot_figure
      (mkDF [1; 2; 3; 4]
         [("Treasury_SF_5Y", [1; nan; 3; 4]%float);
          ("Treasury_SF_2Y", [nan; 5; 6; 7]%float)])
      "out.html" (Some 3) None ∅ = Ok (fig, <["out.html" := fig]> ∅) ∧
    Plot.traces fig =
      [Plot.mkTrace [3; 4] (Array1 [6; 7]%float) "lines" "2Y";
       Plot.mkTrace [3; 4] (Array1 [3; 4]%float) "lines" "5Y"].
Proof.
  destruct (plot_from_start_date
              (mkDF [1; 2; 3; 4]
                 [("Treasury_SF_5Y", [1; nan; 3; 4]%float);
                  ("Treasury_SF_2Y", [nan; 5; 6; 7]%float)])
              "out.html" 3 ∅)
    as (fig & Hrun & _ & Htraces & _).
  - repeat constructor.
  - apply (bool_decide_unpack _). vm_compute. exact I.
  - reflexivity.
  - exists fig. split; [exact Hrun|]. rewrite Htraces. vm_compute. reflexivity.
Defined.

(** ** An index that is not in order *)

Lemma find_first_None a (idx : list Z) : a ∉ idx → find_first a idx = None.
Proof.
  induction idx as [|k idx IH]; [done|].
  intros [Hne Hin]%not_elem_of_cons. cbn [find_first].
  rewrite bool_decide_eq_false_2 by done. by rewrite IH.
Qed.

Lemma get_slice_bound_unordered idx a s :
  is_monotonic_increasing idx = false → is_monotonic_decreasing idx = false →
  a ∉ idx → get_slice_bound idx a s = Raise KeyError.
Proof.
  intros Hi Hd Ha. unfold get_slice_bound.
  by rewrite find_first_None, Hi, Hd.
Qed.

(** A turn of the loop for a tenor that has a column. *)
Lemma plot_tenor_unordered df a end_dt fig tenor :
  rectangular df → NoDup (labels df) →
  is_monotonic_increasing (index df) = false →
  is_monotonic_decreasing (index df) = false →
  a ∉ index df → tenor ∈ labels df →
  Plot.plot_tenor df (Some a) end_dt fig tenor = Raise KeyError.
Proof.
  intros Hrect Hnd Hi Hd Ha Hin. unfold Plot.plot_tenor.
  assert (in_columns tenor (labels df) = true) as Hcol
    by (by apply bool_decide_eq_true).
  rewrite Hcol. cbn [negb].
  destruct (getitem_column df tenor Hnd Hcol) as (values & Hg & Hc).
  rewrite (frame_item_column _ _ _ Hg). cbn [mbind result_bind].
  assert (∀ stop, item_loc (OneColumn (zip (index df) values)) (Some a) stop =
                  Raise KeyError) as Hloc.
  { intros stop. unfold item_loc, series_loc, slice_locs.
    rewrite fst_zip by (by rewrite (column_length df tenor values)).
    by rewrite get_slice_bound_unordered. }
  destruct end_dt; by rewrite Hloc.
Qed.

Lemma plot_tenor_absent df start_dt end_dt fig tenor :
  tenor ∉ labels df → Plot.plot_tenor df start_dt end_dt fig tenor = Ok fig.
Proof.
  intros Hin. unfold Plot.plot_tenor, in_columns.
  by rewrite (bool_decide_eq_false_2 (tenor ∈ labels df)).
Qed.

(** X17: an index that is not in order.  For a rectangular frame with no
    label twice whose dates neither ascend nor descend, a start date that
    is none of its dates makes [plot_figure] raise [KeyError], with or
    without an end date, as soon as one of the five tenor columns is in
    the frame; no file is written. *)
Theorem plot_unordered_index_raises (df : DataFrame) (save_path : string) (a : Z)
    (end_date : option Z) (fs : Plot.files) (tenor : string) :
  rectangular df →
  NoDup (labels df) →
  is_monotonic_increasing (index df) = false →
  is_monotonic_decreasing (index df) = false →
  a ∉ index df →
  tenor ∈ Plot.tenors → tenor ∈ labels df →
  Plot.plot_figure df save_path (Some a) end_date fs = Raise KeyError.
Proof.
  intros Hrect Hnd Hi Hd Ha Htenor Hin. unfold Plot.plot_figure.
  assert (∀ ts fig, tenor ∈ ts →
            foldM (Plot.plot_tenor df (Some a) end_date) fig ts = Raise KeyError)
    as Hloop.
  { induction ts as [|t ts IH]; intros fig Ht; [by apply elem_of_nil in Ht|].
    cbn [foldM]. destruct (decide (t ∈ labels df)) as [Hpresent|Habsent].
    - by rewrite plot_tenor_unordered.
    - rewrite plot_tenor_absent by done. cbn [mbind result_bind]. apply IH.
      apply elem_of_cons in Ht as [->|Ht]; done. }
  by rewrite Hloop.
Qed.

Lemma plot_unordered_index_raises_witness :
  Plot.plot_figure
    (mkDF [3; 1; 2] [("Treasury_SF_5Y", [1; 2; 3]%float)])
    "out.html" (Some 0) None ∅ = Raise KeyError.
Proof.
  apply (plot_unordered_index_raises _ _ _ _ _ "Treasury_SF_5Y").
  - repeat constructor.
  - apply (bool_decide_unpack _). vm_compute. exact I.
  - reflexivity.
  - reflexivity.
  - apply (bool_decide_unpack _). vm_compute. exact I.
  - apply (bool_decide_unpack _). vm_compute. exact I.
  - apply (bool_decide_unpack _). vm_compute. exact I.
Defined.

(** ** [plot_main] *)

Lemma elem_of_zip_fmap {A B : Type} (f : A → B) (l : list A) a b :
  (a, b) ∈ zip l (f <$> l) ↔ a ∈ l ∧ b = f a.
Proof.
  induction l as [|x l IH]; cbn.
  - rewrite !elem_of_nil. tauto.
  - rewrite !elem_of_cons, IH. split.
    + intros [[= -> ->]|[? ->]]; auto.
    + intros [[->|?] ->]; auto.
Qed.

(** X18: [plot_main].  On a long table with two rows under one date and
    series it raises [ValueError].  On any other it returns, having
    written a figure to the file; the figure has a trace for each of the
    five tenors that is a series of the table, in the order of the five
    and named after the tenor, with an array of one dimension for its
    values; and the points of a trace are the rows of
    that series, dated 2018-01-01 or later, whose value is not missing,
    in ascending order of the dates, each date once. *)
Theorem plot_main_draws_the_table (html : string) (df : Long.Table)
    (fs : Plot.files) :
  (¬ NoDup (Long.key <$> df) → Plot.plot_main html df fs = Raise ValueError) ∧
  (NoDup (Long.key <$> df) →
   ∃ fig,
     Plot.plot_main html df fs = Ok (<[html := fig]> fs) ∧
     Plot.name <$> Plot.traces fig =
       replace "Treasury_SF_" "" <$>
         filter (λ tenor, tenor ∈ Long.unique_id <$> df) Plot.tenors ∧
     ∀ tr, tr ∈ Plot.traces fig →
       ∃ tenor values,
         tenor ∈ Plot.tenors ∧
         Plot.name tr = replace "Treasury_SF_" "" tenor ∧
         Plot.y tr = Array1 values ∧
         length (Plot.x tr) = length values ∧
         is_monotonic_increasing (Plot.x tr) = true ∧
         NoDup (Plot.x tr) ∧
         ∀ d v, (d, v) ∈ zip (Plot.x tr) values ↔
           ∃ r, r ∈ df ∧ Long.unique_id r = tenor ∧ Long.ds r = d ∧
                Long.y r = v ∧ Plot.DEFAULT_START_DATE ≤ d ∧ is_nan v = false).
Proof.
  split.
  - intros Hdup. unfold Plot.plot_main, Plot.load_treasury_sf_data, Long.pivot.
    by rewrite bool_decide_eq_false_2.
  - intros Hnd. destruct (pivot_spec df Hnd) as (wide & Hp & Hi & Hl & Hrect & Hcol).
    destruct (dates_spec df) as (Hdn & Hdm & Hde).
    destruct (series_spec df) as (Hsn & _ & Hse).
    destruct (plot_figure_spec wide html (Some Plot.DEFAULT_START_DATE)
                Plot.DEFAULT_END_DATE fs) as (fig & Hrun & Htr).
    { by rewrite Hl. }
    { right. by rewrite Hi. }
    exists fig. split_and!.
    + unfold Plot.plot_main, Plot.load_treasury_sf_data. rewrite Hp.
      cbn [mbind result_bind]. by rewrite Hrun.
    + rewrite Htr, trace_names by (by rewrite Hl). f_equal.
      apply filter_ext_in. intros tenor _. rewrite Hl, Hse, list_elem_of_fmap.
      split; intros (r & ? & ?); by exists r.
    + intros tr Hin. rewrite Htr in Hin.
      apply list_elem_of_omap in Hin as (tenor & Htenor & Hsome).
      destruct (column wide tenor) as [values|] eqn:Hc; [|done].
      cbn in Hsome. injection Hsome as <-.
      assert (tenor ∈ Long.series df) as Hid.
      { rewrite <- Hl. pose proof (column_in _ _ _ Hc) as Hin.
        unfold in_columns in Hin. by apply bool_decide_eq_true in Hin. }
      rewrite (Hcol tenor Hid) in Hc. injection Hc as <-.
      unfold Plot.trace_of. cbn [Plot.name Plot.x Plot.y]. rewrite Hi.
      set (points := filter _ _). exists tenor, points.*2.
      assert (points.*1 `sublist_of` Long.dates df) as Hsub.
      { rewrite <- (fst_zip (Long.dates df)
                      ((λ d, Long.cell df d tenor) <$> Long.dates df))
          by (by rewrite length_fmap).
        apply fmap_sublist, sublist_filter. }
      split_and!; [done|done|done|by rewrite !length_fmap| | |].
      * by eapply monotonic_sublist.
      * by eapply sublist_NoDup.
      * intros d v. rewrite zip_fst_snd. unfold points.
        rewrite list_elem_of_filter, elem_of_zip_fmap. cbn [fst snd].
        unfold Plot.window, in_window, Plot.DEFAULT_END_DATE.
        rewrite andb_true_r, bool_decide_eq_true. split.
        -- intros [[Hstart Hvalid] [Hd ->]].
           destruct (cell_valid df d tenor Hvalid) as (r & Hr & [= Hds Hid'] & Hy).
           exists r. by split_and!.
        -- intros (r & Hr & <- & <- & <- & Hstart & Hvalid).
           rewrite <- (cell_of_row df r) in * by done. split_and!; [done..| |done].
           apply Hde. by exists r.
Qed.

(** A run of [plot_main]: a row before the default start date, a missing
    value and a series that is no tenor are not drawn. *)
Example plot_main_run :
  ∃ fig,
    Plot.plot_main "treasury_sf_basis.html"
      [Long.mkRow "Treasury_SF_2Y" 17531 10; Long.mkRow "Treasury_SF_2Y" 17533 12;
       Long.mkRow "Treasury_SF_5Y" 17532 nan; Long.mkRow "Treasury_SF_5Y" 17533 20;
       Long.mkRow "Treasury_SF_2Y" 17532 11; Long.mkRow "Other" 17532 1]
      ∅ = Ok (<["treasury_sf_basis.html" := fig]> ∅) ∧
    Plot.traces fig =
      [Plot.mkTrace [17532; 17533] (Array1 [11; 12]%float) "lines" "2Y";
       Plot.mkTrace [17533] (Array1 [20]%float) "lines" "5Y"].
Proof. eexists. split; vm_compute; reflexivity. Qed.

(** ** The term structure of the summary *)

Lemma summary_labels :
  (λ t, "Treasury_SF_" +:+ pretty t +:+ "Y") <$> Summary.tenors = Plot.tenors.
Proof. vm_compute. reflexivity. Qed.

Lemma monotonic_last (l : list Z) n m :
  is_monotonic_increasing l = true → length l = S n → l !! n = Some m →
  ∀ d, d ∈ l → d ≤ m.
Proof.
  revert n. induction l as [|k l IH]; intros n Hm Hlen Hn d Hd; [done|].
  apply monotonic_cons in Hm as [Hall Hm]. rewrite Forall_forall in Hall.
  destruct n as [|n].
  - destruct l; [|done]. cbn in Hn. injection Hn as <-.
    apply list_elem_of_singleton in Hd as ->. lia.
  - cbn in Hn, Hlen. injection Hlen as Hlen.
    apply elem_of_cons in Hd as [->|Hd].
    + apply Hall. by eapply list_elem_of_lookup_2.
    + by eapply IH.
Qed.

Lemma get_of_row (f : string → float) (ids : list string) key :
  NoDup ids →
  Summary.series_get ((λ id, (id, f id)) <$> ids) key =
    if bool_decide (key ∈ ids) then Some (Summary.Scalar (f key)) else None.
Proof.
  intros Hnd. unfold Summary.series_get.
  assert (filter (λ p : string * float, p.1 = key) ((λ id, (id, f id)) <$> ids) =
          if bool_decide (key ∈ ids) then [(key, f key)] else []) as ->.
  { induction Hnd as [|id ids Hnin Hnd IH].
    - by rewrite bool_decide_eq_false_2 by apply not_elem_of_nil.
    - rewrite fmap_cons, filter_cons. cbn [fst]. rewrite IH.
      destruct (decide (id = key)) as [->|Hne].
      + rewrite (bool_decide_eq_false_2 (key ∈ ids)) by done.
        by rewrite bool_decide_eq_true_2 by left.
      + apply (f_equal (λ b : bool, if b then [(key, f key)] else [])).
        apply bool_decide_ext. rewrite elem_of_cons.
        split; [tauto|]. intros [?|?]; [congruence|done]. }
  by case_bool_decide.
Qed.

(** X19: the term structure of the summary.  In the term-structure cell,
    with [basis_wide] the table that the statistics cell pivots from a
    long table with a row in it, [values] holds five entries, one for
    each of the five tenors in their order: for a tenor that is a series
    of the table, its value on the latest date of the whole table,
    missing when the tenor has no row on that date; for a tenor that is
    no series of the table, [None]. *)
Theorem term_structure_spec (df : Long.Table) (basis_wide : DataFrame) :
  df ≠ [] →
  Long.pivot df = Ok basis_wide →
  ∃ latest,
    (∃ r, r ∈ df ∧ Long.ds r = latest) ∧
    (∀ r, r ∈ df → Long.ds r ≤ latest) ∧
    Summary.term_structure basis_wide =
      Ok ((λ tenor,
             if bool_decide (tenor ∈ Long.unique_id <$> df)
             then Some (Summary.Scalar (Long.cell df latest tenor))
             else None) <$> Plot.tenors).
Proof.
  intros Hne Hpivot.
  assert (NoDup (Long.key <$> df)) as Hnd.
  { unfold Long.pivot in Hpivot. by case_bool_decide. }
  destruct (pivot_spec df Hnd) as (wide & Hp & Hi & Hl & Hrect & Hcol).
  assert (wide = basis_wide) as -> by congruence.
  destruct (dates_spec df) as (Hdn & Hdm & Hde).
  destruct (series_spec df) as (Hsn & _ & Hse).
  destruct (length (Long.dates df)) as [|n] eqn:Hlen.
  { destruct df as [|r df]; [done|].
    assert (Long.ds r ∈ Long.dates (r :: df)) as Hin by (apply Hde; exists r; split; [left|done]).
    destruct (Long.dates (r :: df)); [by apply elem_of_nil in Hin|done]. }
  destruct (lookup_lt_is_Some_2 (Long.dates df) n) as [latest Hlast]; [lia|].
  exists latest. split_and!.
  - apply Hde. by eapply list_elem_of_lookup_2.
  - intros r Hr. apply (monotonic_last (Long.dates df) n); [done..|].
    apply Hde. by exists r.
  - unfold Summary.term_structure, Summary.iloc_last. rewrite Hi, Hlen.
    assert (omap (λ c : string * list float, pair c.1 <$> c.2 !! n) (columns basis_wide) =
            (λ id, (id, Long.cell df latest id)) <$> Long.series df) as ->.
    { unfold Long.pivot in Hp. rewrite bool_decide_eq_true_2 in Hp by done.
      injection Hp as <-. cbn [columns]. clear Hcol Hrect Hl Hi Hsn Hse Hpivot.
      induction (Long.series df) as [|id ids IH]; [done|].
      rewrite !fmap_cons. cbn [omap list_omap fst snd].
      by rewrite list_lookup_fmap, Hlast, IH. }
    cbn [mbind result_bind]. f_equal.
    rewrite <- summary_labels, <- list_fmap_compose.
    apply list_fmap_ext. intros i t _. cbn.
    rewrite (get_of_row (λ id, Long.cell df latest id)) by done.
    apply (f_equal (λ b : bool, if b then Some _ else None)).
    apply bool_decide_ext. rewrite Hse, list_elem_of_fmap.
    split; intros (r & ? & ?); by exists r.
Qed.

Lemma term_structure_spec_witness :
  Summary.term_structure
    (mkDF [17531; 17532; 17533]
       [("Treasury_SF_2Y", [10; 11; nan]%float);
        ("Treasury_SF_30Y", [nan; nan; 30]%float);
        ("Treasury_SF_5Y", [nan; nan; 20]%float)]) =
    Ok [Some (Summary.Scalar nan); Some (Summary.Scalar 20%float); None; None;
        Some (Summary.Scalar 30%float)].
Proof.
  destruct (term_structure_spec
              [Long.mkRow "Treasury_SF_2Y" 17532 11;
               Long.mkRow "Treasury_SF_5Y" 17533 20;
               Long.mkRow "Treasury_SF_2Y" 17531 10;
               Long.mkRow "Treasury_SF_30Y" 17533 30]
              (mkDF [17531; 17532; 17533]
                 [("Treasury_SF_2Y", [10; 11; nan]%float);
                  ("Treasury_SF_30Y", [nan; nan; 30]%float);
                  ("Treasury_SF_5Y", [nan; nan; 20]%float)]))
    as (latest & (r & Hr & Hds) & Hmax & Hrun).
  - discriminate.
  - vm_compute. reflexivity.
  - rewrite Hrun. clear Hrun.
    assert (17533 ≤ latest) as Hge.
    { apply (Hmax (Long.mkRow "Treasury_SF_5Y" 17533 20)). right. left. }
    assert (latest = 17533) as ->.
    { repeat (apply elem_of_cons in Hr as [->|Hr]; [cbn in Hds; lia|]).
      by apply elem_of_nil in Hr. }
    vm_compute. reflexivity.
Defined.

(** A run of the two cells: the latest date is that of the 5Y and 30Y
    rows, and the 2Y series has no row on it. *)
Example term_structure_run :
  (basis_wide ← Long.pivot
     [Long.mkRow "Treasury_SF_2Y" 17532 11; Long.mkRow "Treasury_SF_5Y" 17533 20;
      Long.mkRow "Treasury_SF_2Y" 17531 10; Long.mkRow "Treasury_SF_30Y" 17533 30];
   Summary.term_structure basis_wide) =
    Ok [Some (Summary.Scalar nan); Some (Summary.Scalar 20%float); None; None;
        Some (Summary.Scalar 30%float)].
Proof. vm_compute. reflexivity. Qed.
